(** * Meal Rotation: quantity scaling, recipe extraction and the recipe routes

    A shallow embedding of the TypeScript sources of the recipe manager:

    - the quantity parser / formatter / scaler of the web client
      ([normalizeFractions], [gcd], [formatQuantity], [parseQuantityToken],
      [scaleLeadingQuantity], [scaleServingsLabel]);
    - the extractor of the API ([scrapeRecipe] and its helpers);
    - the routes of the recipe router over the record store, with the
      validation of an update and the error handler;
    - the helpers of the recipe view of the web client ([normalizeLines],
      [stripLeadingStepNumber], the multiplier, the body of a save).

    JavaScript strings are sequences of UTF-16 code units, JavaScript numbers
    are IEEE-754 binary64 values (the [spec_float] of the standard library at
    precision 53 and maximal exponent 1024), and regular expressions are
    syntax trees run by a backtracking matcher that follows ECMA-262. *)

From Stdlib Require Import ZArith NArith List Bool Lia String Ascii SpecFloat.
From stdpp Require gmap.
Import ListNotations.

Local Open Scope string_scope.
Local Open Scope list_scope.
Local Open Scope Z_scope.

(* ===================================================================== *)
(** * Strings *)
(* ===================================================================== *)

(** A UTF-16 code unit. *)
Definition char := N.

(** A JavaScript string. *)
Definition jsstring := list char.

Definition char_eqb (a b : char) : bool := N.eqb a b.

Fixpoint jsstring_eqb (a b : jsstring) : bool :=
  match a, b with
  | [], [] => true
  | x :: a', y :: b' => char_eqb x y && jsstring_eqb a' b'
  | _, _ => false
  end.

(** Source literals: the UTF-8 bytes of a literal of this file are decoded
    into code units (one, two and three byte sequences, which cover the Basic
    Multilingual Plane; every literal of the sources lies in it). *)
Fixpoint utf8_decode (fuel : nat) (bs : list N) : jsstring :=
  match fuel with
  | O => []
  | S fuel' =>
    match bs with
    | [] => []
    | b0 :: r0 =>
      if (b0 <? 128)%N then b0 :: utf8_decode fuel' r0
      else if (b0 <? 224)%N then
        match r0 with
        | b1 :: r1 =>
          ((b0 - 192) * 64 + (b1 - 128))%N :: utf8_decode fuel' r1
        | [] => [b0]
        end
      else
        match r0 with
        | b1 :: b2 :: r2 =>
          ((b0 - 224) * 4096 + (b1 - 128) * 64 + (b2 - 128))%N
            :: utf8_decode fuel' r2
        | _ => b0 :: r0
        end
    end
  end.

Definition str (s : string) : jsstring :=
  let bs := map N_of_ascii (list_ascii_of_string s) in
  utf8_decode (List.length bs) bs.

(** [\d] *)
Definition is_digit (c : char) : bool := ((48 <=? c) && (c <=? 57))%N.

(** [\w]: letters, digits and the underscore. *)
Definition is_word (c : char) : bool :=
  (((65 <=? c) && (c <=? 90)) || ((97 <=? c) && (c <=? 122))
   || is_digit c || (c =? 95))%N.

(** Line terminators: LF, CR, LS, PS. *)
Definition is_line_terminator (c : char) : bool :=
  ((c =? 10) || (c =? 13) || (c =? 8232) || (c =? 8233))%N.

(** [\s], which is also what [String.prototype.trim] strips: the white space
    code points (TAB, VT, FF, SP, NBSP, ZWNBSP, and category Zs) and the line
    terminators. *)
Definition is_space (c : char) : bool :=
  ((c =? 9) || (c =? 11) || (c =? 12) || (c =? 32) || (c =? 160)
   || (c =? 5760) || ((8192 <=? c) && (c <=? 8202)) || (c =? 8239)
   || (c =? 8287) || (c =? 12288) || (c =? 65279))%N
  || is_line_terminator c.

(** Upper case of an ASCII letter; other code units are left alone.  Under the
    [i] flag (without [u]) ECMA-262 canonicalizes with [toUpperCase] but never
    maps a code unit above 127 to one below 128, so on the ASCII letters that
    occur in the patterns of the sources this is the whole relation. *)
Definition ascii_upper (c : char) : char :=
  if ((97 <=? c) && (c <=? 122))%N then (c - 32)%N else c.

Definition ascii_lower (c : char) : char :=
  if ((65 <=? c) && (c <=? 90))%N then (c + 32)%N else c.

Fixpoint drop_while (p : char -> bool) (s : jsstring) : jsstring :=
  match s with
  | [] => []
  | c :: s' => if p c then drop_while p s' else s
  end.

Definition trimStart (s : jsstring) : jsstring := drop_while is_space s.

Definition trimEnd (s : jsstring) : jsstring :=
  rev (drop_while is_space (rev s)).

(** [String.prototype.trim] *)
Definition trim (s : jsstring) : jsstring := trimEnd (trimStart s).

(** [s.startsWith(p)] *)
Fixpoint startsWith (p s : jsstring) : bool :=
  match p, s with
  | [], _ => true
  | x :: p', y :: s' => char_eqb x y && startsWith p' s'
  | _ :: _, [] => false
  end.

(** [s.replace(pat, rep)] with a string pattern: the first occurrence of
    [pat] is replaced ([rep] contains no [$] in the sources). *)
Fixpoint replace_string (pat rep s : jsstring) : jsstring :=
  if startsWith pat s then rep ++ skipn (List.length pat) s
  else match s with
       | [] => []
       | c :: s' => c :: replace_string pat rep s'
       end.

(** Decimal digits of a natural number, most significant first. *)
Fixpoint digits_of_pos_fuel (fuel : nat) (n : N) (acc : jsstring) : jsstring :=
  match fuel with
  | O => acc
  | S fuel' =>
    let acc' := (48 + n mod 10)%N :: acc in
    if (n <? 10)%N then acc' else digits_of_pos_fuel fuel' (n / 10)%N acc'
  end.

Definition digits_of_N (n : N) : jsstring :=
  digits_of_pos_fuel (S (N.to_nat (N.log2 n))) n [].

(** Decimal rendering of an integer. *)
Definition string_of_Z (z : Z) : jsstring :=
  match z with
  | Z0 => str "0"
  | Zpos p => digits_of_N (Npos p)
  | Zneg p => str "-" ++ digits_of_N (Npos p)
  end.

(** Value of a digit string (no sign), most significant digit first. *)
Fixpoint Z_of_digits_acc (s : jsstring) (acc : Z) : Z :=
  match s with
  | [] => acc
  | c :: s' => Z_of_digits_acc s' (10 * acc + (Z.of_N c - 48))
  end.

Definition Z_of_digits (s : jsstring) : Z := Z_of_digits_acc s 0.

(* ===================================================================== *)
(** * Regular expressions *)
(* ===================================================================== *)

(** Character classes of the patterns in the sources. *)
Inductive cclass :=
| CDigit                      (* \d *)
| CSpace                      (* \s *)
| CDot                        (* .  (no [s] flag: not a line terminator) *)
| CChar (c : char)            (* a literal character *)
| CCharI (c : char)           (* a literal character under the [i] flag *)
| CRange (lo hi : char)       (* [lo-hi] *)
| COneOf (l : list char).     (* [abc] *)

Definition cclass_matches (cl : cclass) (c : char) : bool :=
  match cl with
  | CDigit => is_digit c
  | CSpace => is_space c
  | CDot => negb (is_line_terminator c)
  | CChar x => char_eqb x c
  | CCharI x => char_eqb (ascii_upper x) (ascii_upper c)
  | CRange lo hi => ((lo <=? c) && (c <=? hi))%N
  | COneOf l => existsb (char_eqb c) l
  end.

Inductive regex :=
| REmpty                      (* the empty pattern *)
| RChar (cl : cclass)
| RSeq (r1 r2 : regex)
| RAlt (r1 r2 : regex)        (* r1|r2, r1 tried first *)
| RStar (r : regex)           (* r*, greedy *)
| RGroup (n : nat) (r : regex)(* the n-th capturing group *)
| RBol                        (* ^ (no [m] flag) *)
| REol                        (* $ (no [m] flag) *)
| RWordB.                     (* \b *)

(** r? and r+, greedy. *)
Definition ROpt (r : regex) : regex := RAlt r REmpty.
Definition RPlus (r : regex) : regex := RSeq r (RStar r).

Fixpoint RSeqs (rs : list regex) : regex :=
  match rs with
  | [] => REmpty
  | [r] => r
  | r :: rs' => RSeq r (RSeqs rs')
  end.

Fixpoint RAlts (rs : list regex) : regex :=
  match rs with
  | [] => REmpty
  | [r] => r
  | r :: rs' => RAlt r (RAlts rs')
  end.

(** A literal word, case-sensitive or under the [i] flag. *)
Definition RLit (s : jsstring) : regex := RSeqs (map (fun c => RChar (CChar c)) s).
Definition RLitI (s : jsstring) : regex := RSeqs (map (fun c => RChar (CCharI c)) s).

(** Captures: group number to captured text, most recent binding first. *)
Definition captures := list (nat * jsstring).

Fixpoint capture (n : nat) (cs : captures) : option jsstring :=
  match cs with
  | [] => None
  | (k, v) :: cs' => if Nat.eqb k n then Some v else capture n cs'
  end.

(** A position of the matcher: the code unit before it (none at the start of
    the input) and the rest of the input. *)
Section Matcher.
Context {R : Type}.

Definition cont := option char -> jsstring -> captures -> option R.

(** ECMA-262 RepeatMatcher for [r*]: an iteration that matches the empty
    string fails; when no iteration matches, the continuation runs on the
    current position.  Every iteration consumes input, so [fuel] larger
    than the length of the rest is never exhausted. *)
Fixpoint star_loop (body : option char -> jsstring -> captures -> cont -> option R)
    (fuel : nat) (prev : option char) (s : jsstring) (cs : captures)
    (k : cont) : option R :=
  match fuel with
  | O => None
  | S fuel' =>
    match body prev s cs
            (fun p' s' cs' =>
               if Nat.ltb (List.length s') (List.length s)
               then star_loop body fuel' p' s' cs' k
               else None) with
    | Some v => Some v
    | None => k prev s cs
    end
  end.

Definition at_word_boundary (prev : option char) (s : jsstring) : bool :=
  xorb (match prev with Some c => is_word c | None => false end)
       (match s with c :: _ => is_word c | [] => false end).

(** The backtracking matcher, in continuation-passing style. *)
Fixpoint rmatch (r : regex) (prev : option char) (s : jsstring)
    (cs : captures) (k : cont) : option R :=
  match r with
  | REmpty => k prev s cs
  | RChar cl =>
    match s with
    | c :: s' => if cclass_matches cl c then k (Some c) s' cs else None
    | [] => None
    end
  | RSeq r1 r2 =>
    rmatch r1 prev s cs (fun p' s' cs' => rmatch r2 p' s' cs' k)
  | RAlt r1 r2 =>
    match rmatch r1 prev s cs k with
    | Some v => Some v
    | None => rmatch r2 prev s cs k
    end
  | RStar r1 => star_loop (rmatch r1) (S (List.length s)) prev s cs k
  | RGroup n r1 =>
    rmatch r1 prev s cs
      (fun p' s' cs' =>
         k p' s' ((n, firstn (List.length s - List.length s') s) :: cs'))
  | RBol => match prev with None => k prev s cs | Some _ => None end
  | REol => match s with [] => k prev s cs | _ :: _ => None end
  | RWordB => if at_word_boundary prev s then k prev s cs else None
  end.
End Matcher.

(** The result of a successful match: the text before the match, the matched
    text [m[0]], the captures [m[1]], [m[2]], ... and the text after it. *)
Record rmatch_result := {
  m_before : jsstring;
  m_0 : jsstring;
  m_groups : captures;
  m_after : jsstring
}.

(** A match starting exactly at the given position. *)
Definition match_here (r : regex) (before : jsstring) (prev : option char)
    (s : jsstring) : option rmatch_result :=
  rmatch r prev s []
    (fun _ s' cs =>
       Some {| m_before := before;
               m_0 := firstn (List.length s - List.length s') s;
               m_groups := cs;
               m_after := s' |}).

(** [RegExp.prototype.exec] for a pattern without [g] or [y]: the first
    position, from the left, at which the pattern matches.  [rbefore] is the
    text already passed, most recent code unit first. *)
Fixpoint exec_from (r : regex) (rbefore : jsstring) (s : jsstring)
    : option rmatch_result :=
  match match_here r (rev rbefore) (hd_error rbefore) s with
  | Some m => Some m
  | None =>
    match s with
    | [] => None
    | c :: s' => exec_from r (c :: rbefore) s'
    end
  end.

(** [s.match(r)] (and [r.exec(s)]) for a pattern without [g]. *)
Definition exec (r : regex) (s : jsstring) : option rmatch_result :=
  exec_from r [] s.

(** [r.test(s)] *)
Definition test (r : regex) (s : jsstring) : bool :=
  match exec r s with Some _ => true | None => false end.

(** [m[n] ?? ''] *)
Definition group_or_empty (n : nat) (m : rmatch_result) : jsstring :=
  match capture n (m_groups m) with Some v => v | None => [] end.

(** [s.replace(r, f)] for a pattern without [g]: the first match is replaced
    by what [f] returns for it. *)
Definition replace_first (r : regex) (f : rmatch_result -> jsstring)
    (s : jsstring) : jsstring :=
  match exec r s with
  | Some m => m_before m ++ f m ++ m_after m
  | None => s
  end.

(** [s.replace(r, f)] for a pattern with [g]: every match, from the left and
    without overlap, is replaced; the replacer is called in order and may
    thread a state.  After an empty match the scan moves on by one code unit. *)
Fixpoint replace_all_loop {St : Type} (fuel : nat) (r : regex)
    (f : rmatch_result -> St -> jsstring * St)
    (prev : option char) (s : jsstring) (st : St) : jsstring * St :=
  match fuel with
  | O => (s, st)
  | S fuel' =>
    match match_here r [] prev s with
    | Some m =>
      let '(rep, st') := f m st in
      match m_0 m with
      | [] =>
        match s with
        | [] => (rep, st')
        | c :: s' =>
          let '(out, st'') := replace_all_loop fuel' r f (Some c) s' st' in
          (rep ++ c :: out, st'')
        end
      | _ :: _ =>
        let '(out, st'') :=
          replace_all_loop fuel' r f (Some (last (m_0 m) 0%N)) (m_after m) st' in
        (rep ++ out, st'')
      end
    | None =>
      match s with
      | [] => ([], st)
      | c :: s' =>
        let '(out, st') := replace_all_loop fuel' r f (Some c) s' st in
        (c :: out, st')
      end
    end
  end.

Definition replace_all_st {St : Type} (r : regex)
    (f : rmatch_result -> St -> jsstring * St) (s : jsstring) (st : St)
    : jsstring * St :=
  replace_all_loop (S (List.length s)) r f None s st.

Definition replace_all (r : regex) (f : rmatch_result -> jsstring)
    (s : jsstring) : jsstring :=
  fst (replace_all_st r (fun m (_ : unit) => (f m, tt)) s tt).

(** [s.split(r)] for a pattern without capturing groups: the pieces between
    the matches; a match that ends where the current piece starts is passed
    over, and no match is tried at the end of the input. *)
Fixpoint split_loop (fuel : nat) (r : regex) (piece : jsstring)
    (prev : option char) (s : jsstring) : list jsstring :=
  match fuel with
  | O => [rev piece ++ s]
  | S fuel' =>
    match s with
    | [] => [rev piece]
    | c :: s' =>
      match match_here r [] prev s with
      | Some m =>
        match m_0 m, piece with
        | [], [] => split_loop fuel' r [c] (Some c) s'
        | [], _ :: _ => rev piece :: split_loop fuel' r [] prev s
        | _ :: _, _ =>
          rev piece
            :: split_loop fuel' r [] (Some (last (m_0 m) 0%N)) (m_after m)
        end
      | None => split_loop fuel' r (c :: piece) (Some c) s'
      end
    end
  end.

Definition regex_split (r : regex) (s : jsstring) : list jsstring :=
  match s with
  | [] => match match_here r [] None [] with Some _ => [] | None => [[]] end
  | _ :: _ => split_loop (S (2 * List.length s)) r [] None s
  end.

(* ===================================================================== *)
(** * Numbers *)
(* ===================================================================== *)

(** A JavaScript number: an IEEE-754 binary64 value. *)
Definition number := spec_float.

Definition prec : Z := 53.
Definition emax : Z := 1024.

Definition NaN : number := S754_nan.
Definition Infinity : number := S754_infinity false.

(** [x + y], [x - y], [x * y], [x / y]: round to nearest, ties to even. *)
Definition num_add (x y : number) : number := SFadd prec emax x y.
Definition num_sub (x y : number) : number := SFsub prec emax x y.
Definition num_mul (x y : number) : number := SFmul prec emax x y.
Definition num_div (x y : number) : number := SFdiv prec emax x y.

(** [x < y], [x > y], [x === y], [x !== y] *)
Definition num_lt (x y : number) : bool := SFltb x y.
Definition num_gt (x y : number) : bool := SFltb y x.
Definition num_eq (x y : number) : bool := SFeqb x y.
Definition num_neq (x y : number) : bool := negb (SFeqb x y).

(** The number of an integer (exact up to 2^53, rounded beyond). *)
Definition num_of_Z (z : Z) : number := binary_normalize prec emax z 0 false.

(** [Number.isFinite(x)] *)
Definition Number_isFinite (x : number) : bool :=
  match x with
  | S754_zero _ | S754_finite _ _ _ => true
  | S754_infinity _ | S754_nan => false
  end.

(** Truthiness of a number: neither zero nor NaN. *)
Definition num_truthy (x : number) : bool :=
  match x with
  | S754_zero _ | S754_nan => false
  | S754_infinity _ | S754_finite _ _ _ => true
  end.

(** [Math.abs(x)] *)
Definition Math_abs (x : number) : number := SFabs x.

(** [Math.floor(x)]: a finite value with a negative exponent lies below 2^53
    in magnitude, so its floor is an integer the format holds exactly. *)
Definition Math_floor (x : number) : number :=
  match x with
  | S754_finite s m e =>
    if 0 <=? e then x
    else
      match Z.shiftr (cond_Zopp s (Zpos m)) (- e) with
      | Z0 => S754_zero s
      | q => num_of_Z q
      end
  | _ => x
  end.

(** [Math.round(x)]: the integer nearest to [x], ties toward positive
    infinity, that is the floor of [x + 1/2] taken exactly; a result of zero
    keeps the sign of [x]. *)
Definition Math_round (x : number) : number :=
  match x with
  | S754_finite s m e =>
    if 0 <=? e then x
    else
      match Z.shiftr (2 * cond_Zopp s (Zpos m) + 2 ^ (- e)) (1 - e) with
      | Z0 => S754_zero s
      | q => num_of_Z q
      end
  | _ => x
  end.

(** [x % y]: the remainder of the truncating division, with the sign of the
    dividend; it is always exact. *)
Definition num_rem (x y : number) : number :=
  match x, y with
  | S754_nan, _ | _, S754_nan => NaN
  | S754_infinity _, _ => NaN
  | _, S754_zero _ => NaN
  | S754_zero _, _ => x
  | _, S754_infinity _ => x
  | S754_finite sx mx ex, S754_finite sy my ey =>
    let e := Z.min ex ey in
    let r := (Zpos mx * 2 ^ (ex - e)) mod (Zpos my * 2 ^ (ey - e)) in
    match r with
    | Z0 => S754_zero sx
    | _ => binary_normalize prec emax (cond_Zopp sx r) e false
    end
  end.

(** ** [Number(text)]

    The sources apply [Number] only to texts captured by [\d+] and by
    [\d+(?:\.\d+)?].  Such a text denotes the rational [D / 10^k], where [D] is
    the value of its digits and [k] the number of digits after the point, and
    [Number] is that rational rounded to nearest, ties to even: the division
    of [SFdiv] on the exact integers [D] and [10^k].  Any other text gives
    [NaN] here (JavaScript accepts further literal forms, which the sources
    never pass). *)
Fixpoint all_digits (s : jsstring) : bool :=
  match s with
  | [] => true
  | c :: s' => is_digit c && all_digits s'
  end.

Fixpoint split_at_dot (s : jsstring) : jsstring * option jsstring :=
  match s with
  | [] => ([], None)
  | c :: s' =>
    if (c =? 46)%N then ([], Some s')
    else let '(a, b) := split_at_dot s' in (c :: a, b)
  end.

Definition round_ratio (num den : Z) : number :=
  match num, den with
  | Zpos n, Zpos d =>
    SFdiv prec emax (S754_finite false n 0) (S754_finite false d 0)
  | Z0, Zpos _ => S754_zero false
  | _, _ => NaN
  end.

Definition Number (s : jsstring) : number :=
  match split_at_dot s with
  | (ip, None) =>
    match ip with
    | [] => NaN
    | _ :: _ => if all_digits ip then round_ratio (Z_of_digits ip) 1 else NaN
    end
  | (ip, Some fp) =>
    match ip, fp with
    | _ :: _, _ :: _ =>
      if all_digits ip && all_digits fp
      then round_ratio (Z_of_digits (ip ++ fp)) (10 ^ Z.of_nat (List.length fp))
      else NaN
    | _, _ => NaN
    end
  end.

(** ** [String(x)]  (ECMA-262 Number::toString, radix 10)

    For a positive finite [x = m * 2^e] the digits are those of the integer
    [s] with the fewest digits such that [s * 10^p] still reads back as [x],
    that is lies in the rounding interval of [x] (the midpoints to the
    neighbouring values, included when [m] is even); among several such [s]
    the one nearest to [x], the even one on a tie. *)

(** Comparison of [a * 10^p] with [v * 2^e], all exact. *)
Definition cmp_dec_bin (a p v e : Z) : comparison :=
  Z.compare (a * 10 ^ Z.max p 0 * 2 ^ Z.max (- e) 0)
            (v * 2 ^ Z.max e 0 * 10 ^ Z.max (- p) 0).

(** The floor of [v * 2^e / 10^p]. *)
Definition floor_dec_bin (v e p : Z) : Z :=
  (v * 2 ^ Z.max e 0 * 10 ^ Z.max (- p) 0)
    / (10 ^ Z.max p 0 * 2 ^ Z.max (- e) 0).

Definition in_round_interval (m : positive) (e : Z) (a p : Z) : bool :=
  (* in units of 2^(e-2): the value is 4m, the upper midpoint 4m+2, the lower
     midpoint 4m-2, or 4m-1 below a power of two *)
  let lo := if Pos.eqb m (2 ^ 52) && (- 1074 <? e) then 4 * Zpos m - 1
            else 4 * Zpos m - 2 in
  let hi := 4 * Zpos m + 2 in
  let incl := Z.even (Zpos m) in
  (1 <=? a)
  && match cmp_dec_bin a p lo (e - 2) with
     | Gt => true | Eq => incl | Lt => false
     end
  && match cmp_dec_bin a p hi (e - 2) with
     | Lt => true | Eq => incl | Gt => false
     end.

(** The candidate nearer to [x]; on a tie the even one. *)
Definition nearer (m : positive) (e : Z) (a p : Z) : Z :=
  (* x - a*10^p against (a+1)*10^p - x, that is 2x against (2a+1)*10^p *)
  match cmp_dec_bin (2 * a + 1) p (2 * Zpos m) e with
  | Lt => a + 1
  | Gt => a
  | Eq => if Z.even a then a else a + 1
  end.

Fixpoint shortest_digits (fuel : nat) (m : positive) (e : Z) (p : Z)
    : Z * Z :=
  match fuel with
  | O => (floor_dec_bin (Zpos m) e p, p)
  | S fuel' =>
    let a := floor_dec_bin (Zpos m) e p in
    match in_round_interval m e a p, in_round_interval m e (a + 1) p with
    | true, true => (nearer m e a p, p)
    | true, false => (a, p)
    | false, true => (a + 1, p)
    | false, false => shortest_digits fuel' m e (p - 1)
    end
  end.

Definition zeros (n : Z) : jsstring := repeat 48%N (Z.to_nat n).

Definition toString_pos (m : positive) (e : Z) : jsstring :=
  (* an upper bound on the decimal exponent of the first digit *)
  let p0 := (Zpos (digits2_pos m) + e) * 30103 / 100000 + 2 in
  let '(a, p) := shortest_digits 400 m e p0 in
  let ds := string_of_Z a in
  let k := Z.of_nat (List.length ds) in
  let n := p + k in
  if (k <=? n) && (n <=? 21) then ds ++ zeros (n - k)
  else if (0 <? n) && (n <=? 21) then
    firstn (Z.to_nat n) ds ++ str "." ++ skipn (Z.to_nat n) ds
  else if (- 6 <? n) && (n <=? 0) then str "0." ++ zeros (- n) ++ ds
  else
    let ex := n - 1 in
    let sign := if 0 <=? ex then str "+" else str "-" in
    match ds with
    | [d] => [d] ++ str "e" ++ sign ++ string_of_Z (Z.abs ex)
    | d :: rest => [d] ++ str "." ++ rest ++ str "e" ++ sign ++ string_of_Z (Z.abs ex)
    | [] => []
    end.

Definition String_of_number (x : number) : jsstring :=
  match x with
  | S754_nan => str "NaN"
  | S754_zero _ => str "0"
  | S754_infinity false => str "Infinity"
  | S754_infinity true => str "-Infinity"
  | S754_finite false m e => toString_pos m e
  | S754_finite true m e => str "-" ++ toString_pos m e
  end.

Definition zero : number := S754_zero false.
Definition one : number := num_of_Z 1.
Definition eight : number := num_of_Z 8.
Definition hundred : number := num_of_Z 100.
(** The literals [1e-9] and [0.02]. *)
Definition lit_1e_9 : number := round_ratio 1 (10 ^ 9).
Definition lit_0_02 : number := round_ratio 2 100.

(** Pieces shared by the patterns of the sources. *)
Definition digits1 : regex := RPlus (RChar CDigit).        (* \d+ *)
Definition spaces0 : regex := RStar (RChar CSpace).        (* \s* *)
Definition spaces1 : regex := RPlus (RChar CSpace).        (* \s+ *)

(* ===================================================================== *)
(** * The web client: quantity parsing, formatting and scaling *)
(* ===================================================================== *)

Module Web.

(** The record the client receives from the API; [unknown] fields are kept
    as opaque texts. *)
Inductive ScrapeStatus := pending | ok | error.

Record Recipe := {
  id : Z;
  title : jsstring;
  sourceUrl : jsstring;
  sourceHost : option jsstring;
  imageUrl : option jsstring;
  description : option jsstring;
  servings : option number;
  servingsText : option jsstring;
  ingredients : option jsstring;
  instructions : option jsstring;
  scrapeStatus : ScrapeStatus;
  scrapeError : option jsstring;
  lastScrapedAt : option jsstring;
  updatedAt : jsstring;
  notes : option jsstring;
  tags : option jsstring
}.

Definition UNICODE_FRACTIONS : list (char * jsstring) :=
  [ (188%N, str "1/4");    (* ¼ *)
    (189%N, str "1/2");    (* ½ *)
    (190%N, str "3/4");    (* ¾ *)
    (8528%N, str "1/7");   (* ⅐ *)
    (8529%N, str "1/9");   (* ⅑ *)
    (8530%N, str "1/10");  (* ⅒ *)
    (8531%N, str "1/3");   (* ⅓ *)
    (8532%N, str "2/3");   (* ⅔ *)
    (8533%N, str "1/5");   (* ⅕ *)
    (8534%N, str "2/5");   (* ⅖ *)
    (8535%N, str "3/5");   (* ⅗ *)
    (8536%N, str "4/5");   (* ⅘ *)
    (8537%N, str "1/6");   (* ⅙ *)
    (8538%N, str "5/6");   (* ⅚ *)
    (8539%N, str "1/8");   (* ⅛ *)
    (8540%N, str "3/8");   (* ⅜ *)
    (8541%N, str "5/8");   (* ⅝ *)
    (8542%N, str "7/8") ]. (* ⅞ *)

Fixpoint table_lookup (t : list (char * jsstring)) (c : char) : option jsstring :=
  match t with
  | [] => None
  | (k, v) :: t' => if char_eqb k c then Some v else table_lookup t' c
  end.

(** /[¼½¾⅐⅑⅒⅓⅔⅕⅖⅗⅘⅙⅚⅛⅜⅝⅞]/g *)
Definition fraction_glyph_re : regex :=
  RChar (COneOf (str "¼½¾⅐⅑⅒⅓⅔⅕⅖⅗⅘⅙⅚⅛⅜⅝⅞")).

(** /\s+/g *)
Definition spaces_re : regex := spaces1.

(** [text.replace(/\s+/g, ' ')] *)
Definition collapse_spaces (s : jsstring) : jsstring :=
  replace_all spaces_re (fun _ => str " ") s.

Definition normalizeFractions (text : jsstring) : jsstring :=
  collapse_spaces
    (replace_all fraction_glyph_re
       (fun m =>
          str " "
          ++ match m_0 m with
             | [c] => match table_lookup UNICODE_FRACTIONS c with
                      | Some v => v
                      | None => m_0 m
                      end
             | _ => m_0 m
             end
          ++ str " ")
       text).

(** Euclid's loop [while (y) { t = x % y; x = y; y = t }].  On binary64
    values the remainders are exact and strictly decreasing multiples of the
    smaller unit of the two arguments, so the loop runs fewer than [gcd_fuel]
    times. *)
Definition gcd_fuel : nat := 4400.

Fixpoint gcd_loop (fuel : nat) (x y : number) : number :=
  match fuel with
  | O => x
  | S fuel' =>
    if num_truthy y then gcd_loop fuel' y (num_rem x y) else x
  end.

Definition gcd (a b : number) : number :=
  let x := gcd_loop gcd_fuel (Math_abs a) (Math_abs b) in
  if num_truthy x then x else one.

(** /\.0+$/ *)
Definition trailing_point_zeros_re : regex :=
  RSeqs [RChar (CChar 46%N); RPlus (RChar (CChar 48%N)); REol].

(** /(\.\d*[1-9])0+$/ *)
Definition trailing_zeros_re : regex :=
  RSeqs [RGroup 1 (RSeqs [RChar (CChar 46%N); RStar (RChar CDigit);
                          RChar (CRange 49%N 57%N)]);
         RPlus (RChar (CChar 48%N)); REol].

Definition formatQuantity (value : number) : jsstring :=
  if negb (Number_isFinite value) then str ""
  else
    let roundedInt := Math_round value in
    if num_lt (Math_abs (num_sub value roundedInt)) lit_1e_9
    then String_of_number roundedInt
    else
      (* Prefer common cooking fractions (nearest 1/8) if it fits well. *)
      let eighth := num_div (Math_round (num_mul value eight)) eight in
      if num_lt (Math_abs (num_sub value eighth)) lit_0_02 then
        let whole := Math_floor (num_add eighth lit_1e_9) in
        let frac := num_sub eighth whole in
        let num0 := Math_round (num_mul frac eight) in
        let den0 := eight in
        if num_eq num0 zero then String_of_number whole
        else
          let g := gcd num0 den0 in
          let num := num_div num0 g in
          let den := num_div den0 g in
          if num_gt whole zero
          then String_of_number whole ++ str " " ++ String_of_number num
               ++ str "/" ++ String_of_number den
          else String_of_number num ++ str "/" ++ String_of_number den
      else
        (* Fall back to a trimmed decimal. *)
        replace_first trailing_zeros_re (group_or_empty 1)
          (replace_first trailing_point_zeros_re (fun _ => str "")
             (String_of_number
                (num_div (Math_round (num_mul value hundred)) hundred))).

(** /^(\d+)\s+(\d+)\s*\/\s*(\d+)\b/ *)
Definition mixed_re : regex :=
  RSeqs [RBol; RGroup 1 digits1; spaces1; RGroup 2 digits1; spaces0;
         RChar (CChar 47%N); spaces0; RGroup 3 digits1; RWordB].

(** /^(\d+)\s*\/\s*(\d+)\b/ *)
Definition frac_re : regex :=
  RSeqs [RBol; RGroup 1 digits1; spaces0; RChar (CChar 47%N); spaces0;
         RGroup 2 digits1; RWordB].

(** /^(\d+(?:\.\d+)?)/ *)
Definition dec_re : regex :=
  RSeqs [RBol; RGroup 1 (RSeq digits1 (ROpt (RSeq (RChar (CChar 46%N)) digits1)))].

(** The mixed-fraction attempt of [parseQuantityToken]. *)
Definition parse_mixed (s : jsstring) : option number :=
  match exec mixed_re s with
  | Some mixed =>
    let whole := Number (group_or_empty 1 mixed) in
    let num := Number (group_or_empty 2 mixed) in
    let den := Number (group_or_empty 3 mixed) in
    if Number_isFinite whole && Number_isFinite num && Number_isFinite den
       && num_neq den zero
    then Some (num_add whole (num_div num den))
    else None
  | None => None
  end.

(** The simple-fraction attempt. *)
Definition parse_frac (s : jsstring) : option number :=
  match exec frac_re s with
  | Some frac =>
    let num := Number (group_or_empty 1 frac) in
    let den := Number (group_or_empty 2 frac) in
    if Number_isFinite num && Number_isFinite den && num_neq den zero
    then Some (num_div num den)
    else None
  | None => None
  end.

(** The decimal attempt. *)
Definition parse_dec (s : jsstring) : option number :=
  match exec dec_re s with
  | Some dec =>
    let n := Number (group_or_empty 1 dec) in
    if Number_isFinite n then Some n else None
  | None => None
  end.

(** [null] is [None]. *)
Definition parseQuantityToken (token : jsstring) : option number :=
  let s := trim (normalizeFractions token) in
  match parse_mixed s with
  | Some v => Some v
  | None =>
    match parse_frac s with
    | Some v => Some v
    | None => parse_dec s
    end
  end.

(** The [qty] fragment, under the [i] flag of the pattern it is spliced into:
    (?:\d+\s+\d+\/\d+|\d+\/\d+|\d+(?:\.\d+)?) *)
Definition qty : regex :=
  RAlts [RSeqs [digits1; spaces1; digits1; RLitI (str "/"); digits1];
         RSeqs [digits1; RLitI (str "/"); digits1];
         RSeq digits1 (ROpt (RSeq (RLitI (str ".")) digits1))].

(** The pattern built with the flag [i] from the template
    ^ (\s* ) (qty) ( \s* (?:-|–|to) \s* (qty) )? ( .* ) $
    (written here with blanks between its parts), whose groups are:
    1 the leading blanks, 2 the first quantity, 3 the range part,
    4 the second quantity, 5 the rest of the line. *)
Definition scale_re : regex :=
  RSeqs [RBol; RGroup 1 spaces0; RGroup 2 qty;
         ROpt (RGroup 3 (RSeqs [spaces0;
                                RAlts [RLitI (str "-"); RLitI (str "–");
                                       RLitI (str "to")];
                                spaces0; RGroup 4 qty]));
         RGroup 5 (RStar (RChar CDot)); REol].

(** [x || d] on strings *)
Definition or_else (x d : jsstring) : jsstring :=
  match x with [] => d | _ :: _ => x end.

Definition scaleLeadingQuantity (line : jsstring) (multiplier : number)
    : jsstring :=
  match line with
  | [] => line
  | _ :: _ =>
    if negb (Number_isFinite multiplier) || num_eq multiplier one then line
    else
      let normalized := normalizeFractions line in
      match exec scale_re normalized with
      | None => line
      | Some m =>
        let prefix := group_or_empty 1 m in
        let a := group_or_empty 2 m in
        let b := group_or_empty 4 m in
        let suffix := collapse_spaces (group_or_empty 5 m) in
        match parseQuantityToken a with
        | None => line
        | Some aNum =>
          let aScaled := formatQuantity (num_mul aNum multiplier) in
          match b with
          | _ :: _ =>
            match parseQuantityToken b with
            | None => prefix ++ aScaled ++ suffix
            | Some bNum =>
              let bScaled := formatQuantity (num_mul bNum multiplier) in
              let sep :=
                or_else (trim (replace_string b (str "") (group_or_empty 3 m)))
                        (str "-") in
              trim (collapse_spaces
                      (prefix ++ aScaled ++ str " " ++ sep ++ str " "
                       ++ bScaled ++ suffix))
            end
          | [] => trim (collapse_spaces (prefix ++ aScaled ++ suffix))
          end
        end
      end
  end.

(** /(\d+\s+\d+\/\d+|\d+\/\d+|\d+(?:\.\d+)?)/g *)
Definition qtyRe : regex :=
  RGroup 1
    (RAlts [RSeqs [digits1; spaces1; digits1; RChar (CChar 47%N); digits1];
            RSeqs [digits1; RChar (CChar 47%N); digits1];
            RSeq digits1 (ROpt (RSeq (RChar (CChar 46%N)) digits1))]).

(** /^\d/ *)
Definition leading_digit_re : regex := RSeq RBol (RChar CDigit).

(** /\bservings?\b/i *)
Definition servings_word_re : regex :=
  RSeqs [RWordB; RLitI (str "serving"); ROpt (RLitI (str "s")); RWordB].

(** /servings?\b/i *)
Definition servings_re : regex :=
  RSeqs [RLitI (str "serving"); ROpt (RLitI (str "s")); RWordB].

(** /^\s*serves\b/i *)
Definition serves_re : regex :=
  RSeqs [RBol; spaces0; RLitI (str "serves"); RWordB].

Definition scaleServingsLabel (recipe : Recipe) (multiplier : number)
    : option jsstring :=
  let baseText :=
    trim (match servingsText recipe with Some t => t | None => str "" end) in
  let baseNum :=
    match servings recipe with
    | Some n => if Number_isFinite n then Some n else None
    | None => None
    end in
  match baseText, baseNum with
  | [], None => None
  | _ :: _, _ =>
    let normalized := normalizeFractions baseText in
    let '(replaced, _) :=
      replace_all_st qtyRe
        (fun m (count : nat) =>
           let raw := m_0 m in
           if Nat.leb 2 count then (raw, count)
           else match parseQuantityToken raw with
                | None => (raw, count)
                | Some n => (formatQuantity (num_mul n multiplier), S count)
                end)
        normalized O in
    let label := trim replaced in
    if test leading_digit_re label then
      let label := trim (replace_first servings_word_re (fun _ => str "") label) in
      Some (str "Serves " ++ label)
    else if test servings_re label && negb (test serves_re label) then
      let label := trim (replace_first servings_word_re (fun _ => str "") label) in
      Some (match label with
            | _ :: _ => str "Serves " ++ label
            | [] => str "Serves"
            end)
    else Some label
  | [], Some n =>
    Some (str "Serves " ++ formatQuantity (num_mul n multiplier))
  end.

End Web.

(* ===================================================================== *)
(** * The API: recipe extraction *)
(* ===================================================================== *)

(** Values of type [unknown]: what [JSON.parse] returns, and [undefined]. *)
#[local] Set Warnings "-register-all".
Inductive value :=
| VUndefined
| VNull
| VBool (b : bool)
| VNum (n : number)
| VStr (s : jsstring)
| VArr (items : list value)
| VObj (fields : list (jsstring * value)).

(** [!v] is [negb (truthy v)]. *)
Definition truthy (v : value) : bool :=
  match v with
  | VUndefined | VNull => false
  | VBool b => b
  | VNum n => num_truthy n
  | VStr s => match s with [] => false | _ :: _ => true end
  | VArr _ | VObj _ => true
  end.

(** [obj[key]]: the fields are in source order and a repeated key takes the
    value written last, as [JSON.parse] builds it. *)
Fixpoint prop (fields : list (jsstring * value)) (key : jsstring) : value :=
  match fields with
  | [] => VUndefined
  | (k, v) :: fields' =>
    match prop fields' key with
    | VUndefined => if jsstring_eqb k key then v else VUndefined
    | later => later
    end
  end.

(** [f(obj[key])], computed along the fields so that a recursive [f] stays
    structural; [d] is [f(undefined)]. *)
Definition prop_with {A : Type} (f : value -> A) (d : A) (key : jsstring)
    : list (jsstring * value) -> A :=
  fix go (fields : list (jsstring * value)) : A :=
    match fields with
    | [] => d
    | (k, v) :: fields' =>
      match prop fields' key with
      | VUndefined =>
        if jsstring_eqb k key
        then match v with VUndefined => d | _ => f v end
        else d
      | _ => go fields'
      end
    end.

(** [xs.flatMap(f)] *)
Definition flatMap {A B : Type} (f : A -> list B) : list A -> list B :=
  fix go (xs : list A) : list B :=
    match xs with
    | [] => []
    | x :: xs' => f x ++ go xs'
    end.

(** The first element [x] of [xs] with [f x] defined, as the loops
    [for (const x of xs) { const r = f(x); if (r) return r; }] compute it. *)
Definition first_some {A B : Type} (f : A -> option B) : list A -> option B :=
  fix go (xs : list A) : option B :=
    match xs with
    | [] => None
    | x :: xs' => match f x with Some r => Some r | None => go xs' end
    end.

(** What the code throws: an [Error] object with its message, or another
    value. *)
Inductive thrown :=
| ErrorObject (message : jsstring)
| OtherThrown.

Inductive result (A : Type) :=
| Ok (a : A)
| Throw (e : thrown).
Arguments Ok {A} a.
Arguments Throw {A} e.

Module Api.

Record ScrapedRecipe := {
  title : jsstring;
  description : option jsstring;
  imageUrl : option jsstring;
  servings : option number;
  servingsText : option jsstring;
  ingredients : option (list jsstring);
  instructions : option (list jsstring);
  sourceHost : option jsstring
}.

(** [new URL(...)]: the parts the extractor reads. *)
Record URL := {
  href : jsstring;
  hostname : jsstring
}.

(** What the extractor reads from the parsed page [$]. *)
Record Page := {
  (* $('script[type="application/ld+json"]').toArray().map((el) => $(el).text()) *)
  ld_json_scripts : list jsstring;
  (* $('meta[property="og:title"]').attr('content') *)
  meta_og_title : option jsstring;
  (* $('title').text() *)
  title_text : jsstring;
  (* $('meta[property="og:image:secure_url"]').attr('content') *)
  meta_og_image_secure_url : option jsstring;
  (* $('meta[property="og:image"]').attr('content') *)
  meta_og_image : option jsstring;
  (* $('meta[name="og:image"]').attr('content') *)
  meta_name_og_image : option jsstring;
  (* $('meta[name="twitter:image"]').attr('content') *)
  meta_name_twitter_image : option jsstring;
  (* $('meta[property="twitter:image"]').attr('content') *)
  meta_twitter_image : option jsstring;
  (* $('link[rel="image_src"]').attr('href') *)
  link_image_src : option jsstring
}.

(** The outcome of [await fetch(sourceUrl, ...)]: the promise rejects (no
    response at all), or it resolves to a response with its status and with
    what [await res.text()] gives when the body is read: the text, or the
    error the read rejects with (the connection is cut, the body cannot be
    decoded). *)
Inductive fetch_outcome :=
| fetch_rejected (e : thrown)
| fetch_response (status : Z) (text : result jsstring).

(** [res.ok]: the status is in the range 200-299. *)
Definition response_ok (status : Z) : bool :=
  (200 <=? status) && (status <=? 299).

(** The libraries and the network the extractor calls. *)
Record Env := {
  (* he.decode *)
  he_decode : jsstring -> jsstring;
  (* JSON.parse; [None] when it throws *)
  JSON_parse : jsstring -> option value;
  (* cheerio.load *)
  cheerio_load : jsstring -> Page;
  (* new URL(s); [None] when it throws *)
  URL_new : jsstring -> option URL;
  (* new URL(s, base).toString(); [None] when the constructor throws *)
  URL_resolve : jsstring -> URL -> option jsstring;
  (* fetch, with the fixed headers and redirect: 'follow' *)
  fetch : jsstring -> fetch_outcome
}.

Definition opt_value (o : option jsstring) : value :=
  match o with Some s => VStr s | None => VUndefined end.

Section Extractor.
Variable env : Env.

(** / /g *)
Definition nbsp_re : regex := RChar (CChar 160%N).

Definition normalizeText (v : jsstring) : jsstring :=
  trim (replace_all nbsp_re (fun _ => str " ")
          (replace_all spaces1 (fun _ => str " ") (he_decode env v))).

(** [xs.filter(Boolean)] on strings *)
Definition filter_nonempty (xs : list jsstring) : list jsstring :=
  filter (fun s => match s with [] => false | _ :: _ => true end) xs.

(** [undefined] is [None]. *)
Definition toStringArray (v : value) : option (list jsstring) :=
  match v with
  | VArr items =>
    let out :=
      filter_nonempty
        (map (fun x => match x with
                       | VStr s => normalizeText s
                       | _ => str ""   (* null, dropped by the filter *)
                       end) items) in
    match out with [] => None | _ :: _ => Some out end
  | VStr s =>
    let single := normalizeText s in
    match single with [] => None | _ :: _ => Some [single] end
  | _ => None
  end.

Fixpoint flattenJsonLd (json : value) : list value :=
  if negb (truthy json) then []
  else
    match json with
    | VArr items => flatMap flattenJsonLd items
    | VObj fields =>
      match prop fields (str "@graph") with
      | VArr _ =>
        prop_with
          (fun g => match g with
                    | VArr items => flatMap flattenJsonLd items
                    | _ => []
                    end)
          [] (str "@graph") fields
      | _ => [json]
      end
    | _ => []
    end.

(** [t.toLowerCase()] compared with ['recipe']: no code unit outside ASCII
    lower-cases to a letter of that word, so lower-casing the ASCII letters
    decides the comparison. *)
Definition lower_is (word : jsstring) (t : jsstring) : bool :=
  jsstring_eqb (map ascii_lower t) word.

Definition isRecipeType (typeValue : value) : bool :=
  match typeValue with
  | VStr t => lower_is (str "recipe") t
  | VArr items =>
    existsb (fun t => match t with
                      | VStr s => lower_is (str "recipe") s
                      | _ => false
                      end) items
  | _ => false
  end.

Definition normalizeUrl (raw : value) (base : URL) : option jsstring :=
  match raw with
  | VStr r =>
    let trimmed := trim r in
    match trimmed with
    | [] => None
    | _ :: _ =>
      (* Protocol-relative URLs are common in metadata. *)
      if startsWith (str "//") trimmed then Some (str "https:" ++ trimmed)
      else URL_resolve env trimmed base
    end
  | _ => None
  end.

(** A picked URL counts when it is a non-empty string. *)
Definition nonempty (o : option jsstring) : option jsstring :=
  match o with
  | Some (_ :: _) => o
  | _ => None
  end.

Fixpoint pickImageUrl (image : value) (base : URL) : option jsstring :=
  match image with
  | VStr _ => normalizeUrl image base
  | VArr items =>
    first_some (fun item => nonempty (pickImageUrl item base)) items
  | VObj fields =>
    (* JSON-LD commonly uses url or contentUrl; some sites use thumbnailUrl. *)
    match nonempty (normalizeUrl (prop fields (str "url")) base) with
    | Some u => Some u
    | None =>
      match nonempty (normalizeUrl (prop fields (str "contentUrl")) base) with
      | Some u => Some u
      | None => normalizeUrl (prop fields (str "thumbnailUrl")) base
      end
    end
  | _ => None
  end.

Definition pickMetaImageUrl (page : Page) (base : URL) : option jsstring :=
  let candidates :=
    [ meta_og_image_secure_url page;
      meta_og_image page;
      meta_name_og_image page;
      meta_name_twitter_image page;
      meta_twitter_image page;
      link_image_src page ] in
  first_some (fun c => nonempty (normalizeUrl (opt_value c) base)) candidates.

(** "\s*(?:\r?\n|\d+\.|•|•)\s*" (the two last alternatives are the same
    code unit) *)
Definition steps_re : regex :=
  RSeqs [spaces0;
         RAlts [RSeq (ROpt (RChar (CChar 13%N))) (RChar (CChar 10%N));
                RSeq digits1 (RChar (CChar 46%N));
                RLit (str "•");
                RChar (CChar 8226%N)];
         spaces0].

Fixpoint parseInstructions (v : value) : option (list jsstring) :=
  if negb (truthy v) then None
  else
    match v with
    | VStr s =>
      let text := normalizeText s in
      (* Some sites put all steps in one blob. *)
      let pieces := filter_nonempty (map normalizeText (regex_split steps_re text)) in
      match pieces with [] => Some [text] | _ :: _ => Some pieces end
    | VArr items =>
      let out :=
        flatMap
          (fun item =>
             match item with
             | VStr s =>
               let t := normalizeText s in
               match t with [] => [] | _ :: _ => [t] end
             | VObj fields =>
               match prop fields (str "text") with
               | VStr text =>
                 let t := normalizeText text in
                 match t with [] => [] | _ :: _ => [t] end
               | _ =>
                 (* Sections may contain itemListElement. *)
                 match prop_with parseInstructions None
                         (str "itemListElement") fields with
                 | Some nested => nested
                 | None => []
                 end
               end
             | _ => []
             end) items in
      match out with [] => None | _ :: _ => Some out end
    | _ => None
    end.

(** [normalizeFractions] of the extractor: the glyphs are rewritten, the
    blanks are not collapsed. *)
Definition normalizeFractions (text : jsstring) : jsstring :=
  replace_all Web.fraction_glyph_re
    (fun m =>
       str " "
       ++ match m_0 m with
          | [c] => match Web.table_lookup Web.UNICODE_FRACTIONS c with
                   | Some v => v
                   | None => m_0 m
                   end
          | _ => m_0 m
          end
       ++ str " ")
    text.

Fixpoint toFirstString (v : value) : option jsstring :=
  if negb (truthy v) then None
  else
    match v with
    | VStr s => Some s
    | VNum n => if Number_isFinite n then Some (String_of_number n) else None
    | VArr items => first_some (fun x => nonempty (toFirstString x)) items
    | _ => None
    end.

(** /(\d+)\s+(\d+)\s*\/\s*(\d+)/ *)
Definition first_mixed_re : regex :=
  RSeqs [RGroup 1 digits1; spaces1; RGroup 2 digits1; spaces0;
         RChar (CChar 47%N); spaces0; RGroup 3 digits1].

(** /(\d+)\s*\/\s*(\d+)/ *)
Definition first_frac_re : regex :=
  RSeqs [RGroup 1 digits1; spaces0; RChar (CChar 47%N); spaces0;
         RGroup 2 digits1].

(** /(\d+(?:\.\d+)?)/ *)
Definition first_dec_re : regex :=
  RGroup 1 (RSeq digits1 (ROpt (RSeq (RChar (CChar 46%N)) digits1))).

(** [undefined] is [None]. *)
Definition parseFirstNumber (text : jsstring) : option number :=
  let s := normalizeFractions text in
  (* Prefer mixed fractions first. *)
  let mixed :=
    match exec first_mixed_re s with
    | Some mixed =>
      let whole := Number (group_or_empty 1 mixed) in
      let num := Number (group_or_empty 2 mixed) in
      let den := Number (group_or_empty 3 mixed) in
      if Number_isFinite whole && Number_isFinite num && Number_isFinite den
         && num_neq den zero
      then Some (num_add whole (num_div num den))
      else None
    | None => None
    end in
  match mixed with
  | Some v => Some v
  | None =>
    let frac :=
      match exec first_frac_re s with
      | Some frac =>
        let num := Number (group_or_empty 1 frac) in
        let den := Number (group_or_empty 2 frac) in
        if Number_isFinite num && Number_isFinite den && num_neq den zero
        then Some (num_div num den)
        else None
      | None => None
      end in
    match frac with
    | Some v => Some v
    | None =>
      match exec first_dec_re s with
      | Some dec =>
        let n := Number (group_or_empty 1 dec) in
        if Number_isFinite n then Some n else None
      | None => None
      end
    end
  end.

(** The loop over the script texts: a text that [JSON.parse] rejects is
    skipped ([catch { /* ignore */ }]). *)
Fixpoint collect_nodes (scripts : list jsstring) : list value :=
  match scripts with
  | [] => []
  | raw :: scripts' =>
    match JSON_parse env raw with
    | Some parsed => flattenJsonLd parsed ++ collect_nodes scripts'
    | None => collect_nodes scripts'
    end
  end.

(** [typeof node === 'object' && node && isRecipeType(node['@type'])] *)
Definition is_recipe_node (node : value) : bool :=
  match node with
  | VObj fields => isRecipeType (prop fields (str "@type"))
  | VArr _ => false   (* an array has no '@type' property *)
  | _ => false
  end.

(** The texts of the linked-data scripts, trimmed, the empty ones dropped. *)
Definition script_texts (page : Page) : list jsstring :=
  filter_nonempty (map trim (ld_json_scripts page)).

(** [jsonNodes.find(...)] *)
Definition find_recipe_node (page : Page) : option value :=
  find is_recipe_node (collect_nodes (script_texts page)).

Definition or_else_title (t : jsstring) : jsstring :=
  match t with [] => str "Untitled recipe" | _ :: _ => t end.

(** [a || b || 'Untitled recipe'], normalized. *)
Definition titleFromHtml (page : Page) : jsstring :=
  normalizeText
    (match meta_og_title page with
     | Some (c :: t) => c :: t
     | _ => or_else_title (title_text page)
     end).

Definition string_prop (fields : list (jsstring * value)) (key : jsstring)
    : option jsstring :=
  match prop fields key with VStr s => Some s | _ => None end.

(** The part of [scrapeRecipe] after a successful fetch. *)
Definition extract (url : URL) (html : jsstring) : ScrapedRecipe :=
  let page := cheerio_load env html in
  let titleFromHtml := titleFromHtml page in
  match find_recipe_node page with
  | Some (VObj recipeNode) =>
    let title :=
      match string_prop recipeNode (str "name") with
      | Some n => normalizeText n
      | None => titleFromHtml
      end in
    let description :=
      option_map normalizeText (string_prop recipeNode (str "description")) in
    let servingsRaw :=
      match toFirstString (prop recipeNode (str "recipeYield")) with
      | Some s => Some s
      | None =>
        match toFirstString (prop recipeNode (str "yield")) with
        | Some s => Some s
        | None =>
          match toFirstString (prop recipeNode (str "recipeServings")) with
          | Some s => Some s
          | None => toFirstString (prop recipeNode (str "servings"))
          end
        end
      end in
    let servingsText :=
      match servingsRaw with
      | Some (c :: t) => Some (normalizeText (c :: t))
      | _ => None
      end in
    let servings :=
      match servingsText with
      | Some (c :: t) => parseFirstNumber (c :: t)
      | _ => None
      end in
    let ingredients := toStringArray (prop recipeNode (str "recipeIngredient")) in
    let instructions := parseInstructions (prop recipeNode (str "recipeInstructions")) in
    let imageUrl :=
      match pickImageUrl (prop recipeNode (str "image")) url with
      | Some u => Some u
      | None => pickMetaImageUrl page url
      end in
    {| title := title;
       description := description;
       imageUrl := imageUrl;
       servings := servings;
       servingsText := servingsText;
       ingredients := ingredients;
       instructions := instructions;
       sourceHost := Some (hostname url) |}
  | _ =>
    {| title := titleFromHtml;
       description := None;
       imageUrl := pickMetaImageUrl page url;
       servings := None;
       servingsText := None;
       ingredients := None;
       instructions := None;
       sourceHost := Some (hostname url) |}
  end.

Definition scrapeRecipe (sourceUrl : jsstring) : result ScrapedRecipe :=
  match URL_new env sourceUrl with
  | None => Throw (ErrorObject (str "Invalid URL"))
  | Some url =>
    match fetch env sourceUrl with
    | fetch_rejected e => Throw e
    | fetch_response status text =>
      if negb (response_ok status)
      then Throw (ErrorObject (str "Fetch failed (" ++ string_of_Z status
                               ++ str ")"))
      else
        match text with
        | Ok html => Ok (extract url html)
        | Throw e => Throw e
        end
    end
  end.

(** ** The earlier variant of the extractor (lib/scrape.ts)

    It has no serving fields, picks the image from the recipe node only and
    leaves the image out of the minimal result; the pattern that splits a
    text of instructions has, where the later variant has the bullet, the
    three code units that the bullet becomes when its UTF-8 bytes are read
    as Windows-1252. *)

(** The split pattern of lib/scrape.ts: blanks, then a line break, a number
    and a point, the three code units U+00E2 U+20AC U+00A2, or the bullet
    (written as the escape of U+2022), then blanks. *)
Definition steps_re_v1 : regex :=
  RSeqs [spaces0;
         RAlts [RSeq (ROpt (RChar (CChar 13%N))) (RChar (CChar 10%N));
                RSeq digits1 (RChar (CChar 46%N));
                RLit [226%N; 8364%N; 162%N];
                RChar (CChar 8226%N)];
         spaces0].

Fixpoint parseInstructions_v1 (v : value) : option (list jsstring) :=
  if negb (truthy v) then None
  else
    match v with
    | VStr s =>
      let text := normalizeText s in
      (* Some sites put all steps in one blob. *)
      let pieces :=
        filter_nonempty (map normalizeText (regex_split steps_re_v1 text)) in
      match pieces with [] => Some [text] | _ :: _ => Some pieces end
    | VArr items =>
      let out :=
        flatMap
          (fun item =>
             match item with
             | VStr s =>
               let t := normalizeText s in
               match t with [] => [] | _ :: _ => [t] end
             | VObj fields =>
               match prop fields (str "text") with
               | VStr text =>
                 let t := normalizeText text in
                 match t with [] => [] | _ :: _ => [t] end
               | _ =>
                 (* Sections may contain itemListElement. *)
                 match prop_with parseInstructions_v1 None
                         (str "itemListElement") fields with
                 | Some nested => nested
                 | None => []
                 end
               end
             | _ => []
             end) items in
      match out with [] => None | _ :: _ => Some out end
    | _ => None
    end.

Definition pickImageUrl_v1 (image : value) : option jsstring :=
  match image with
  | VStr s => Some s
  | VArr items =>
    match find (fun v => match v with VStr _ => true | _ => false end) items with
    | Some (VStr first) => Some first
    | _ => None
    end
  | VObj fields =>
    match prop fields (str "url") with
    | VStr url => Some url
    | _ => None
    end
  | _ => None
  end.

Definition extract_v1 (url : URL) (html : jsstring) : ScrapedRecipe :=
  let page := cheerio_load env html in
  let titleFromHtml := titleFromHtml page in
  match find_recipe_node page with
  | Some (VObj recipeNode) =>
    {| title :=
         match string_prop recipeNode (str "name") with
         | Some n => normalizeText n
         | None => titleFromHtml
         end;
       description :=
         option_map normalizeText (string_prop recipeNode (str "description"));
       imageUrl := pickImageUrl_v1 (prop recipeNode (str "image"));
       servings := None;
       servingsText := None;
       ingredients := toStringArray (prop recipeNode (str "recipeIngredient"));
       instructions :=
         parseInstructions_v1 (prop recipeNode (str "recipeInstructions"));
       sourceHost := Some (hostname url) |}
  | _ =>
    {| title := titleFromHtml;
       description := None;
       imageUrl := None;
       servings := None;
       servingsText := None;
       ingredients := None;
       instructions := None;
       sourceHost := Some (hostname url) |}
  end.

Definition scrapeRecipe_v1 (sourceUrl : jsstring) : result ScrapedRecipe :=
  match URL_new env sourceUrl with
  | None => Throw (ErrorObject (str "Invalid URL"))
  | Some url =>
    match fetch env sourceUrl with
    | fetch_rejected e => Throw e
    | fetch_response status text =>
      if negb (response_ok status)
      then Throw (ErrorObject (str "Fetch failed (" ++ string_of_Z status
                               ++ str ")"))
      else
        match text with
        | Ok html => Ok (extract_v1 url html)
        | Throw e => Throw e
        end
    end
  end.
End Extractor.

End Api.

(* ===================================================================== *)
(** * The API: the record store and the re-scrape route *)
(* ===================================================================== *)

Module Routes.
Import stdpp.base stdpp.gmap.

Inductive ScrapeStatus := pending | ok | error.

(** A row of the [Recipe] table; times are instants on some clock.  The
    table declares [updatedAt] as NOT NULL without a default, and no creation
    or update of the routes gives it a value: it is the column that the
    client of the store stamps itself, with the time of the write, whenever
    it creates or updates a row. *)
Record Recipe := {
  id : Z;
  createdAt : Z;
  updatedAt : Z;
  title : jsstring;
  sourceUrl : jsstring;
  sourceHost : option jsstring;
  imageUrl : option jsstring;
  description : option jsstring;
  ingredients : option (list jsstring);
  instructions : option (list jsstring);
  scrapeStatus : ScrapeStatus;
  scrapeError : option jsstring;
  lastScrapedAt : option Z;
  notes : option jsstring;
  tags : option (list jsstring)
}.

(** The [data] of [prisma.recipe.update]: a field left [undefined] ([None])
    is not written; a nullable column takes [null] as [Some None]. *)
Record RecipeData := {
  d_title : option jsstring;
  d_description : option (option jsstring);
  d_imageUrl : option (option jsstring);
  d_ingredients : option (option (list jsstring));
  d_instructions : option (option (list jsstring));
  d_sourceHost : option (option jsstring);
  d_scrapeStatus : option ScrapeStatus;
  d_scrapeError : option (option jsstring);
  d_lastScrapedAt : option (option Z)
}.

Definition no_data : RecipeData :=
  {| d_title := None; d_description := None; d_imageUrl := None;
     d_ingredients := None; d_instructions := None; d_sourceHost := None;
     d_scrapeStatus := None; d_scrapeError := None; d_lastScrapedAt := None |}.

Definition write {A : Type} (new : option A) (old : A) : A :=
  match new with Some v => v | None => old end.

(** The row after an update with the data [d], written at the time
    [stamp]. *)
Definition apply_data (stamp : Z) (d : RecipeData) (r : Recipe) : Recipe :=
  {| id := id r;
     createdAt := createdAt r;
     updatedAt := stamp;
     title := write (d_title d) (title r);
     sourceUrl := sourceUrl r;
     sourceHost := write (d_sourceHost d) (sourceHost r);
     imageUrl := write (d_imageUrl d) (imageUrl r);
     description := write (d_description d) (description r);
     ingredients := write (d_ingredients d) (ingredients r);
     instructions := write (d_instructions d) (instructions r);
     scrapeStatus := write (d_scrapeStatus d) (scrapeStatus r);
     scrapeError := write (d_scrapeError d) (scrapeError r);
     lastScrapedAt := write (d_lastScrapedAt d) (lastScrapedAt r);
     notes := notes r;
     tags := tags r |}.

(** The table, keyed by id. *)
Abbreviation table := (gmap Z Recipe).

(** [prisma.recipe.findUnique({ where: { id } })] *)
Definition findUnique (db : table) (key : Z) : option Recipe := db !! key.

(** [prisma.recipe.update({ where: { id }, data })], written at the time
    [stamp]: the new table and the updated row; [None] when no row has the
    id (the client throws). *)
Definition update (stamp : Z) (db : table) (key : Z) (d : RecipeData)
    : option (table * Recipe) :=
  match db !! key with
  | Some r => let r' := apply_data stamp d r in Some (<[key := r']> db, r')
  | None => None
  end.

(** What the handler answers. *)
Inductive response :=
| json_recipe (status : Z) (recipe : Recipe)
| http_error (status : Z) (message : jsstring).

(** A scraped field [x] written as [data: { f: x }]: [undefined] is left out. *)
Definition given {A : Type} (x : option A) : option (option A) :=
  match x with Some v => Some (Some v) | None => None end.

Section Rescrape.
Variable env : Api.Env.

(** [router.post('/:id/rescrape', ...)].  [id_param] is the parsed path
    parameter, [None] when it is not an integer; [now] is [new Date()];
    [written1] and [written2] are the times at which the store writes the
    first update (the pending status) and the second (the outcome). *)
Definition rescrape (written1 written2 now : Z) (id_param : option Z)
    (db : table) : table * response :=
  match id_param with
  | None => (db, http_error 400 (str "Invalid id"))
  | Some key =>
    match findUnique db key with
    | None => (db, http_error 404 (str "Recipe not found"))
    | Some recipe =>
      match update written1 db key
              {| d_title := None; d_description := None; d_imageUrl := None;
                 d_ingredients := None; d_instructions := None;
                 d_sourceHost := None;
                 d_scrapeStatus := Some pending;
                 d_scrapeError := Some None;
                 d_lastScrapedAt := None |} with
      | None => (db, http_error 500 (str "Internal Server Error"))
      | Some (db1, _) =>
        match Api.scrapeRecipe env (sourceUrl recipe) with
        | Ok scraped =>
          match update written2 db1 key
                  {| d_title := Some (Api.title scraped);
                     d_description := given (Api.description scraped);
                     d_imageUrl := given (Api.imageUrl scraped);
                     d_ingredients := given (Api.ingredients scraped);
                     d_instructions := given (Api.instructions scraped);
                     d_sourceHost := given (Api.sourceHost scraped);
                     d_scrapeStatus := Some ok;
                     d_scrapeError := Some None;
                     d_lastScrapedAt := Some (Some now) |} with
          | Some (db2, updated) => (db2, json_recipe 200 updated)
          | None => (db1, http_error 500 (str "Internal Server Error"))
          end
        | Throw err =>
          let message :=
            match err with
            | ErrorObject m => m
            | OtherThrown => str "Unknown scrape error"
            end in
          match update written2 db1 key
                  {| d_title := None; d_description := None;
                     d_imageUrl := None; d_ingredients := None;
                     d_instructions := None; d_sourceHost := None;
                     d_scrapeStatus := Some error;
                     d_scrapeError := Some (Some message);
                     d_lastScrapedAt := Some (Some now) |} with
          | Some (db2, updated) => (db2, json_recipe 200 updated)
          | None => (db1, http_error 500 (str "Internal Server Error"))
          end
        end
      end
    end
  end.
End Rescrape.

End Routes.

(* ===================================================================== *)
(** * The API: the other routes of the recipe router and the error handler *)
(* ===================================================================== *)

Module Handlers.
Import stdpp.base stdpp.gmap.
Import Routes.
Local Open Scope Z_scope.

(** What a handler throws: an [HttpError] of the routes, another [Error]
    (of the validation, of the store, of [URL]), or a value that is no
    [Error]. *)
Inductive failure :=
| HttpError (status : Z) (message : jsstring)
| OtherError (message : jsstring)
| NotAnError.

Inductive outcome (A : Type) :=
| Done (a : A)
| Failed (e : failure).
Arguments Done {A} a.
Arguments Failed {A} e.

(** The JSON bodies the routes answer with. *)
Inductive payload :=
| recipe_body (recipe : Recipe)              (* { recipe } *)
| ok_body                                    (* { ok: true } *)
| id_body (id : Z) (alreadyExists : bool)    (* { id } or { id, alreadyExists: true } *)
| error_body (error : jsstring).             (* { error } *)

Record reply := {
  status : Z;
  body : payload
}.

(** [errorHandler] (middleware/error-handler.ts) *)
Definition errorHandler (err : failure) : reply :=
  let status := match err with HttpError s _ => s | _ => 500 end in
  let message :=
    match err with
    | HttpError _ m | OtherError m => m
    | NotAnError => str "Unknown error"
    end in
  {| status := status; body := error_body message |}.

(** [asyncRoute(handler)] mounted before [errorHandler]: what the handler
    throws is passed to [next] and answered by the error handler. *)
Definition asyncRoute (h : table -> table * outcome reply) (db : table)
    : table * reply :=
  match h db with
  | (db', Done r) => (db', r)
  | (db', Failed e) => (db', errorHandler e)
  end.

(** ** Validation

    [z.string().trim().min(lo).max(hi)]: the checks run in the order they
    are written, on the trimmed text; the length is counted in code units. *)
Definition z_trimmed_string (lo hi : Z) (v : value) : option jsstring :=
  match v with
  | VStr s =>
    let t := trim s in
    let n := Z.of_nat (List.length t) in
    if (lo <=? n) && (n <=? hi) then Some t else None
  | _ => None
  end.

(** [z.array(item).max(n)] *)
Definition z_array {A : Type} (item : value -> option A) (n : Z) (v : value)
    : option (list A) :=
  match v with
  | VArr items =>
    let parsed :=
      fold_right (fun x acc =>
                    match item x, acc with
                    | Some a, Some l => Some (a :: l)
                    | _, _ => None
                    end) (Some []) items in
    if Z.of_nat (List.length items) <=? n then parsed else None
  | _ => None
  end.

(** [schema.optional()]: [undefined] passes as it is. *)
Definition z_optional {A : Type} (schema : value -> option A) (v : value)
    : option (option A) :=
  match v with
  | VUndefined => Some None
  | _ => option_map Some (schema v)
  end.

(** [schema.nullable()]: [null] passes as it is. *)
Definition z_nullable {A : Type} (schema : value -> option A) (v : value)
    : option (option A) :=
  match v with
  | VNull => Some None
  | _ => option_map Some (schema v)
  end.

(** The parsed body of an update: a key that is absent is [None]; [notes]
    and [tags] may be [null], which is [Some None]. *)
Record UpdateBody := {
  u_title : option jsstring;
  u_notes : option (option jsstring);
  u_tags : option (option (list jsstring))
}.

(** [updateSchema.parse(req.body)]; [None] when it throws. *)
Definition updateSchema_parse (req_body : value) : option UpdateBody :=
  match req_body with
  | VObj fields =>
    match z_optional (z_trimmed_string 1 180) (prop fields (str "title")),
          z_nullable (z_optional (z_trimmed_string 0 5000))
            (prop fields (str "notes")),
          z_nullable (z_optional (z_array (z_trimmed_string 1 32) 25))
            (prop fields (str "tags")) with
    | Some t, Some n, Some g =>
      Some {| u_title := t;
              (* .optional().nullable(): null is Some None, absent is None *)
              u_notes := match n with
                         | None => Some None
                         | Some None => None
                         | Some (Some x) => Some (Some x)
                         end;
              u_tags := match g with
                        | None => Some None
                        | Some None => None
                        | Some (Some x) => Some (Some x)
                        end |}
    | _, _, _ => None
    end
  | _ => None
  end.

(** ** The store *)

(** The [data] of the update route. *)
Record RecipeEdit := {
  e_title : option jsstring;
  e_notes : option (option jsstring);
  e_tags : option (option (list jsstring))
}.

(** The row after an update with the data [d], written at the time
    [stamp] (see [Routes.apply_data]). *)
Definition apply_edit (stamp : Z) (d : RecipeEdit) (r : Recipe) : Recipe :=
  {| id := id r;
     createdAt := createdAt r;
     updatedAt := stamp;
     title := write (e_title d) (title r);
     sourceUrl := sourceUrl r;
     sourceHost := sourceHost r;
     imageUrl := imageUrl r;
     description := description r;
     ingredients := ingredients r;
     instructions := instructions r;
     scrapeStatus := scrapeStatus r;
     scrapeError := scrapeError r;
     lastScrapedAt := lastScrapedAt r;
     notes := write (e_notes d) (notes r);
     tags := write (e_tags d) (tags r) |}.

(** [prisma.recipe.findUnique({ where: { sourceUrl } })]: the column has a
    unique index, so at most one row answers. *)
Definition findUnique_sourceUrl (db : table) (url : jsstring) : option Recipe :=
  find (fun r => jsstring_eqb (sourceUrl r) url) (map snd (map_to_list db)).

Section Router.
Variable env : Api.Env.
(** The message of the error the validation throws for a body. *)
Variable zod_message : value -> jsstring.
(** The message of the error the store throws when no row has the id. *)
Variable not_found_message : jsstring.
(** The id the sequence of the table gives to the next row. *)
Variable next_id : table -> Z.
(** The time at which the store writes an update. *)
Variable written : Z.

(** [router.get('/:id', ...)] *)
Definition get_by_id (id_param : option Z) (db : table)
    : table * outcome reply :=
  match id_param with
  | None => (db, Failed (HttpError 400 (str "Invalid id")))
  | Some key =>
    match findUnique db key with
    | None => (db, Failed (HttpError 404 (str "Recipe not found")))
    | Some recipe => (db, Done {| status := 200; body := recipe_body recipe |})
    end
  end.

(** [router.put('/:id', ...)] *)
Definition put_by_id (id_param : option Z) (req_body : value) (db : table)
    : table * outcome reply :=
  match id_param with
  | None => (db, Failed (HttpError 400 (str "Invalid id")))
  | Some key =>
    match updateSchema_parse req_body with
    | None => (db, Failed (OtherError (zod_message req_body)))
    | Some body =>
      let data :=
        {| e_title := match u_title body with
                      | Some (c :: t) => Some (c :: t)
                      | _ => None
                      end;
           e_notes := u_notes body;
           e_tags := u_tags body |} in
      match db !! key with
      | Some r =>
        let recipe := apply_edit written data r in
        (<[key := recipe]> db,
         Done {| status := 200; body := recipe_body recipe |})
      | None => (db, Failed (OtherError not_found_message))
      end
    end
  end.

(** [router.delete('/:id', ...)]: the store throws its error P2025 when no
    row has the id, which the handler turns into a 404. *)
Definition delete_by_id (id_param : option Z) (db : table)
    : table * outcome reply :=
  match id_param with
  | None => (db, Failed (HttpError 400 (str "Invalid id")))
  | Some key =>
    match db !! key with
    | Some _ => (delete key db, Done {| status := 200; body := ok_body |})
    | None => (db, Failed (HttpError 404 (str "Recipe not found")))
    end
  end.

(** The body of a creation, as [createSchema.parse] returned it. *)
Record CreateBody := {
  c_sourceUrl : jsstring;
  c_title : option jsstring
}.

(** [router.post('/', ...)] up to its answer; [now] is the time of the
    store when the row is created. *)
Definition post_recipe (now : Z) (body : CreateBody) (db : table)
    : table * outcome reply :=
  match findUnique_sourceUrl db (c_sourceUrl body) with
  | Some existing =>
    (db, Done {| status := 200; body := id_body (id existing) true |})
  | None =>
    match Api.URL_new env (c_sourceUrl body) with
    | None => (db, Failed (OtherError (str "Invalid URL")))
    | Some url =>
      let key := next_id db in
      let recipe :=
        {| id := key; createdAt := now; updatedAt := now;
           title := match c_title body with
                    | Some t => t
                    | None => Api.hostname url
                    end;
           sourceUrl := c_sourceUrl body;
           sourceHost := Some (Api.hostname url);
           imageUrl := None; description := None;
           ingredients := None; instructions := None;
           scrapeStatus := pending; scrapeError := None;
           lastScrapedAt := None; notes := None; tags := None |} in
      (<[key := recipe]> db,
       Done {| status := 201; body := id_body key false |})
    end
  end.

(** The scrape [post_recipe] starts and does not wait for; an update that
    throws in the [catch] block is lost with the promise. *)
Definition scrape_created (now : Z) (body : CreateBody) (key : Z) (db : table)
    : table :=
  let failed (message : jsstring) :=
    match update written db key
            {| d_title := None; d_description := None; d_imageUrl := None;
               d_ingredients := None; d_instructions := None;
               d_sourceHost := None;
               d_scrapeStatus := Some error;
               d_scrapeError := Some (Some message);
               d_lastScrapedAt := Some (Some now) |} with
    | Some (db', _) => db'
    | None => db
    end in
  match Api.scrapeRecipe env (c_sourceUrl body) with
  | Ok scraped =>
    match update written db key
            {| d_title := Some (match c_title body with
                                | Some t => t
                                | None => Api.title scraped
                                end);
               d_description := given (Api.description scraped);
               d_imageUrl := given (Api.imageUrl scraped);
               d_ingredients := given (Api.ingredients scraped);
               d_instructions := given (Api.instructions scraped);
               d_sourceHost := given (Api.sourceHost scraped);
               d_scrapeStatus := Some ok;
               d_scrapeError := Some None;
               d_lastScrapedAt := Some (Some now) |} with
    | Some (db', _) => db'
    | None => failed not_found_message
    end
  | Throw (ErrorObject m) => failed m
  | Throw OtherThrown => failed (str "Unknown scrape error")
  end.
End Router.

End Handlers.

(* ===================================================================== *)
(** * The web client: the lines of a recipe and the multiplier *)
(* ===================================================================== *)

Module WebView.

(** [xs.join(sep)] on strings *)
Fixpoint join (sep : jsstring) (xs : list jsstring) : jsstring :=
  match xs with
  | [] => []
  | [x] => x
  | x :: xs' => x ++ sep ++ join sep xs'
  end.

(** [String(v)] for a value read from JSON; [None] when it throws.  An
    array is its elements joined by commas, with nothing for [null] and
    [undefined]; an object is the text "[object Object]", unless it has a
    property [toString] of its own: that value is no function, and neither
    it nor [valueOf] gives a primitive, so the conversion throws a
    [TypeError]. *)
Fixpoint String_of_value (v : value) : option jsstring :=
  match v with
  | VUndefined => Some (str "undefined")
  | VNull => Some (str "null")
  | VBool true => Some (str "true")
  | VBool false => Some (str "false")
  | VNum n => Some (String_of_number n)
  | VStr s => Some s
  | VArr items =>
    option_map (join (str ","))
      ((fix each (l : list value) : option (list jsstring) :=
          match l with
          | [] => Some []
          | x :: l' =>
            match match x with
                  | VUndefined | VNull => Some []
                  | _ => String_of_value x
                  end with
            | Some s =>
              match each l' with
              | Some rest => Some (s :: rest)
              | None => None
              end
            | None => None
            end
          end) items)
  | VObj fields =>
    match prop fields (str "toString") with
    | VUndefined => Some (str "[object Object]")
    | _ => None
    end
  end.

(** [xs.map(String)]; [None] when a conversion throws. *)
Fixpoint map_String (xs : list value) : option (list jsstring) :=
  match xs with
  | [] => Some []
  | x :: xs' =>
    match String_of_value x with
    | Some s =>
      match map_String xs' with
      | Some rest => Some (s :: rest)
      | None => None
      end
    | None => None
    end
  end.

(** [s.split(sep)] for a separator of one code unit. *)
Fixpoint split_char (sep : char) (s : jsstring) : list jsstring :=
  match s with
  | [] => [[]]
  | c :: s' =>
    if char_eqb c sep then [] :: split_char sep s'
    else
      match split_char sep s' with
      | piece :: rest => (c :: piece) :: rest
      | [] => [[c]]
      end
  end.

(** [xs.filter(Boolean)] on strings *)
Definition filter_Boolean (xs : list jsstring) : list jsstring :=
  filter (fun s => match s with [] => false | _ :: _ => true end) xs.

(** /\r\n/g *)
Definition crlf_re : regex := RLit [13%N; 10%N].

(** [None] when [String] throws. *)
Definition normalizeLines (value : value) : option (list jsstring) :=
  if negb (truthy value) then Some []
  else
    match value with
    | VArr items =>
      match map_String items with
      | Some texts => Some (filter_Boolean (map trim texts))
      | None => None
      end
    | _ =>
      match String_of_value value with
      | Some text =>
        let s := trim (replace_all crlf_re (fun _ => [10%N]) text) in
        match s with
        | [] => Some []
        | _ :: _ => Some (filter_Boolean (map trim (split_char 10%N s)))
        end
      | None => None
      end
    end.

(** The pattern  ^ \s* (?: step \s* )? \d+ \s* [ \) . \: - ] \s*  with the
    flag [i], written here with blanks between its parts. *)
Definition step_number_re : regex :=
  RSeqs [RBol; spaces0; ROpt (RSeq (RLitI (str "step")) spaces0); digits1;
         spaces0; RChar (COneOf (str ").:-")); spaces0].

Definition stripLeadingStepNumber (s : jsstring) : jsstring :=
  (* Avoid "1. 1. Step" when the source already numbers each line. *)
  trim (replace_first step_number_re (fun _ => str "") s).

(** The steps [renderInstructions] lists; with none it shows
    "No instructions extracted yet." *)
Definition instruction_steps (instructions : value)
    : option (list jsstring) :=
  match normalizeLines instructions with
  | Some lines => Some (filter_Boolean (map stripLeadingStepNumber lines))
  | None => None
  end.

(** The labels [renderIngredients] lists for the ingredients of a recipe
    and its multiplier; with no line it shows "No ingredients extracted
    yet."; [None] when [String] throws. *)
Definition ingredient_labels (ingredients : value) (multiplier : number)
    : option (list jsstring) :=
  match normalizeLines ingredients with
  | Some items =>
    Some (map (fun raw =>
                 if num_neq multiplier one
                 then Web.scaleLeadingQuantity raw multiplier
                 else raw) items)
  | None => None
  end.

(** The body [onSaveEdits] sends with [updateRecipe]: the patch
    [{ title: editTitle.trim() || undefined, notes: editNotes.trim() ?
    editNotes : null }] as [JSON.stringify] writes it, which leaves out a
    title that is [undefined]. *)
Definition onSaveEdits_body (editTitle editNotes : jsstring) : value :=
  VObj (match trim editTitle with
        | [] => []
        | c :: t => [(str "title", VStr (c :: t))]
        end
        ++ [(str "notes",
             match trim editNotes with
             | [] => VNull
             | _ :: _ => VStr editNotes
             end)]).

(** ** The multiplier *)

Definition is_zero_of (s : bool) (x : number) : bool :=
  match x with
  | S754_zero s' => Bool.eqb s s'
  | _ => false
  end.

(** [Math.max(x, y)]: [NaN] when an argument is; the positive zero is
    larger than the negative one. *)
Definition Math_max (x y : number) : number :=
  match x, y with
  | S754_nan, _ | _, S754_nan => NaN
  | _, _ =>
    if num_gt y x || (is_zero_of false y && is_zero_of true x) then y else x
  end.

(** [Math.min(x, y)] *)
Definition Math_min (x y : number) : number :=
  match x, y with
  | S754_nan, _ | _, S754_nan => NaN
  | _, _ =>
    if num_lt y x || (is_zero_of true y && is_zero_of false x) then y else x
  end.

(** The literals [0.1] and [10]. *)
Definition lit_0_1 : number := round_ratio 1 10.
Definition ten : number := num_of_Z 10.

End WebView.

Module Multipliers.
Import stdpp.base stdpp.gmap.
Import WebView.

(** [multiplierByRecipeId]: the multiplier chosen for a recipe, by id. *)
Abbreviation multipliers := (gmap Z number).

(** [multiplierByRecipeId[recipe.id] ?? 1] *)
Definition multiplier_of (recipe_id : Z) (m : multipliers) : number :=
  match m !! recipe_id with
  | Some x => x
  | None => one
  end.

(** The [onChange] of the multiplier input, for the number [next] that
    [Number(e.target.value)] gave. *)
Definition onChange_multiplier (recipe_id : Z) (next : number)
    (prev : multipliers) : multipliers :=
  if negb (Number_isFinite next) then prev
  else
    let clamped := Math_min ten (Math_max lit_0_1 next) in
    <[recipe_id := clamped]> prev.

End Multipliers.

(* ===================================================================== *)
(** * Facts about the matcher *)
(* ===================================================================== *)

(** One way the pattern [r] matches between two positions, with the
    captures before and after: the declarative reading of a pattern, without
    the priorities of the backtracking search. *)
Inductive Matches : regex -> option char -> jsstring -> captures ->
                    option char -> jsstring -> captures -> Prop :=
| M_Empty p s cs : Matches REmpty p s cs p s cs
| M_Char cl c p s cs :
    cclass_matches cl c = true ->
    Matches (RChar cl) p (c :: s) cs (Some c) s cs
| M_Seq r1 r2 p s cs p1 s1 cs1 p2 s2 cs2 :
    Matches r1 p s cs p1 s1 cs1 ->
    Matches r2 p1 s1 cs1 p2 s2 cs2 ->
    Matches (RSeq r1 r2) p s cs p2 s2 cs2
| M_AltL r1 r2 p s cs p1 s1 cs1 :
    Matches r1 p s cs p1 s1 cs1 ->
    Matches (RAlt r1 r2) p s cs p1 s1 cs1
| M_AltR r1 r2 p s cs p1 s1 cs1 :
    Matches r2 p s cs p1 s1 cs1 ->
    Matches (RAlt r1 r2) p s cs p1 s1 cs1
| M_StarStop r p s cs : Matches (RStar r) p s cs p s cs
| M_StarStep r p s cs p1 s1 cs1 p2 s2 cs2 :
    Matches r p s cs p1 s1 cs1 ->
    (List.length s1 < List.length s)%nat ->
    Matches (RStar r) p1 s1 cs1 p2 s2 cs2 ->
    Matches (RStar r) p s cs p2 s2 cs2
| M_Group n r p s cs p1 s1 cs1 :
    Matches r p s cs p1 s1 cs1 ->
    Matches (RGroup n r) p s cs p1 s1
            ((n, firstn (List.length s - List.length s1) s) :: cs1)
| M_Bol s cs : Matches RBol None s cs None s cs
| M_Eol p cs : Matches REol p [] cs p [] cs
| M_WordB p s cs :
    at_word_boundary p s = true ->
    Matches RWordB p s cs p s cs.

Section MatcherSound.
Context {R : Type}.

(** What [rmatch r] promises about the continuation it was given. *)
Definition sound_for (r : regex)
    (f : option char -> jsstring -> captures -> @cont R -> option R) : Prop :=
  forall p s cs k v,
    f p s cs k = Some v ->
    exists p' s' cs', Matches r p s cs p' s' cs' /\ k p' s' cs' = Some v.

Lemma star_loop_sound (r : regex) body :
  sound_for r body ->
  forall fuel, sound_for (RStar r) (star_loop body fuel).
Proof.
  intros Hbody fuel.
  induction fuel as [|fuel IH]; intros p s cs k v H; simpl in H.
  - discriminate.
  - destruct (body p s cs _) as [w|] eqn:Hb.
    + injection H as <-.
      apply Hbody in Hb.
      destruct Hb as (p1 & s1 & cs1 & Hm & Hk).
      destruct (Nat.ltb (List.length s1) (List.length s)) eqn:Hlt;
        [|discriminate].
      apply IH in Hk.
      destruct Hk as (p2 & s2 & cs2 & Hm2 & Hk2).
      exists p2, s2, cs2. split; [|exact Hk2].
      eapply M_StarStep; eauto.
      now apply Nat.ltb_lt.
    + exists p, s, cs. split; [constructor | exact H].
Qed.

(** Soundness of the backtracking matcher: whatever it returns comes from
    the continuation run at the end of a match of the pattern. *)
Lemma rmatch_sound (r : regex) : sound_for r (rmatch r).
Proof.
  induction r; intros p s cs k v H; simpl in H.
  - exists p, s, cs. split; [constructor | exact H].
  - destruct s as [|c s']; [discriminate|].
    destruct (cclass_matches cl c) eqn:Hc; [|discriminate].
    exists (Some c), s', cs. split; [now constructor | exact H].
  - apply IHr1 in H. destruct H as (p1 & s1 & cs1 & Hm1 & H).
    apply IHr2 in H. destruct H as (p2 & s2 & cs2 & Hm2 & H).
    exists p2, s2, cs2. split; [econstructor; eauto | exact H].
  - destruct (rmatch r1 p s cs k) as [w|] eqn:H1.
    + injection H as <-. apply IHr1 in H1.
      destruct H1 as (p1 & s1 & cs1 & Hm & Hk).
      exists p1, s1, cs1. split; [now apply M_AltL | exact Hk].
    + apply IHr2 in H. destruct H as (p1 & s1 & cs1 & Hm & Hk).
      exists p1, s1, cs1. split; [now apply M_AltR | exact Hk].
  - exact (star_loop_sound r _ IHr (S (List.length s)) p s cs k v H).
  - apply IHr in H. destruct H as (p1 & s1 & cs1 & Hm & Hk).
    exists p1, s1, ((n, firstn (List.length s - List.length s1) s) :: cs1).
    split; [apply M_Group; exact Hm | exact Hk].
  - destruct p; [discriminate|].
    exists None, s, cs. split; [constructor | exact H].
  - destruct s; [|discriminate].
    exists p, [], cs. split; [constructor | exact H].
  - destruct (at_word_boundary p s) eqn:Hb; [|discriminate].
    exists p, s, cs. split; [now constructor | exact H].
Qed.
End MatcherSound.

(** A match consumes a prefix of the input. *)
Lemma Matches_prefix r p s cs p' s' cs' :
  Matches r p s cs p' s' cs' -> exists t, s = t ++ s'.
Proof.
  induction 1.
  - now exists [].
  - now exists [c].
  - destruct IHMatches1 as [t1 ->]. destruct IHMatches2 as [t2 ->].
    exists (t1 ++ t2). now rewrite app_assoc.
  - assumption.
  - assumption.
  - now exists [].
  - destruct IHMatches1 as [t1 ->]. destruct IHMatches2 as [t2 ->].
    exists (t1 ++ t2). now rewrite app_assoc.
  - assumption.
  - now exists [].
  - now exists [].
  - now exists [].
Qed.

Lemma firstn_consumed (t s' : jsstring) :
  firstn (List.length (t ++ s') - List.length s') (t ++ s') = t.
Proof.
  rewrite length_app, Nat.add_sub.
  rewrite firstn_app, Nat.sub_diag, firstn_all. simpl. apply app_nil_r.
Qed.

(** A pattern anchored with [^] matches at the start of the input or
    nowhere. *)
Lemma exec_from_anchored r c rbefore s :
  exec_from (RSeq RBol r) (c :: rbefore) s = None.
Proof.
  revert c rbefore.
  induction s as [|d s IH]; intros c rbefore; simpl; unfold match_here; simpl;
    [reflexivity | apply IH].
Qed.

Lemma exec_anchored r s :
  exec (RSeq RBol r) s = match_here (RSeq RBol r) [] None s.
Proof.
  unfold exec. destruct s as [|c s]; simpl.
  - now destruct (match_here _ _ _ _).
  - destruct (match_here _ _ _ _); [reflexivity|].
    apply exec_from_anchored.
Qed.

Lemma match_here_sound r before prev s m :
  match_here r before prev s = Some m ->
  m_before m = before /\
  s = m_0 m ++ m_after m /\
  exists p', Matches r prev s [] p' (m_after m) (m_groups m).
Proof.
  unfold match_here. intros H. apply rmatch_sound in H.
  destruct H as (p' & s' & cs' & HM & Hk). injection Hk as <-. simpl.
  destruct (Matches_prefix _ _ _ _ _ _ _ HM) as [t Ht].
  split; [reflexivity|]. split.
  - subst s. now rewrite firstn_consumed.
  - now exists p'.
Qed.

(** The result of [exec] is a match of the pattern: the input splits into
    the text before, the matched text and the text after, and the captures
    are those of one way of matching. *)
Lemma exec_from_sound r rbefore s m :
  exec_from r rbefore s = Some m ->
  exists s0 p,
    rev rbefore ++ s = m_before m ++ s0 /\
    s0 = m_0 m ++ m_after m /\
    exists p', Matches r p s0 [] p' (m_after m) (m_groups m).
Proof.
  revert rbefore.
  induction s as [|c s IH]; intros rbefore H; simpl in H.
  - destruct (match_here r (rev rbefore) (hd_error rbefore) []) as [w|] eqn:Hm;
      [|discriminate].
    injection H as ->. apply match_here_sound in Hm.
    destruct Hm as (Hb & Hs & HM).
    exists [], (hd_error rbefore). now rewrite Hb.
  - destruct (match_here r (rev rbefore) (hd_error rbefore) (c :: s)) as [w|] eqn:Hm.
    + injection H as ->. apply match_here_sound in Hm.
      destruct Hm as (Hb & Hs & HM).
      exists (c :: s), (hd_error rbefore). now rewrite Hb.
    + apply IH in H. destruct H as (s0 & p & H1 & H2 & H3).
      exists s0, p. split; [|now split].
      rewrite <- H1. simpl. now rewrite <- app_assoc.
Qed.

(* ===================================================================== *)
(** * The quantity parser, formatter and scaler *)
(* ===================================================================== *)

Definition two : number := num_of_Z 2.
Definition three : number := num_of_Z 3.

(** [exactly x n d]: the number [x] is finite and its value is the rational
    [n / d], with no rounding. *)
Definition exactly (x : number) (n d : Z) : bool :=
  match x with
  | S754_zero _ => n =? 0
  | S754_finite s m e =>
    cond_Zopp s (Zpos m) * 2 ^ Z.max e 0 * d =? n * 2 ^ Z.max (- e) 0
  | S754_infinity _ | S754_nan => false
  end.

(** The first code unit of a text is a decimal digit. *)
Definition starts_with_digit (s : jsstring) : bool :=
  match s with
  | c :: _ => is_digit c
  | [] => false
  end.

Section WebFacts.
Import Web.

(** ** Greedy repetition of a character class *)

(** The code unit before the position reached after reading [w]. *)
Definition prev_after (p : option char) (w : jsstring) : option char :=
  match rev w with
  | c :: _ => Some c
  | [] => p
  end.

Lemma prev_after_cons p c w : prev_after p (c :: w) = prev_after (Some c) w.
Proof.
  unfold prev_after. simpl.
  destruct (rev w) as [|d r] eqn:E; reflexivity.
Qed.

(** The first code unit of a text is in the class. *)
Definition starts_with (cl : cclass) (s : jsstring) : bool :=
  match s with
  | c :: _ => cclass_matches cl c
  | [] => false
  end.

Lemma rmatch_char {R : Type} cl p c s cs (k : @cont R) :
  rmatch (RChar cl) p (c :: s) cs k
  = if cclass_matches cl c then k (Some c) s cs else None.
Proof. reflexivity. Qed.

Lemma rmatch_seq {R : Type} r1 r2 p s cs (k : @cont R) :
  rmatch (RSeq r1 r2) p s cs k
  = rmatch r1 p s cs (fun p' s' cs' => rmatch r2 p' s' cs' k).
Proof. reflexivity. Qed.

Lemma rmatch_star {R : Type} r p s cs (k : @cont R) :
  rmatch (RStar r) p s cs k
  = star_loop (rmatch r) (S (List.length s)) p s cs k.
Proof. reflexivity. Qed.

(** [cl*] reads the longest run of the class when the continuation accepts
    what follows it, and the fuel of the loop is not exhausted on the way. *)
Lemma star_class_greedy {R : Type} cl (w rest : jsstring) :
  forall fuel p cs (k : @cont R) v,
    forallb (cclass_matches cl) w = true ->
    starts_with cl rest = false ->
    (List.length (w ++ rest) < fuel)%nat ->
    k (prev_after p w) rest cs = Some v ->
    star_loop (rmatch (RChar cl)) fuel p (w ++ rest) cs k = Some v.
Proof.
  induction w as [|c w IH]; intros fuel p cs k v Hw Hrest Hfuel Hk.
  - destruct fuel as [|fuel]; [simpl in Hfuel; lia|].
    simpl. destruct rest as [|d rest]; simpl; [exact Hk|].
    simpl in Hrest. rewrite Hrest. exact Hk.
  - destruct fuel as [|fuel]; [simpl in Hfuel; lia|].
    simpl in Hw. apply andb_prop in Hw. destruct Hw as [Hc Hw].
    cbn [star_loop app]. rewrite rmatch_char, Hc.
    assert (Hlt : (List.length (w ++ rest) <? List.length (c :: w ++ rest))%nat
                  = true) by (apply Nat.ltb_lt; simpl; lia).
    rewrite Hlt.
    rewrite (IH fuel (Some c) cs k v Hw Hrest); [reflexivity| |].
    + simpl in Hfuel. lia.
    + now rewrite <- (prev_after_cons p).
Qed.

(** Every repetition in the patterns of the sources is over a character
    class; for those, the loop gives the same result with any fuel above the
    length of the rest, so the fuel [S (length s)] that [rmatch] passes is
    never exhausted. *)
Lemma star_class_fuel {R : Type} cl (s : jsstring) :
  forall fuel1 fuel2 p cs (k : @cont R),
    (List.length s < fuel1)%nat -> (List.length s < fuel2)%nat ->
    star_loop (rmatch (RChar cl)) fuel1 p s cs k
    = star_loop (rmatch (RChar cl)) fuel2 p s cs k.
Proof.
  induction s as [|c s IH]; intros fuel1 fuel2 p cs k H1 H2;
    (destruct fuel1 as [|fuel1]; [simpl in H1; lia|]);
    (destruct fuel2 as [|fuel2]; [simpl in H2; lia|]).
  - reflexivity.
  - cbn [star_loop]. rewrite !rmatch_char.
    destruct (cclass_matches cl c); [|reflexivity].
    assert (Hlt : (List.length s <? List.length (c :: s))%nat = true)
      by (apply Nat.ltb_lt; simpl; lia).
    rewrite Hlt.
    rewrite (IH fuel1 fuel2) by (simpl in H1, H2; lia).
    reflexivity.
Qed.

Lemma match_here_plus_class cl before p c w rest :
  cclass_matches cl c = true ->
  forallb (cclass_matches cl) w = true ->
  starts_with cl rest = false ->
  match_here (RPlus (RChar cl)) before p ((c :: w) ++ rest)
  = Some {| m_before := before; m_0 := c :: w; m_groups := [];
            m_after := rest |}.
Proof.
  intros Hc Hw Hrest. unfold match_here, RPlus.
  rewrite rmatch_seq. cbn [app]. rewrite rmatch_char, Hc, rmatch_star.
  erewrite star_class_greedy; [reflexivity|exact Hw|exact Hrest|lia|].
  f_equal. f_equal.
  change (c :: w ++ rest) with ((c :: w) ++ rest).
  apply firstn_consumed.
Qed.

Lemma match_here_plus_class_none cl before p s :
  starts_with cl s = false ->
  match_here (RPlus (RChar cl)) before p s = None.
Proof.
  intros H. unfold match_here, RPlus. rewrite rmatch_seq.
  destruct s as [|c s]; [reflexivity|]. simpl in H.
  now rewrite rmatch_char, H.
Qed.

(** A text splits into its longest leading run of a class and the rest. *)
Lemma split_run cl (s : jsstring) :
  exists w rest, s = w ++ rest /\ forallb (cclass_matches cl) w = true /\
                 starts_with cl rest = false.
Proof.
  induction s as [|c s (w & rest & -> & Hw & Hr)].
  - now exists [], [].
  - destruct (cclass_matches cl c) eqn:Hc.
    + exists (c :: w), rest. simpl. now rewrite Hc, Hw.
    + exists [], (c :: w ++ rest). simpl. now rewrite Hc.
Qed.

(** ** Collapsing runs of blanks *)

(** Every run of blanks becomes one space; [in_run] tells that the previous
    code unit was a blank. *)
Fixpoint collapse_runs (in_run : bool) (s : jsstring) : jsstring :=
  match s with
  | [] => []
  | c :: s' =>
    if is_space c
    then if in_run then collapse_runs true s'
         else 32%N :: collapse_runs true s'
    else c :: collapse_runs false s'
  end.

Lemma collapse_runs_skip w rest :
  forallb is_space w = true -> starts_with CSpace rest = false ->
  collapse_runs true (w ++ rest) = collapse_runs false rest.
Proof.
  intros Hw Hr. induction w as [|c w IH]; simpl.
  - destruct rest as [|d rest]; [reflexivity|]. simpl in Hr |- *.
    now rewrite Hr.
  - simpl in Hw. apply andb_prop in Hw. destruct Hw as [-> Hw]. auto.
Qed.

Lemma replace_all_loop_spaces fuel :
  forall prev s,
    (List.length s < fuel)%nat ->
    replace_all_loop fuel spaces_re (fun _ (_ : unit) => (str " ", tt))
      prev s tt
    = (collapse_runs false s, tt).
Proof.
  induction fuel as [|fuel IH]; intros prev s Hlen; [lia|].
  destruct s as [|c s].
  - reflexivity.
  - cbn [replace_all_loop]. unfold spaces_re, spaces1.
    destruct (is_space c) eqn:Hc.
    + destruct (split_run CSpace s) as (w & rest & -> & Hw & Hr).
      change (c :: w ++ rest) with ((c :: w) ++ rest).
      rewrite match_here_plus_class by assumption.
      cbn [m_0 m_after].
      rewrite IH.
      * cbn [app collapse_runs]. rewrite Hc.
        now rewrite collapse_runs_skip.
      * simpl in Hlen. rewrite length_app in Hlen. lia.
    + rewrite match_here_plus_class_none by (simpl; exact Hc).
      rewrite IH by (simpl in Hlen; lia).
      simpl. now rewrite Hc.
Qed.

(** [text.replace(/\s+/g, ' ')] is the collapse of the runs of blanks. *)
Lemma collapse_spaces_runs s : collapse_spaces s = collapse_runs false s.
Proof.
  unfold collapse_spaces, replace_all, replace_all_st.
  now rewrite replace_all_loop_spaces by lia.
Qed.

(** ** Texts with normalized blanks *)

Definition starts_blank (s : jsstring) : bool := starts_with CSpace s.

Definition ends_blank (s : jsstring) : bool := starts_blank (rev s).

(** Every blank is a space and is not followed by a blank. *)
Fixpoint single_spaced (s : jsstring) : bool :=
  match s with
  | [] => true
  | c :: s' =>
    (if is_space c then (c =? 32)%N && negb (starts_blank s') else true)
    && single_spaced s'
  end.

(** Every run of blanks is a single space, and the text neither starts nor
    ends with a blank. *)
Definition blanks_normalized (s : jsstring) : bool :=
  single_spaced s && negb (starts_blank s) && negb (ends_blank s).

Lemma collapse_runs_single_spaced s :
  forall b,
    single_spaced (collapse_runs b s) = true /\
    (b = true -> starts_blank (collapse_runs b s) = false).
Proof.
  induction s as [|c s IH]; intros b; simpl; [now split|].
  destruct (is_space c) eqn:Hc.
  - destruct b.
    + apply IH.
    + destruct (IH true) as [H1 H2]. split; [|discriminate].
      simpl. rewrite H1, H2 by reflexivity. reflexivity.
  - split.
    + simpl. rewrite Hc. apply IH.
    + intros _. simpl. exact Hc.
Qed.

Lemma single_spaced_suffix a b :
  single_spaced (a ++ b) = true -> single_spaced b = true.
Proof.
  induction a as [|c a IH]; simpl; [auto|].
  intros H. apply andb_prop in H. destruct H as [_ H]. auto.
Qed.

Lemma single_spaced_prefix a b :
  single_spaced (a ++ b) = true -> single_spaced a = true.
Proof.
  induction a as [|c a IH]; simpl; [auto|].
  intros H. apply andb_prop in H. destruct H as [Hc H].
  rewrite (IH H), andb_true_r.
  destruct (is_space c); [|reflexivity].
  apply andb_prop in Hc. destruct Hc as [-> Hc]. simpl.
  destruct a; [reflexivity|exact Hc].
Qed.

Lemma drop_while_suffix p s : exists a, s = a ++ drop_while p s.
Proof.
  induction s as [|c s [a IH]]; simpl.
  - now exists [].
  - destruct (p c).
    + exists (c :: a). simpl. now rewrite <- IH.
    + now exists [].
Qed.

Lemma drop_while_starts s :
  starts_blank (drop_while is_space s) = false.
Proof.
  induction s as [|c s IH]; simpl; [reflexivity|].
  destruct (is_space c) eqn:Hc; [exact IH|]. simpl. exact Hc.
Qed.

Lemma trimEnd_prefix s : exists x, s = trimEnd s ++ x.
Proof.
  unfold trimEnd.
  destruct (drop_while_suffix is_space (rev s)) as [a Ha].
  exists (rev a).
  rewrite <- rev_app_distr, <- Ha. now rewrite rev_involutive.
Qed.

(** A trimmed text has normalized blanks when its blanks were single. *)
Lemma trim_normalized s :
  single_spaced s = true -> blanks_normalized (trim s) = true.
Proof.
  intros Hs. unfold blanks_normalized, trim.
  destruct (drop_while_suffix is_space s) as [a Ha].
  fold (trimStart s) in Ha.
  destruct (trimEnd_prefix (trimStart s)) as [x Hx].
  assert (H1 : single_spaced (trimEnd (trimStart s)) = true).
  { apply (single_spaced_prefix _ x). rewrite <- Hx.
    apply (single_spaced_suffix a). now rewrite <- Ha. }
  assert (H2 : starts_blank (trimEnd (trimStart s)) = false).
  { pose proof (drop_while_starts s) as Hd. fold (trimStart s) in Hd.
    rewrite Hx in Hd.
    destruct (trimEnd (trimStart s)); [reflexivity|exact Hd]. }
  assert (H3 : ends_blank (trimEnd (trimStart s)) = false).
  { unfold ends_blank, trimEnd. rewrite rev_involutive.
    apply drop_while_starts. }
  now rewrite H1, H2, H3.
Qed.

(** [text.replace(/\s+/g, ' ').trim()] has normalized blanks. *)
Lemma trim_collapse_normalized s :
  blanks_normalized (trim (collapse_spaces s)) = true.
Proof.
  apply trim_normalized. rewrite collapse_spaces_runs.
  apply collapse_runs_single_spaced.
Qed.

(** ** The pattern of [scaleLeadingQuantity] *)

Ltac inv H := inversion H; subst; clear H.

(** Inversion of a match along the syntax of a pattern without stars. *)
Ltac inv_matches :=
  repeat match goal with
         | H : Matches (RSeq _ _) _ _ _ _ _ _ |- _ => inv H
         | H : Matches (RChar _) _ _ _ _ _ _ |- _ => inv H
         | H : Matches (RGroup _ _) _ _ _ _ _ _ |- _ => inv H
         | H : Matches (RAlt _ _) _ _ _ _ _ _ |- _ => inv H
         | H : Matches REmpty _ _ _ _ _ _ |- _ => inv H
         | H : Matches RBol _ _ _ _ _ _ |- _ => inv H
         | H : Matches REol _ _ _ _ _ _ |- _ => inv H
         end.

Lemma Matches_star_class cl p s cs p' s' cs' :
  Matches (RStar (RChar cl)) p s cs p' s' cs' ->
  exists w, s = w ++ s' /\ forallb (cclass_matches cl) w = true /\ cs' = cs.
Proof.
  intros H. remember (RStar (RChar cl)) as r eqn:Hr.
  induction H; try discriminate.
  - now exists [].
  - injection Hr as ->.
    destruct (IHMatches2 eq_refl) as (w & -> & Hw & ->).
    inv_matches.
    exists (c :: w). simpl.
    match goal with Hc : cclass_matches _ _ = true |- _ => rewrite Hc end.
    now rewrite Hw.
Qed.

Lemma Matches_plus_class cl p s cs p' s' cs' :
  Matches (RPlus (RChar cl)) p s cs p' s' cs' ->
  exists c w, s = (c :: w) ++ s' /\ cclass_matches cl c = true /\
              forallb (cclass_matches cl) w = true /\ cs' = cs.
Proof.
  intros H. unfold RPlus in H. inv_matches.
  match goal with
  | Hs : Matches (RStar _) _ _ _ _ _ _ |- _ =>
    apply Matches_star_class in Hs; destruct Hs as (w & -> & Hw & ->)
  end.
  now exists c, w.
Qed.

(** The separators of a range, as the pattern admits them under the [i]
    flag: the hyphen, the en dash, and the word "to" in either case. *)
Definition range_separators : list jsstring :=
  [str "-"; str "–"; str "to"; str "To"; str "tO"; str "TO"].

(** Under the [i] flag a code unit matches a literal when it is the literal
    or its other case. *)
Lemma CCharI_cases (x c : char) :
  cclass_matches (CCharI x) c = true ->
  c = x \/ c = ascii_upper x \/ c = ascii_lower x.
Proof.
  cbn. unfold char_eqb. intros H. apply N.eqb_eq in H.
  unfold ascii_upper, ascii_lower in *.
  destruct ((97 <=? x) && (x <=? 122))%N eqn:Hx;
    destruct ((97 <=? c) && (c <=? 122))%N eqn:Hc;
    destruct ((65 <=? x) && (x <=? 90))%N eqn:Hx';
    repeat match goal with
           | E : (_ && _)%bool = true |- _ =>
             apply andb_prop in E; destruct E
           | E : (_ && _)%bool = false |- _ =>
             apply andb_false_iff in E; destruct E
           | E : (_ <=? _)%N = true |- _ => apply N.leb_le in E
           | E : (_ <=? _)%N = false |- _ => apply N.leb_gt in E
           end; lia.
Qed.

Lemma Matches_separator p s cs p' s' cs' :
  Matches (RAlts [RLitI (str "-"); RLitI (str "–"); RLitI (str "to")])
          p s cs p' s' cs' ->
  exists tok, s = tok ++ s' /\ In tok range_separators /\ cs' = cs.
Proof.
  intros H. vm_compute in H. inv_matches;
    match goal with
    | |- exists tok, ?a :: ?b :: s' = _ /\ _ => exists [a; b]
    | |- exists tok, ?a :: s' = _ /\ _ => exists [a]
    end;
    (split; [reflexivity|]); (split; [|reflexivity]);
    repeat match goal with
           | Hc : cclass_matches (CCharI _) _ = true |- _ =>
             apply CCharI_cases in Hc; vm_compute in Hc;
             destruct Hc as [-> | [-> | ->]]
           end;
    vm_compute; auto 10.
Qed.

Lemma Matches_group_inv n r p s cs p1 s1 cs' :
  Matches (RGroup n r) p s cs p1 s1 cs' ->
  exists t cs1, s = t ++ s1 /\ cs' = (n, t) :: cs1 /\
                Matches r p s cs p1 s1 cs1.
Proof.
  intros H. inv H.
  match goal with
  | Hm : Matches r _ _ _ _ _ _ |- _ =>
    destruct (Matches_prefix _ _ _ _ _ _ _ Hm) as [t Ht]; subst s;
    exists t; eexists; rewrite firstn_consumed; repeat split; exact Hm
  end.
Qed.

Lemma Matches_starts_digit r p s cs p' s' cs' :
  Matches (RSeq digits1 r) p s cs p' s' cs' ->
  exists c t, s = (c :: t) ++ s' /\ is_digit c = true.
Proof.
  intros H. inv H.
  match goal with
  | H1 : Matches digits1 _ _ _ _ _ _, H2 : Matches r _ _ _ _ _ _ |- _ =>
    apply Matches_plus_class in H1;
    destruct H1 as (c & w & -> & Hc & _ & _);
    destruct (Matches_prefix _ _ _ _ _ _ _ H2) as [t2 ->]
  end.
  exists c, (w ++ t2). split; [|exact Hc].
  simpl. now rewrite app_assoc.
Qed.

(** Whether a pattern contains a capturing group. *)
Fixpoint has_group (r : regex) : bool :=
  match r with
  | RSeq r1 r2 | RAlt r1 r2 => has_group r1 || has_group r2
  | RStar r1 => has_group r1
  | RGroup _ _ => true
  | _ => false
  end.

Lemma Matches_no_group r p s cs p' s' cs' :
  Matches r p s cs p' s' cs' -> has_group r = false -> cs' = cs.
Proof.
  induction 1; simpl; intros Hg; try reflexivity;
    try (apply orb_false_elim in Hg; destruct Hg as [Hg1 Hg2]).
  - rewrite IHMatches2, IHMatches1; auto.
  - auto.
  - auto.
  - rewrite IHMatches2, IHMatches1; auto.
  - discriminate.
Qed.

Lemma Matches_qty p s cs p' s' cs' :
  Matches qty p s cs p' s' cs' ->
  cs' = cs /\ exists c t, s = (c :: t) ++ s' /\ is_digit c = true.
Proof.
  intros H. split.
  - now apply (Matches_no_group _ _ _ _ _ _ _ H).
  - unfold qty in H. cbn [RAlts RSeqs] in H.
    inv H; [|match goal with Ha : Matches (RAlt _ _) _ _ _ _ _ _ |- _ => inv Ha end];
      eapply Matches_starts_digit; eassumption.
Qed.

(** The shape of a match of the scaling pattern: leading blanks, a first
    quantity, possibly a range part made of blanks, a separator, blanks and
    a second quantity, then the rest of the line. *)
Lemma scale_re_shape s m :
  exec scale_re s = Some m ->
  exists prefix a suffix,
    group_or_empty 1 m = prefix /\
    group_or_empty 2 m = a /\
    group_or_empty 5 m = suffix /\
    forallb is_space prefix = true /\
    starts_with_digit a = true /\
    ((group_or_empty 4 m = [] /\ s = prefix ++ a ++ suffix)
     \/
     (exists w1 tok w2 b,
        group_or_empty 4 m = b /\
        group_or_empty 3 m = w1 ++ tok ++ w2 ++ b /\
        forallb is_space w1 = true /\
        forallb is_space w2 = true /\
        In tok range_separators /\
        starts_with_digit b = true /\
        s = prefix ++ a ++ (w1 ++ tok ++ w2 ++ b) ++ suffix)).
Proof.
  unfold scale_re. cbn [RSeqs]. rewrite exec_anchored.
  intros H. apply match_here_sound in H.
  destruct H as (_ & _ & p' & H).
  unfold group_or_empty.
  destruct m as [mb m0 mg ma]. cbn [m_groups m_after m_0] in *.
  inversion H as [| |? ? ? ? ? pa sa ca ? ? ? Hbol Hrest| | | | | | | |];
    subst; clear H.
  inv Hbol.
  inversion Hrest as [| |? ? ? ? ? pb sb cb ? ? ? Hg1 Hrest2| | | | | | | |];
    subst; clear Hrest.
  apply Matches_group_inv in Hg1.
  destruct Hg1 as (prefix & c1 & Hs1 & -> & Hp).
  apply Matches_star_class in Hp. destruct Hp as (w & Hw & Hpre & ->).
  assert (w = prefix) by (rewrite Hs1 in Hw; now apply app_inv_tail in Hw).
  subst w. clear Hw.
  inversion Hrest2 as [| |? ? ? ? ? pc sc cc ? ? ? Hg2 Hrest3| | | | | | | |];
    subst; clear Hrest2.
  apply Matches_group_inv in Hg2.
  destruct Hg2 as (a & c2 & -> & -> & Ha).
  apply Matches_qty in Ha. destruct Ha as (-> & ca & ta & Ha & Hda).
  assert (a = ca :: ta) by now apply app_inv_tail in Ha.
  subst a. clear Ha.
  inversion Hrest3 as [| |? ? ? ? ? pd sd cd ? ? ? Hopt Hrest4| | | | | | | |];
    subst; clear Hrest3.
  inversion Hrest4 as [| |? ? ? ? ? pe se ce ? ? ? Hg5 Heol| | | | | | | |];
    subst; clear Hrest4.
  inv Heol.
  apply Matches_group_inv in Hg5.
  destruct Hg5 as (suffix & c5 & -> & -> & H5).
  pose proof (Matches_no_group _ _ _ _ _ _ _ H5 eq_refl) as E5. subst c5.
  rewrite app_nil_r in *.
  exists prefix, (ca :: ta), suffix.
  inversion Hopt as [| | |? ? ? ? ? ? ? ? Hg3|? ? ? ? ? ? ? ? Hemp| | | | | |];
    subst; clear Hopt.
  - (* a range *)
    apply Matches_group_inv in Hg3.
    destruct Hg3 as (range & c3 & Hr & -> & H3).
    revert Hr.
    inversion H3 as [| |? ? ? ? ? pf sf cf ? ? ? Hw1 H3b| | | | | | | |];
      subst; clear H3.
    apply Matches_star_class in Hw1. destruct Hw1 as (w1 & -> & Hw1 & ->).
    inversion H3b as [| |? ? ? ? ? pg sg cg ? ? ? Hsep H3c| | | | | | | |];
      subst; clear H3b.
    apply Matches_separator in Hsep. destruct Hsep as (tok & -> & Htok & ->).
    inversion H3c as [| |? ? ? ? ? ph sh ch ? ? ? Hw2 Hg4| | | | | | | |];
      subst; clear H3c.
    apply Matches_star_class in Hw2. destruct Hw2 as (w2 & -> & Hw2 & ->).
    apply Matches_group_inv in Hg4.
    destruct Hg4 as (b & c4 & -> & -> & H4).
    apply Matches_qty in H4. destruct H4 as (-> & cb & tb & Hb & Hdb).
    assert (b = cb :: tb) by now apply app_inv_tail in Hb.
    subst b. clear Hb.
    intros Hr.
    assert (range = w1 ++ tok ++ w2 ++ cb :: tb).
    { repeat rewrite app_assoc in Hr. apply app_inv_tail in Hr.
      rewrite <- Hr. now rewrite <- !app_assoc. }
    subst range. cbn.
    repeat split; auto.
    right. exists w1, tok, w2, (cb :: tb).
    repeat split; auto.
    now rewrite <- ?app_assoc.
  - (* no range *)
    inv Hemp. cbn. repeat split; auto.
Qed.

(** ** Recovering the separator from the range part *)

Lemma space_not_digit c : is_space c = true -> is_digit c = false.
Proof.
  unfold is_digit. intros Hs.
  destruct ((48 <=? c) && (c <=? 57))%N eqn:Hd; [|reflexivity].
  apply andb_prop in Hd. destruct Hd as [H1 H2].
  apply N.leb_le in H1, H2.
  unfold is_space, is_line_terminator in Hs.
  repeat match type of Hs with
         | context [(c =? ?k)%N] =>
           replace (c =? k)%N with false in Hs
             by (symmetry; apply N.eqb_neq; lia)
         end.
  replace (8192 <=? c)%N with false in Hs by (symmetry; apply N.leb_gt; lia).
  discriminate.
Qed.

Lemma drop_while_app_all p w s :
  forallb p w = true -> drop_while p (w ++ s) = drop_while p s.
Proof.
  induction w as [|c w IH]; simpl; [reflexivity|].
  intros H. apply andb_prop in H. destruct H as [-> H]. auto.
Qed.

Lemma drop_while_all p w : forallb p w = true -> drop_while p w = [].
Proof.
  intros H. rewrite <- (app_nil_r w). now rewrite drop_while_app_all.
Qed.

Lemma forallb_rev {A} (p : A -> bool) l : forallb p (rev l) = forallb p l.
Proof.
  induction l as [|x l IH]; simpl; [reflexivity|].
  rewrite forallb_app, IH. simpl. rewrite andb_true_r. apply andb_comm.
Qed.

(** Trimming removes blanks around a text that neither starts nor ends with
    a blank. *)
Lemma trim_between w1 tok w2 :
  forallb is_space w1 = true -> forallb is_space w2 = true ->
  match tok with c :: _ => is_space c | [] => false end = false ->
  match rev tok with c :: _ => is_space c | [] => false end = false ->
  trim (w1 ++ tok ++ w2) = tok.
Proof.
  intros H1 H2 Hh Hl. unfold trim, trimStart, trimEnd.
  rewrite drop_while_app_all by assumption.
  destruct tok as [|c t].
  - simpl. now rewrite (drop_while_all is_space w2) by assumption.
  - cbn [app drop_while]. rewrite Hh.
    change (c :: t ++ w2) with ((c :: t) ++ w2). rewrite rev_app_distr.
    rewrite drop_while_app_all by now rewrite forallb_rev.
    destruct (rev (c :: t)) as [|d r] eqn:Hr.
    + apply (f_equal (@List.length _)) in Hr. rewrite length_rev in Hr.
      discriminate.
    + cbn [drop_while]. rewrite Hl. rewrite <- Hr. apply rev_involutive.
Qed.

(** Removing the first occurrence of [b] from [x ++ b], when [b] starts with
    a digit and [x] has none, leaves [x]. *)
Lemma replace_string_suffix x b :
  starts_with_digit b = true ->
  forallb (fun c => negb (is_digit c)) x = true ->
  replace_string b (str "") (x ++ b) = x.
Proof.
  intros Hb. change (str "") with (@nil char).
  assert (Hbb : startsWith b b = true).
  { clear Hb. induction b as [|c b IH]; simpl; [reflexivity|].
    unfold char_eqb. now rewrite N.eqb_refl. }
  induction x as [|c x IH]; intros Hx.
  - simpl. destruct b as [|d b]; [discriminate|].
    unfold replace_string. rewrite Hbb. simpl. now rewrite skipn_all.
  - simpl in Hx. apply andb_prop in Hx. destruct Hx as [Hc Hx].
    destruct b as [|d b]; [discriminate|]. simpl in Hb.
    cbn [app replace_string startsWith].
    assert (char_eqb d c = false) as ->.
    { unfold char_eqb. apply N.eqb_neq. intros ->.
      rewrite Hb in Hc. discriminate. }
    cbn [andb]. f_equal. now apply IH.
Qed.

Lemma separator_clean tok :
  In tok range_separators ->
  forallb (fun c => negb (is_digit c)) tok = true /\
  match tok with c :: _ => is_space c | [] => false end = false /\
  match rev tok with c :: _ => is_space c | [] => false end = false /\
  tok <> [].
Proof.
  intros H. vm_compute in H.
  repeat destruct H as [<- | H]; try contradiction;
    vm_compute; repeat split; discriminate.
Qed.

(** The separator the code computes for a matched range is the separator
    that was written: the default "-" is never used. *)
Lemma range_separator_kept w1 tok w2 b :
  forallb is_space w1 = true -> forallb is_space w2 = true ->
  In tok range_separators -> starts_with_digit b = true ->
  or_else (trim (replace_string b (str "") (w1 ++ tok ++ w2 ++ b))) (str "-")
  = tok.
Proof.
  intros H1 H2 Ht Hb.
  destruct (separator_clean tok Ht) as (Hnd & Hh & Hl & Hne).
  replace (w1 ++ tok ++ w2 ++ b) with ((w1 ++ tok ++ w2) ++ b)
    by now rewrite <- !app_assoc.
  rewrite replace_string_suffix; [|assumption|].
  - rewrite trim_between by assumption.
    destruct tok; [contradiction|reflexivity].
  - rewrite !forallb_app, Hnd.
    assert (Hs : forall w, forallb is_space w = true ->
                           forallb (fun c => negb (is_digit c)) w = true).
    { intros w Hw. apply forallb_forall. intros c Hc.
      rewrite forallb_forall in Hw. now rewrite space_not_digit by auto. }
    now rewrite !Hs.
Qed.

(** ** Digit texts *)

(** A non-empty text of decimal digits. *)
Definition digit_text (w : jsstring) : bool :=
  match w with
  | [] => false
  | _ :: _ => forallb is_digit w
  end.

Lemma star_class_none {R : Type} cl (w rest : jsstring) :
  forall fuel p cs (k : @cont R),
    forallb (cclass_matches cl) w = true ->
    starts_with cl rest = false ->
    (forall w1 w2, w = w1 ++ w2 ->
                   k (prev_after p w1) (w2 ++ rest) cs = None) ->
    star_loop (rmatch (RChar cl)) fuel p (w ++ rest) cs k = None.
Proof.
  induction w as [|c w IH]; intros fuel p cs k Hw Hrest Hk;
    (destruct fuel as [|fuel]; [reflexivity|]).
  - cbn [star_loop app].
    destruct rest as [|d rest].
    + simpl. exact (Hk [] [] eq_refl).
    + rewrite rmatch_char. simpl in Hrest. rewrite Hrest.
      exact (Hk [] [] eq_refl).
  - simpl in Hw. apply andb_prop in Hw. destruct Hw as [Hc Hw].
    cbn [star_loop app]. rewrite rmatch_char, Hc.
    assert (Hlt : (List.length (w ++ rest) <? List.length (c :: w ++ rest))%nat
                  = true) by (apply Nat.ltb_lt; simpl; lia).
    rewrite Hlt.
    rewrite (IH fuel (Some c) cs k Hw Hrest).
    + exact (Hk [] (c :: w) eq_refl).
    + intros w1 w2 ->. rewrite <- (prev_after_cons p).
      exact (Hk (c :: w1) w2 eq_refl).
Qed.

Lemma rmatch_group {R : Type} n r p s cs (k : @cont R) :
  rmatch (RGroup n r) p s cs k
  = rmatch r p s cs
      (fun p' s' cs' =>
         k p' s' ((n, firstn (List.length s - List.length s') s) :: cs')).
Proof. reflexivity. Qed.

(** A group of [\d+] reads a whole digit text when the continuation accepts
    what follows. *)
Lemma rmatch_group_digits {R : Type} n w rest p cs (k : @cont R) v :
  digit_text w = true ->
  starts_with CDigit rest = false ->
  k (prev_after p w) rest ((n, w) :: cs) = Some v ->
  rmatch (RGroup n digits1) p (w ++ rest) cs k = Some v.
Proof.
  intros Hw Hrest Hk. destruct w as [|c w]; [discriminate|].
  simpl in Hw. apply andb_prop in Hw. destruct Hw as [Hc Hw].
  rewrite rmatch_group. unfold digits1, RPlus.
  rewrite rmatch_seq. cbn [app]. rewrite rmatch_char.
  cbn [cclass_matches]. rewrite Hc. rewrite rmatch_star.
  apply star_class_greedy; try assumption; [lia|].
  change (c :: w ++ rest) with ((c :: w) ++ rest).
  rewrite firstn_consumed. now rewrite <- (prev_after_cons p).
Qed.

(** A group of [\d+] fails when the continuation rejects every position
    inside and after the digit text. *)
Lemma rmatch_group_digits_none {R : Type} n w rest p cs (k : @cont R) :
  forallb is_digit w = true ->
  starts_with CDigit rest = false ->
  (forall p' w2 cs', forallb is_digit w2 = true ->
                     k p' (w2 ++ rest) cs' = None) ->
  rmatch (RGroup n digits1) p (w ++ rest) cs k = None.
Proof.
  intros Hw Hrest Hk.
  rewrite rmatch_group. unfold digits1, RPlus. rewrite rmatch_seq.
  destruct w as [|c w].
  - cbn [app]. destruct rest as [|d rest]; [reflexivity|].
    rewrite rmatch_char. simpl in Hrest. cbn [cclass_matches].
    now rewrite Hrest.
  - simpl in Hw. apply andb_prop in Hw. destruct Hw as [Hc Hw].
    cbn [app]. rewrite rmatch_char. cbn [cclass_matches]. rewrite Hc.
    rewrite rmatch_star.
    apply star_class_none; try assumption.
    intros w1 w2 E. apply Hk. rewrite E, forallb_app in Hw.
    now apply andb_prop in Hw.
Qed.

Lemma rmatch_star_class_skip {R : Type} cl p s cs (k : @cont R) :
  starts_with cl s = false ->
  rmatch (RStar (RChar cl)) p s cs k = k p s cs.
Proof.
  intros H. rewrite rmatch_star. cbn [star_loop].
  destruct s as [|c s]; [reflexivity|].
  rewrite rmatch_char. simpl in H. now rewrite H.
Qed.

Lemma rmatch_plus_class_none {R : Type} cl p s cs (k : @cont R) :
  starts_with cl s = false ->
  rmatch (RPlus (RChar cl)) p s cs k = None.
Proof.
  intros H. unfold RPlus. rewrite rmatch_seq.
  destruct s as [|c s]; [reflexivity|].
  rewrite rmatch_char. simpl in H. now rewrite H.
Qed.

Lemma digit_not_space c : is_digit c = true -> is_space c = false.
Proof.
  intros H. destruct (is_space c) eqn:E; [|reflexivity].
  rewrite (space_not_digit c E) in H. discriminate.
Qed.

Lemma digit_is_word c : is_digit c = true -> is_word c = true.
Proof.
  intros H. unfold is_word. rewrite H. now rewrite !orb_true_r.
Qed.

Lemma digit_not_slash c : is_digit c = true -> char_eqb 47%N c = false.
Proof.
  unfold is_digit, char_eqb. intros H. apply andb_prop in H.
  destruct H as [H _]. apply N.leb_le in H. apply N.eqb_neq. lia.
Qed.

Lemma digit_not_dot c : is_digit c = true -> char_eqb 46%N c = false.
Proof.
  unfold is_digit, char_eqb. intros H. apply andb_prop in H.
  destruct H as [H _]. apply N.leb_le in H. apply N.eqb_neq. lia.
Qed.

(** What follows the digits of a digit text inside a longer text. *)
Lemma starts_with_digit_text cl w rest :
  digit_text w = true ->
  (forall c, is_digit c = true -> cclass_matches cl c = false) ->
  starts_with cl (w ++ rest) = false.
Proof.
  intros Hw Hcl. destruct w as [|c w]; [discriminate|].
  simpl in Hw |- *. apply andb_prop in Hw. destruct Hw as [Hc _]. auto.
Qed.

Lemma prev_after_digit_text p w :
  digit_text w = true ->
  exists c, prev_after p w = Some c /\ is_digit c = true.
Proof.
  intros Hw. unfold prev_after.
  destruct w as [|d w]; [discriminate|].
  simpl in Hw. assert (Hr : forallb is_digit (rev (d :: w)) = true)
    by now rewrite forallb_rev.
  destruct (rev (d :: w)) as [|c r] eqn:E.
  - apply (f_equal (@List.length _)) in E. rewrite length_rev in E.
    discriminate.
  - simpl in Hr. apply andb_prop in Hr. destruct Hr as [Hc _]. now exists c.
Qed.

Lemma rmatch_bol {R : Type} s cs (k : @cont R) :
  rmatch RBol None s cs k = k None s cs.
Proof. reflexivity. Qed.

Lemma rmatch_wordb_end {R : Type} p w cs (k : @cont R) :
  digit_text w = true ->
  rmatch RWordB (prev_after p w) [] cs k = k (prev_after p w) [] cs.
Proof.
  intros Hw. destruct (prev_after_digit_text p w Hw) as (c & -> & Hc).
  cbn [rmatch]. unfold at_word_boundary. now rewrite (digit_is_word c Hc).
Qed.

(** The pattern of mixed fractions on "W N/D". *)
Lemma exec_mixed_re_shape W N D :
  digit_text W = true -> digit_text N = true -> digit_text D = true ->
  let s := W ++ str " " ++ N ++ str "/" ++ D in
  exec mixed_re s
  = Some {| m_before := []; m_0 := s;
            m_groups := [(3%nat, D); (2%nat, N); (1%nat, W)];
            m_after := [] |}.
Proof.
  intros HW HN HD s. unfold mixed_re. cbn [RSeqs].
  rewrite exec_anchored. unfold match_here.
  rewrite rmatch_seq, rmatch_bol, rmatch_seq.
  subst s. change (str " ") with [32%N]. change (str "/") with [47%N].
  apply rmatch_group_digits; [exact HW|reflexivity|].
  rewrite rmatch_seq. unfold spaces1 at 1, RPlus. rewrite rmatch_seq.
  cbn [app]. rewrite rmatch_char. cbn [cclass_matches].
  change (is_space 32%N) with true. cbv iota.
  rewrite rmatch_star_class_skip
    by (apply starts_with_digit_text; [exact HN|exact digit_not_space]).
  rewrite rmatch_seq.
  apply rmatch_group_digits; [exact HN|reflexivity|].
  rewrite rmatch_seq. unfold spaces0 at 1.
  rewrite rmatch_star_class_skip by reflexivity.
  rewrite rmatch_seq. cbn [app]. rewrite rmatch_char. cbn [cclass_matches].
  change (char_eqb 47%N 47%N) with true. cbv iota.
  rewrite rmatch_seq. unfold spaces0 at 1.
  rewrite rmatch_star_class_skip
    by (rewrite <- (app_nil_r D);
        apply starts_with_digit_text; [exact HD|exact digit_not_space]).
  rewrite rmatch_seq.
  rewrite <- (app_nil_r D) at 1.
  apply rmatch_group_digits; [exact HD|reflexivity|].
  rewrite rmatch_wordb_end by exact HD.
  rewrite Nat.sub_0_r, firstn_all. reflexivity.
Qed.

Lemma rmatch_alt {R : Type} r1 r2 p s cs (k : @cont R) :
  rmatch (RAlt r1 r2) p s cs k
  = match rmatch r1 p s cs k with
    | Some v => Some v
    | None => rmatch r2 p s cs k
    end.
Proof. reflexivity. Qed.

(** [\d+] outside a group. *)
Lemma rmatch_digits {R : Type} w rest p cs (k : @cont R) v :
  digit_text w = true ->
  starts_with CDigit rest = false ->
  k (prev_after p w) rest cs = Some v ->
  rmatch digits1 p (w ++ rest) cs k = Some v.
Proof.
  intros Hw Hrest Hk. destruct w as [|c w]; [discriminate|].
  simpl in Hw. apply andb_prop in Hw. destruct Hw as [Hc Hw].
  unfold digits1, RPlus.
  rewrite rmatch_seq. cbn [app]. rewrite rmatch_char.
  cbn [cclass_matches]. rewrite Hc. rewrite rmatch_star.
  apply star_class_greedy; try assumption; [lia|].
  now rewrite <- (prev_after_cons p).
Qed.

Lemma starts_with_digits_then cl w rest :
  forallb is_digit w = true ->
  (forall c, is_digit c = true -> cclass_matches cl c = false) ->
  starts_with cl rest = false ->
  starts_with cl (w ++ rest) = false.
Proof.
  intros Hw Hcl Hrest. destruct w as [|c w]; [exact Hrest|].
  simpl in Hw |- *. apply andb_prop in Hw. destruct Hw as [Hc _]. auto.
Qed.

(** The pattern of mixed fractions fails on a digit text followed by
    something that is not a blank. *)
Lemma exec_mixed_re_none w rest :
  forallb is_digit w = true ->
  starts_with CDigit rest = false ->
  starts_with CSpace rest = false ->
  exec mixed_re (w ++ rest) = None.
Proof.
  intros Hw Hd Hs. unfold mixed_re. cbn [RSeqs].
  rewrite exec_anchored. unfold match_here.
  rewrite rmatch_seq, rmatch_bol, rmatch_seq.
  apply rmatch_group_digits_none; try assumption.
  intros p' w2 cs' Hw2. rewrite rmatch_seq. unfold spaces1 at 1.
  apply rmatch_plus_class_none.
  apply starts_with_digits_then; [exact Hw2|exact digit_not_space|exact Hs].
Qed.

(** The pattern of simple fractions on "N/D". *)
Lemma exec_frac_re_shape N D :
  digit_text N = true -> digit_text D = true ->
  let s := N ++ str "/" ++ D in
  exec frac_re s
  = Some {| m_before := []; m_0 := s;
            m_groups := [(2%nat, D); (1%nat, N)];
            m_after := [] |}.
Proof.
  intros HN HD s. unfold frac_re. cbn [RSeqs].
  rewrite exec_anchored. unfold match_here.
  rewrite rmatch_seq, rmatch_bol, rmatch_seq.
  subst s. change (str "/") with [47%N].
  apply rmatch_group_digits; [exact HN|reflexivity|].
  rewrite rmatch_seq. unfold spaces0 at 1.
  rewrite rmatch_star_class_skip by reflexivity.
  rewrite rmatch_seq. cbn [app]. rewrite rmatch_char. cbn [cclass_matches].
  change (char_eqb 47%N 47%N) with true. cbv iota.
  rewrite rmatch_seq. unfold spaces0 at 1.
  rewrite rmatch_star_class_skip
    by (rewrite <- (app_nil_r D);
        apply starts_with_digit_text; [exact HD|exact digit_not_space]).
  rewrite rmatch_seq.
  rewrite <- (app_nil_r D) at 1.
  apply rmatch_group_digits; [exact HD|reflexivity|].
  rewrite rmatch_wordb_end by exact HD.
  rewrite Nat.sub_0_r, firstn_all. reflexivity.
Qed.

(** The pattern of simple fractions fails on a digit text followed by
    something that is neither a blank nor a slash. *)
Lemma exec_frac_re_none w rest :
  forallb is_digit w = true ->
  starts_with CDigit rest = false ->
  starts_with CSpace rest = false ->
  starts_with (CChar 47%N) rest = false ->
  exec frac_re (w ++ rest) = None.
Proof.
  intros Hw Hd Hs Hsl. unfold frac_re. cbn [RSeqs].
  rewrite exec_anchored. unfold match_here.
  rewrite rmatch_seq, rmatch_bol, rmatch_seq.
  apply rmatch_group_digits_none; try assumption.
  intros p' w2 cs' Hw2. rewrite rmatch_seq. unfold spaces0 at 1.
  rewrite rmatch_star_class_skip
    by (apply starts_with_digits_then;
        [exact Hw2|exact digit_not_space|exact Hs]).
  rewrite rmatch_seq.
  assert (H : starts_with (CChar 47%N) (w2 ++ rest) = false)
    by (apply starts_with_digits_then;
        [exact Hw2|exact digit_not_slash|exact Hsl]).
  destruct (w2 ++ rest) as [|c t]; [reflexivity|].
  rewrite rmatch_char. cbn [starts_with] in H. now rewrite H.
Qed.

(** The pattern of decimals on "W" and on "W.F". *)
Lemma exec_dec_re_integer W :
  digit_text W = true ->
  exec dec_re W
  = Some {| m_before := []; m_0 := W; m_groups := [(1%nat, W)];
            m_after := [] |}.
Proof.
  intros HW. unfold dec_re. cbn [RSeqs].
  rewrite exec_anchored. unfold match_here.
  rewrite rmatch_seq, rmatch_bol, rmatch_group, rmatch_seq.
  rewrite <- (app_nil_r W) at 1.
  apply rmatch_digits; [exact HW|reflexivity|].
  unfold ROpt. rewrite rmatch_alt, rmatch_seq. cbn [rmatch].
  rewrite !Nat.sub_0_r, !firstn_all. reflexivity.
Qed.

Lemma exec_dec_re_decimal W F :
  digit_text W = true -> digit_text F = true ->
  let s := W ++ str "." ++ F in
  exec dec_re s
  = Some {| m_before := []; m_0 := s; m_groups := [(1%nat, s)];
            m_after := [] |}.
Proof.
  intros HW HF s. unfold dec_re. cbn [RSeqs].
  rewrite exec_anchored. unfold match_here.
  rewrite rmatch_seq, rmatch_bol, rmatch_group, rmatch_seq.
  subst s. change (str ".") with [46%N].
  apply rmatch_digits; [exact HW|reflexivity|].
  unfold ROpt. rewrite rmatch_alt, rmatch_seq. cbn [app].
  rewrite rmatch_char. cbn [cclass_matches].
  change (char_eqb 46%N 46%N) with true. cbv iota.
  rewrite <- (app_nil_r F) at 1.
  erewrite rmatch_digits; [reflexivity|exact HF|reflexivity|].
  cbn [rmatch]. rewrite !Nat.sub_0_r, !firstn_all. reflexivity.
Qed.

(** ** Texts that normalization leaves alone *)

Lemma replace_all_loop_class_none {St : Type} cl
    (f : rmatch_result -> St -> jsstring * St) fuel :
  forall prev s st,
    forallb (fun c => negb (cclass_matches cl c)) s = true ->
    (List.length s < fuel)%nat ->
    replace_all_loop fuel (RChar cl) f prev s st = (s, st).
Proof.
  induction fuel as [|fuel IH]; intros prev s st Hs Hlen; [lia|].
  destruct s as [|c s]; [reflexivity|].
  simpl in Hs. apply andb_prop in Hs. destruct Hs as [Hc Hs].
  apply negb_true_iff in Hc.
  cbn [replace_all_loop]. unfold match_here. rewrite rmatch_char, Hc.
  rewrite IH by (simpl in Hlen; auto; lia). reflexivity.
Qed.

Lemma collapse_runs_id s :
  forall b,
    single_spaced s = true ->
    (b = true -> starts_blank s = false) ->
    collapse_runs b s = s.
Proof.
  induction s as [|c s IH]; intros b Hs Hb; [reflexivity|].
  simpl in Hs. apply andb_prop in Hs. destruct Hs as [Hc Hs].
  cbn [collapse_runs].
  destruct (is_space c) eqn:Ec.
  - destruct b.
    + specialize (Hb eq_refl). unfold starts_blank in Hb. simpl in Hb.
      rewrite Ec in Hb. discriminate.
    + apply andb_prop in Hc. destruct Hc as [Hc Hn].
      apply N.eqb_eq in Hc. subst c.
      rewrite (IH true Hs); [reflexivity|].
      intros _. now apply negb_true_iff.
  - now rewrite (IH false Hs) by discriminate.
Qed.

(** The code units of quantity tokens: digits, the slash, the point, and
    the space. *)
Definition token_char (c : char) : bool :=
  is_digit c || (c =? 47)%N || (c =? 46)%N.

Definition quantity_char (c : char) : bool := token_char c || (c =? 32)%N.

Lemma quantity_char_small c : quantity_char c = true -> (c < 64)%N.
Proof.
  unfold quantity_char, token_char, is_digit. intros H.
  repeat match type of H with
         | (_ || _)%bool = true => apply orb_prop in H; destruct H as [H|H]
         | (_ && _)%bool = true => apply andb_prop in H; destruct H as [? H]
         end;
    try apply N.eqb_eq in H; try apply N.leb_le in H; lia.
Qed.

Lemma quantity_char_not_glyph c :
  quantity_char c = true ->
  cclass_matches (COneOf (str "¼½¾⅐⅑⅒⅓⅔⅕⅖⅗⅘⅙⅚⅛⅜⅝⅞")) c = false.
Proof.
  intros H. apply quantity_char_small in H. cbn [cclass_matches].
  assert (Hl : forallb (fun k => (64 <=? k)%N)
                 (str "¼½¾⅐⅑⅒⅓⅔⅕⅖⅗⅘⅙⅚⅛⅜⅝⅞") = true)
    by (vm_compute; reflexivity).
  induction (str "¼½¾⅐⅑⅒⅓⅔⅕⅖⅗⅘⅙⅚⅛⅜⅝⅞") as [|k l IH]; [reflexivity|].
  simpl in Hl |- *. apply andb_prop in Hl. destruct Hl as [Hk Hl].
  apply N.leb_le in Hk.
  replace (char_eqb c k) with false
    by (symmetry; apply N.eqb_neq; lia).
  now apply IH.
Qed.

Lemma token_char_not_space c : token_char c = true -> is_space c = false.
Proof.
  unfold token_char. intros H.
  destruct (is_space c) eqn:E; [|reflexivity].
  pose proof (space_not_digit c E) as Hd. rewrite Hd in H. simpl in H.
  unfold is_space, is_line_terminator in E.
  apply orb_prop in H. destruct H as [H|H]; apply N.eqb_eq in H; subst c;
    discriminate.
Qed.

Lemma normalizeFractions_clean s :
  forallb quantity_char s = true ->
  single_spaced s = true ->
  normalizeFractions s = s.
Proof.
  intros Hq Hs. unfold normalizeFractions.
  unfold replace_all at 1, replace_all_st, fraction_glyph_re.
  rewrite replace_all_loop_class_none.
  - cbn [fst]. rewrite collapse_spaces_runs.
    now apply collapse_runs_id.
  - apply forallb_forall. intros c Hc. rewrite forallb_forall in Hq.
    now rewrite quantity_char_not_glyph by auto.
  - lia.
Qed.

Lemma trim_clean s :
  starts_blank s = false -> ends_blank s = false -> trim s = s.
Proof.
  intros H1 H2.
  rewrite <- (trim_between [] s []) at 2; try reflexivity.
  - now rewrite app_nil_r.
  - unfold starts_blank in H1. now destruct s.
  - unfold ends_blank, starts_blank in H2. now destruct (rev s).
Qed.

(** A text of token code units has no blank. *)
Lemma token_text_single_spaced t rest :
  forallb token_char t = true ->
  single_spaced rest = true ->
  single_spaced (t ++ rest) = true.
Proof.
  intros Ht Hr. induction t as [|c t IH]; [exact Hr|].
  simpl in Ht. apply andb_prop in Ht. destruct Ht as [Hc Ht].
  cbn [app single_spaced]. rewrite (token_char_not_space c Hc).
  now rewrite IH.
Qed.

Lemma token_text_starts t rest :
  t <> [] -> forallb token_char t = true -> starts_blank (t ++ rest) = false.
Proof.
  intros Hne Ht. destruct t as [|c t]; [contradiction|].
  simpl in Ht. apply andb_prop in Ht. destruct Ht as [Hc _].
  exact (token_char_not_space c Hc).
Qed.

Lemma token_text_ends t before :
  t <> [] -> forallb token_char t = true -> ends_blank (before ++ t) = false.
Proof.
  intros Hne Ht. unfold ends_blank. rewrite rev_app_distr.
  apply token_text_starts.
  - intros E. apply (f_equal (@rev _)) in E. rewrite rev_involutive in E.
    now subst t.
  - now rewrite forallb_rev.
Qed.

(** Normalizing and trimming leave a token alone, and also two tokens
    separated by one space. *)
Lemma normalize_token t :
  t <> [] -> forallb token_char t = true ->
  trim (normalizeFractions t) = t.
Proof.
  intros Hne Ht.
  rewrite normalizeFractions_clean.
  - apply trim_clean.
    + rewrite <- (app_nil_r t). now apply token_text_starts.
    + now apply (token_text_ends t []).
  - apply forallb_forall. intros c Hc. rewrite forallb_forall in Ht.
    unfold quantity_char. now rewrite Ht.
  - rewrite <- (app_nil_r t). now apply token_text_single_spaced.
Qed.

Lemma normalize_two_tokens t1 t2 :
  t1 <> [] -> forallb token_char t1 = true ->
  t2 <> [] -> forallb token_char t2 = true ->
  trim (normalizeFractions (t1 ++ str " " ++ t2)) = t1 ++ str " " ++ t2.
Proof.
  intros Hn1 Ht1 Hn2 Ht2. change (str " ") with [32%N].
  assert (H2 : single_spaced (t2 ++ []) = true)
    by now apply token_text_single_spaced.
  rewrite app_nil_r in H2.
  rewrite normalizeFractions_clean.
  - apply trim_clean.
    + now apply token_text_starts.
    + rewrite app_assoc. now apply token_text_ends.
  - rewrite !forallb_app. cbn [forallb].
    assert (Hq : forall t, forallb token_char t = true ->
                           forallb quantity_char t = true).
    { intros t Ht. apply forallb_forall. intros c Hc.
      rewrite forallb_forall in Ht. unfold quantity_char. now rewrite Ht. }
    rewrite (Hq t1 Ht1), (Hq t2 Ht2). reflexivity.
  - apply token_text_single_spaced; [exact Ht1|].
    cbn [app single_spaced]. change (is_space 32%N) with true.
    cbv iota. rewrite H2.
    pose proof (token_text_starts t2 [] Hn2 Ht2) as Hs.
    rewrite app_nil_r in Hs. now rewrite Hs.
Qed.

(** ** [parseQuantityToken] on the three forms of a quantity *)

Lemma digit_is_token c : is_digit c = true -> token_char c = true.
Proof. unfold token_char. now intros ->. Qed.

Lemma digit_text_facts w :
  digit_text w = true ->
  w <> [] /\ forallb is_digit w = true /\ forallb token_char w = true.
Proof.
  intros H. destruct w as [|c w]; [discriminate|].
  split; [discriminate|]. split; [exact H|].
  apply forallb_forall. intros d Hd. unfold digit_text in H.
  rewrite forallb_forall in H. now apply digit_is_token, H.
Qed.

Lemma app_not_nil {A} (a b : list A) : a <> [] -> a ++ b <> [].
Proof. destruct a; [contradiction|discriminate]. Qed.

(** "W N/D" is read as [W + N / D]. *)
Lemma parseQuantityToken_mixed W N D :
  digit_text W = true -> digit_text N = true -> digit_text D = true ->
  Number_isFinite (Number W) = true ->
  Number_isFinite (Number N) = true ->
  Number_isFinite (Number D) = true ->
  num_neq (Number D) zero = true ->
  parseQuantityToken (W ++ str " " ++ N ++ str "/" ++ D)
  = Some (num_add (Number W) (num_div (Number N) (Number D))).
Proof.
  intros HW HN HD Hw Hn Hd Hz.
  destruct (digit_text_facts W HW) as (HW1 & HW2 & HW3).
  destruct (digit_text_facts N HN) as (HN1 & HN2 & HN3).
  destruct (digit_text_facts D HD) as (HD1 & HD2 & HD3).
  unfold parseQuantityToken.
  rewrite normalize_two_tokens; try assumption.
  - unfold parse_mixed.
    rewrite (exec_mixed_re_shape W N D HW HN HD).
    unfold group_or_empty. cbn [m_groups capture Nat.eqb].
    now rewrite Hw, Hn, Hd, Hz.
  - now apply app_not_nil.
  - rewrite !forallb_app, HN3, HD3. reflexivity.
Qed.

(** "N/D" is read as [N / D]. *)
Lemma parseQuantityToken_fraction N D :
  digit_text N = true -> digit_text D = true ->
  Number_isFinite (Number N) = true ->
  Number_isFinite (Number D) = true ->
  num_neq (Number D) zero = true ->
  parseQuantityToken (N ++ str "/" ++ D)
  = Some (num_div (Number N) (Number D)).
Proof.
  intros HN HD Hn Hd Hz.
  destruct (digit_text_facts N HN) as (HN1 & HN2 & HN3).
  destruct (digit_text_facts D HD) as (HD1 & HD2 & HD3).
  unfold parseQuantityToken.
  rewrite normalize_token.
  - unfold parse_mixed.
    rewrite exec_mixed_re_none by (try exact HN2; reflexivity).
    unfold parse_frac.
    rewrite (exec_frac_re_shape N D HN HD).
    unfold group_or_empty. cbn [m_groups capture Nat.eqb].
    now rewrite Hn, Hd, Hz.
  - now apply app_not_nil.
  - rewrite !forallb_app, HN3, HD3. reflexivity.
Qed.

(** "W" is read as the integer [W]. *)
Lemma parseQuantityToken_integer W :
  digit_text W = true ->
  Number_isFinite (Number W) = true ->
  parseQuantityToken W = Some (Number W).
Proof.
  intros HW Hw.
  destruct (digit_text_facts W HW) as (HW1 & HW2 & HW3).
  unfold parseQuantityToken.
  rewrite normalize_token by assumption.
  unfold parse_mixed.
  rewrite <- (app_nil_r W) at 1.
  rewrite exec_mixed_re_none by (try exact HW2; reflexivity).
  unfold parse_frac.
  rewrite <- (app_nil_r W) at 1.
  rewrite exec_frac_re_none by (try exact HW2; reflexivity).
  unfold parse_dec. rewrite (exec_dec_re_integer W HW).
  unfold group_or_empty. cbn [m_groups capture Nat.eqb].
  now rewrite Hw.
Qed.

(** "W.F" is read as the decimal [W.F]. *)
Lemma parseQuantityToken_decimal W F :
  digit_text W = true -> digit_text F = true ->
  Number_isFinite (Number (W ++ str "." ++ F)) = true ->
  parseQuantityToken (W ++ str "." ++ F) = Some (Number (W ++ str "." ++ F)).
Proof.
  intros HW HF Hw.
  destruct (digit_text_facts W HW) as (HW1 & HW2 & HW3).
  destruct (digit_text_facts F HF) as (HF1 & HF2 & HF3).
  unfold parseQuantityToken.
  rewrite normalize_token.
  - unfold parse_mixed.
    rewrite exec_mixed_re_none by (try exact HW2; reflexivity).
    unfold parse_frac.
    rewrite exec_frac_re_none by (try exact HW2; reflexivity).
    unfold parse_dec. rewrite (exec_dec_re_decimal W F HW HF).
    unfold group_or_empty. cbn [m_groups capture Nat.eqb].
    now rewrite Hw.
  - now apply app_not_nil.
  - rewrite !forallb_app, HW3, HF3. reflexivity.
Qed.

(** ** [parseQuantityToken] *)

Lemma digits1_needs_digit {R : Type} p s cs (k : @cont R) :
  starts_with_digit s = false -> rmatch digits1 p s cs k = None.
Proof.
  destruct s as [|c s]; simpl; [reflexivity|].
  now intros ->.
Qed.

Lemma parse_mixed_needs_digit s :
  starts_with_digit s = false -> parse_mixed s = None.
Proof.
  intros H. unfold parse_mixed, mixed_re.
  cbn [RSeqs]. rewrite exec_anchored. unfold match_here.
  cbn [rmatch]. now rewrite digits1_needs_digit.
Qed.

Lemma parse_frac_needs_digit s :
  starts_with_digit s = false -> parse_frac s = None.
Proof.
  intros H. unfold parse_frac, frac_re.
  cbn [RSeqs]. rewrite exec_anchored. unfold match_here.
  cbn [rmatch]. now rewrite digits1_needs_digit.
Qed.

Lemma parse_dec_needs_digit s :
  starts_with_digit s = false -> parse_dec s = None.
Proof.
  intros H. unfold parse_dec, dec_re.
  cbn [RSeqs]. rewrite exec_anchored. unfold match_here.
  cbn [rmatch]. now rewrite digits1_needs_digit.
Qed.

(** ** The patterns of [parseQuantityToken] on a quantity followed by text *)

(** The first code unit of a text is a word character. *)
Definition starts_word (s : jsstring) : bool :=
  match s with
  | c :: _ => is_word c
  | [] => false
  end.

Lemma starts_word_not_digit rest :
  starts_word rest = false -> starts_with CDigit rest = false.
Proof.
  destruct rest as [|c rest]; [reflexivity|]. cbn. intros H.
  destruct (is_digit c) eqn:E; [|reflexivity].
  now rewrite (digit_is_word c E) in H.
Qed.

(** A text is its leading blanks followed by what [trimStart] leaves. *)
Lemma trimStart_split s :
  exists sp, s = sp ++ trimStart s /\ forallb is_space sp = true /\
             starts_with CSpace (trimStart s) = false.
Proof.
  unfold trimStart. induction s as [|c s (sp & Hs & Hsp & Hr)].
  - now exists [].
  - cbn [drop_while]. destruct (is_space c) eqn:E.
    + exists (c :: sp). cbn [app forallb]. rewrite E, Hsp. repeat split; auto.
      now rewrite <- Hs.
    + exists []. cbn. now rewrite E.
Qed.

Lemma rmatch_spaces0 {R : Type} sp rest p cs (k : @cont R) v :
  forallb is_space sp = true ->
  starts_with CSpace rest = false ->
  k (prev_after p sp) rest cs = Some v ->
  rmatch spaces0 p (sp ++ rest) cs k = Some v.
Proof.
  intros Hsp Hrest Hk. unfold spaces0. rewrite rmatch_star.
  apply star_class_greedy; auto.
Qed.

Lemma rmatch_spaces1 {R : Type} sp rest p cs (k : @cont R) v :
  sp <> [] ->
  forallb is_space sp = true ->
  starts_with CSpace rest = false ->
  k (prev_after p sp) rest cs = Some v ->
  rmatch spaces1 p (sp ++ rest) cs k = Some v.
Proof.
  intros Hne Hsp Hrest Hk. destruct sp as [|c sp]; [contradiction|].
  simpl in Hsp. apply andb_prop in Hsp. destruct Hsp as [Hc Hsp].
  unfold spaces1, RPlus. rewrite rmatch_seq. cbn [app].
  rewrite rmatch_char. cbn [cclass_matches]. rewrite Hc, rmatch_star.
  apply star_class_greedy; auto.
  now rewrite <- (prev_after_cons p).
Qed.

(** Blanks followed by a pattern that fails wherever it is tried among or
    after the blanks. *)
Lemma rmatch_spaces0_none {R : Type} sp rest p cs
    (k : option char -> jsstring -> captures -> option R) :
  forallb is_space sp = true ->
  starts_with CSpace rest = false ->
  (forall p' w2 cs', forallb is_space w2 = true ->
                     k p' (w2 ++ rest) cs' = None) ->
  rmatch spaces0 p (sp ++ rest) cs k = None.
Proof.
  intros Hsp Hrest Hk. unfold spaces0. rewrite rmatch_star.
  apply star_class_none; auto.
  intros w1 w2 E. apply Hk. rewrite E, forallb_app in Hsp.
  now apply andb_prop in Hsp.
Qed.

Lemma rmatch_spaces1_none {R : Type} sp rest p cs
    (k : option char -> jsstring -> captures -> option R) :
  forallb is_space sp = true ->
  starts_with CSpace rest = false ->
  (forall p' w2 cs', forallb is_space w2 = true ->
                     k p' (w2 ++ rest) cs' = None) ->
  rmatch spaces1 p (sp ++ rest) cs k = None.
Proof.
  intros Hsp Hrest Hk. unfold spaces1, RPlus. rewrite rmatch_seq.
  destruct sp as [|c sp].
  - cbn [app]. destruct rest as [|d rest]; [reflexivity|].
    rewrite rmatch_char. cbn [starts_with] in Hrest. now rewrite Hrest.
  - simpl in Hsp. apply andb_prop in Hsp. destruct Hsp as [Hc Hsp].
    cbn [app]. rewrite rmatch_char. cbn [cclass_matches]. rewrite Hc.
    now apply (rmatch_spaces0_none sp rest).
Qed.

Lemma starts_with_blanks_then cl sp rest :
  forallb is_space sp = true ->
  (forall c, is_space c = true -> cclass_matches cl c = false) ->
  starts_with cl rest = false ->
  starts_with cl (sp ++ rest) = false.
Proof.
  intros Hsp Hcl Hrest. destruct sp as [|c sp]; [exact Hrest|].
  simpl in Hsp |- *. apply andb_prop in Hsp. destruct Hsp as [Hc _]. auto.
Qed.

Lemma starts_with_blanks cl sp rest :
  sp <> [] ->
  forallb is_space sp = true ->
  (forall c, is_space c = true -> cclass_matches cl c = false) ->
  starts_with cl (sp ++ rest) = false.
Proof.
  intros Hne Hsp Hcl. destruct sp as [|c sp]; [contradiction|].
  simpl in Hsp |- *. apply andb_prop in Hsp. destruct Hsp as [Hc _]. auto.
Qed.

Lemma space_not_slash c : is_space c = true -> char_eqb 47%N c = false.
Proof.
  intros H. unfold char_eqb. apply N.eqb_neq. intros <-. discriminate.
Qed.

(** [\b] after a digit text, before a text that does not start with a word
    character. *)
Lemma rmatch_wordb_after_digits {R : Type} p w rest cs (k : @cont R) :
  digit_text w = true ->
  starts_word rest = false ->
  rmatch RWordB (prev_after p w) rest cs k = k (prev_after p w) rest cs.
Proof.
  intros Hw Hrest. destruct (prev_after_digit_text p w Hw) as (c & -> & Hc).
  cbn [rmatch]. unfold at_word_boundary. rewrite (digit_is_word c Hc).
  destruct rest as [|d rest]; [reflexivity|].
  cbn in Hrest. now rewrite Hrest.
Qed.

Lemma firstn_consumed3 (a b c s' : jsstring) :
  firstn (List.length (a ++ b ++ c ++ s') - List.length s') (a ++ b ++ c ++ s')
  = a ++ b ++ c.
Proof.
  replace (a ++ b ++ c ++ s') with ((a ++ b ++ c) ++ s')
    by now rewrite <- !app_assoc.
  apply firstn_consumed.
Qed.

(** The pattern of mixed fractions on "W N/D" followed by text: blanks
    after the whole part, possibly blanks around the slash, and a word
    boundary after the denominator. *)
Lemma exec_mixed_re_leading W sp1 N sp2 sp3 D rest :
  digit_text W = true -> digit_text N = true -> digit_text D = true ->
  sp1 <> [] -> forallb is_space sp1 = true ->
  forallb is_space sp2 = true -> forallb is_space sp3 = true ->
  starts_word rest = false ->
  let q := W ++ sp1 ++ N ++ sp2 ++ str "/" ++ sp3 ++ D in
  exec mixed_re (q ++ rest)
  = Some {| m_before := []; m_0 := q;
            m_groups := [(3%nat, D); (2%nat, N); (1%nat, W)];
            m_after := rest |}.
Proof.
  intros HW HN HD Hne H1 H2 H3 Hrest q. unfold mixed_re. cbn [RSeqs].
  rewrite exec_anchored. unfold match_here.
  rewrite rmatch_seq, rmatch_bol, rmatch_seq.
  subst q. change (str "/") with [47%N]. rewrite <- !app_assoc.
  apply rmatch_group_digits; [exact HW| |].
  { apply starts_with_blanks; [exact Hne|exact H1|exact space_not_digit]. }
  rewrite rmatch_seq.
  apply rmatch_spaces1; [exact Hne|exact H1| |].
  { apply starts_with_digit_text; [exact HN|exact digit_not_space]. }
  rewrite rmatch_seq.
  apply rmatch_group_digits; [exact HN| |].
  { apply starts_with_blanks_then; [exact H2|exact space_not_digit|].
    reflexivity. }
  rewrite rmatch_seq.
  apply rmatch_spaces0; [exact H2|reflexivity|].
  rewrite rmatch_seq. cbn [app]. rewrite rmatch_char. cbn [cclass_matches].
  change (char_eqb 47%N 47%N) with true. cbv iota.
  rewrite rmatch_seq.
  apply rmatch_spaces0; [exact H3| |].
  { apply starts_with_digit_text; [exact HD|exact digit_not_space]. }
  rewrite rmatch_seq.
  apply rmatch_group_digits;
    [exact HD|now apply starts_word_not_digit|].
  rewrite rmatch_wordb_after_digits by assumption.
  f_equal. f_equal.
  change (W ++ sp1 ++ N ++ sp2 ++ 47%N :: sp3 ++ D ++ rest)
    with (W ++ sp1 ++ N ++ sp2 ++ [47%N] ++ sp3 ++ D ++ rest).
  replace (W ++ sp1 ++ N ++ sp2 ++ [47%N] ++ sp3 ++ D ++ rest)
    with ((W ++ sp1 ++ N ++ sp2 ++ [47%N] ++ sp3 ++ D) ++ rest)
    by (rewrite <- !app_assoc; reflexivity).
  apply firstn_consumed.
Qed.

(** The pattern of mixed fractions fails on a digit text followed by blanks
    and then by something that is neither a blank nor a digit. *)
Lemma exec_mixed_re_none_blanks w sp rest :
  forallb is_digit w = true ->
  forallb is_space sp = true ->
  starts_with CSpace rest = false ->
  starts_with CDigit rest = false ->
  exec mixed_re (w ++ sp ++ rest) = None.
Proof.
  intros Hw Hsp Hs Hd. unfold mixed_re. cbn [RSeqs].
  rewrite exec_anchored. unfold match_here.
  rewrite rmatch_seq, rmatch_bol, rmatch_seq.
  apply rmatch_group_digits_none; [exact Hw| |].
  { apply starts_with_blanks_then; [exact Hsp|exact space_not_digit|exact Hd]. }
  intros p' w2 cs' Hw2. rewrite rmatch_seq.
  destruct w2 as [|c w2].
  - cbn [app]. apply rmatch_spaces1_none; [exact Hsp|exact Hs|].
    intros p2 w3 cs2 Hw3. rewrite rmatch_seq, rmatch_group.
    apply digits1_needs_digit.
    apply (starts_with_blanks_then CDigit);
      [exact Hw3|exact space_not_digit|exact Hd].
  - unfold spaces1 at 1. apply rmatch_plus_class_none.
    simpl in Hw2. apply andb_prop in Hw2. destruct Hw2 as [Hc _].
    cbn. now apply digit_not_space.
Qed.

(** The pattern of simple fractions on "N/D" followed by text. *)
Lemma exec_frac_re_leading N sp2 sp3 D rest :
  digit_text N = true -> digit_text D = true ->
  forallb is_space sp2 = true -> forallb is_space sp3 = true ->
  starts_word rest = false ->
  let q := N ++ sp2 ++ str "/" ++ sp3 ++ D in
  exec frac_re (q ++ rest)
  = Some {| m_before := []; m_0 := q;
            m_groups := [(2%nat, D); (1%nat, N)];
            m_after := rest |}.
Proof.
  intros HN HD H2 H3 Hrest q. unfold frac_re. cbn [RSeqs].
  rewrite exec_anchored. unfold match_here.
  rewrite rmatch_seq, rmatch_bol, rmatch_seq.
  subst q. change (str "/") with [47%N]. rewrite <- !app_assoc.
  apply rmatch_group_digits; [exact HN| |].
  { apply starts_with_blanks_then; [exact H2|exact space_not_digit|].
    reflexivity. }
  rewrite rmatch_seq.
  apply rmatch_spaces0; [exact H2|reflexivity|].
  rewrite rmatch_seq. cbn [app]. rewrite rmatch_char. cbn [cclass_matches].
  change (char_eqb 47%N 47%N) with true. cbv iota.
  rewrite rmatch_seq.
  apply rmatch_spaces0; [exact H3| |].
  { apply starts_with_digit_text; [exact HD|exact digit_not_space]. }
  rewrite rmatch_seq.
  apply rmatch_group_digits;
    [exact HD|now apply starts_word_not_digit|].
  rewrite rmatch_wordb_after_digits by assumption.
  f_equal. f_equal.
  change (N ++ sp2 ++ 47%N :: sp3 ++ D ++ rest)
    with (N ++ sp2 ++ [47%N] ++ sp3 ++ D ++ rest).
  replace (N ++ sp2 ++ [47%N] ++ sp3 ++ D ++ rest)
    with ((N ++ sp2 ++ [47%N] ++ sp3 ++ D) ++ rest)
    by (rewrite <- !app_assoc; reflexivity).
  apply firstn_consumed.
Qed.

(** The pattern of simple fractions fails on a digit text followed by
    blanks and then by something that is neither a blank, a digit nor a
    slash. *)
Lemma exec_frac_re_none_blanks w sp rest :
  forallb is_digit w = true ->
  forallb is_space sp = true ->
  starts_with CSpace rest = false ->
  starts_with CDigit rest = false ->
  starts_with (CChar 47%N) rest = false ->
  exec frac_re (w ++ sp ++ rest) = None.
Proof.
  intros Hw Hsp Hs Hd Hsl. unfold frac_re. cbn [RSeqs].
  rewrite exec_anchored. unfold match_here.
  rewrite rmatch_seq, rmatch_bol, rmatch_seq.
  apply rmatch_group_digits_none; [exact Hw| |].
  { apply starts_with_blanks_then; [exact Hsp|exact space_not_digit|exact Hd]. }
  intros p' w2 cs' Hw2. rewrite rmatch_seq.
  destruct w2 as [|c w2].
  - cbn [app]. apply rmatch_spaces0_none; [exact Hsp|exact Hs|].
    intros p2 w3 cs2 Hw3. rewrite rmatch_seq.
    assert (H : starts_with (CChar 47%N) (w3 ++ rest) = false)
      by (apply starts_with_blanks_then;
          [exact Hw3|exact space_not_slash|exact Hsl]).
    destruct (w3 ++ rest) as [|d t]; [reflexivity|].
    rewrite rmatch_char. cbn [starts_with] in H. now rewrite H.
  - simpl in Hw2. apply andb_prop in Hw2. destruct Hw2 as [Hc _].
    unfold spaces0 at 1.
    rewrite rmatch_star_class_skip by (cbn; now apply digit_not_space).
    rewrite rmatch_seq. cbn [app]. rewrite rmatch_char. cbn [cclass_matches].
    now rewrite (digit_not_slash c Hc).
Qed.

(** The pattern of decimals on "W" and on "W.F" followed by text. *)
Lemma exec_dec_re_leading_integer W rest :
  digit_text W = true ->
  starts_with CDigit rest = false ->
  starts_with (CChar 46%N) rest = false ->
  exec dec_re (W ++ rest)
  = Some {| m_before := []; m_0 := W; m_groups := [(1%nat, W)];
            m_after := rest |}.
Proof.
  intros HW Hd Hp. unfold dec_re. cbn [RSeqs].
  rewrite exec_anchored. unfold match_here.
  rewrite rmatch_seq, rmatch_bol, rmatch_group, rmatch_seq.
  apply rmatch_digits; [exact HW|exact Hd|].
  unfold ROpt. rewrite rmatch_alt, rmatch_seq.
  replace (rmatch (RChar (CChar 46%N)) (prev_after None W) rest [] _)
    with (@None rmatch_result).
  - cbn [rmatch]. now rewrite !firstn_consumed.
  - destruct rest as [|c rest]; [reflexivity|].
    rewrite rmatch_char. cbn [starts_with] in Hp. now rewrite Hp.
Qed.

Lemma exec_dec_re_leading_decimal W F rest :
  digit_text W = true -> digit_text F = true ->
  starts_with CDigit rest = false ->
  let q := W ++ str "." ++ F in
  exec dec_re (q ++ rest)
  = Some {| m_before := []; m_0 := q; m_groups := [(1%nat, q)];
            m_after := rest |}.
Proof.
  intros HW HF Hd q. unfold dec_re. cbn [RSeqs].
  rewrite exec_anchored. unfold match_here.
  rewrite rmatch_seq, rmatch_bol, rmatch_group, rmatch_seq.
  subst q. change (str ".") with [46%N]. rewrite <- !app_assoc.
  apply rmatch_digits; [exact HW|reflexivity|].
  unfold ROpt. rewrite rmatch_alt, rmatch_seq. cbn [app].
  rewrite rmatch_char. cbn [cclass_matches].
  change (char_eqb 46%N 46%N) with true. cbv iota.
  erewrite rmatch_digits; [reflexivity|exact HF|exact Hd|].
  change (W ++ 46%N :: F ++ rest) with (W ++ [46%N] ++ F ++ rest).
  replace (W ++ [46%N] ++ F ++ rest) with ((W ++ [46%N] ++ F) ++ rest)
    by (rewrite <- !app_assoc; reflexivity).
  now rewrite !firstn_consumed.
Qed.

(** What follows an integer does not continue it as a quantity: after its
    leading blanks it starts neither with a digit nor with a slash, and it
    does not start with a point. *)
Definition quantity_ends (rest : jsstring) : bool :=
  negb (starts_with_digit (trimStart rest))
  && negb (starts_with (CChar 47%N) (trimStart rest))
  && negb (starts_with (CChar 46%N) rest).

Lemma quantity_ends_split rest :
  quantity_ends rest = true ->
  exists sp rest',
    rest = sp ++ rest' /\ forallb is_space sp = true /\
    starts_with CSpace rest' = false /\
    starts_with CDigit rest' = false /\
    starts_with (CChar 47%N) rest' = false /\
    starts_with CDigit rest = false /\
    starts_with (CChar 46%N) rest = false.
Proof.
  unfold quantity_ends. intros H.
  apply andb_prop in H. destruct H as [H Hp].
  apply andb_prop in H. destruct H as [Hd Hs].
  apply negb_true_iff in Hp, Hd, Hs.
  destruct (trimStart_split rest) as (sp & E & Hsp & Hr).
  exists sp, (trimStart rest).
  repeat split; try assumption.
  rewrite E. apply starts_with_blanks_then;
    [exact Hsp|exact space_not_digit|exact Hd].
Qed.

(** ** [parseQuantityToken] on a leading quantity *)

(** "W N/D" before other text is read as [W + N / D]. *)
Lemma parseQuantityToken_leading_mixed token W sp1 N sp2 sp3 D rest :
  digit_text W = true -> digit_text N = true -> digit_text D = true ->
  sp1 <> [] -> forallb is_space sp1 = true ->
  forallb is_space sp2 = true -> forallb is_space sp3 = true ->
  starts_word rest = false ->
  trim (normalizeFractions token)
  = (W ++ sp1 ++ N ++ sp2 ++ str "/" ++ sp3 ++ D) ++ rest ->
  Number_isFinite (Number W) = true ->
  Number_isFinite (Number N) = true ->
  Number_isFinite (Number D) = true ->
  num_neq (Number D) zero = true ->
  parseQuantityToken token
  = Some (num_add (Number W) (num_div (Number N) (Number D))).
Proof.
  intros HW HN HD Hne H1 H2 H3 Hrest Hs Hw Hn Hd Hz.
  unfold parseQuantityToken. rewrite Hs. unfold parse_mixed.
  rewrite (exec_mixed_re_leading W sp1 N sp2 sp3 D rest) by assumption.
  unfold group_or_empty. cbn [m_groups capture Nat.eqb].
  now rewrite Hw, Hn, Hd, Hz.
Qed.

(** "N/D" before other text is read as [N / D]. *)
Lemma parseQuantityToken_leading_fraction token N sp2 sp3 D rest :
  digit_text N = true -> digit_text D = true ->
  forallb is_space sp2 = true -> forallb is_space sp3 = true ->
  starts_word rest = false ->
  trim (normalizeFractions token) = (N ++ sp2 ++ str "/" ++ sp3 ++ D) ++ rest ->
  Number_isFinite (Number N) = true ->
  Number_isFinite (Number D) = true ->
  num_neq (Number D) zero = true ->
  parseQuantityToken token = Some (num_div (Number N) (Number D)).
Proof.
  intros HN HD H2 H3 Hrest Hs Hn Hd Hz.
  destruct (digit_text_facts N HN) as (_ & HN2 & _).
  unfold parseQuantityToken. rewrite Hs. unfold parse_mixed.
  replace (exec mixed_re ((N ++ sp2 ++ str "/" ++ sp3 ++ D) ++ rest))
    with (@None rmatch_result).
  - unfold parse_frac.
    rewrite (exec_frac_re_leading N sp2 sp3 D rest) by assumption.
    unfold group_or_empty. cbn [m_groups capture Nat.eqb].
    now rewrite Hn, Hd, Hz.
  - symmetry. rewrite <- !app_assoc.
    apply exec_mixed_re_none_blanks; [exact HN2|exact H2| |]; reflexivity.
Qed.

(** "W.F" before other text is read as the decimal [W.F]. *)
Lemma parseQuantityToken_leading_decimal token W F rest :
  digit_text W = true -> digit_text F = true ->
  starts_with_digit rest = false ->
  trim (normalizeFractions token) = (W ++ str "." ++ F) ++ rest ->
  Number_isFinite (Number (W ++ str "." ++ F)) = true ->
  parseQuantityToken token = Some (Number (W ++ str "." ++ F)).
Proof.
  intros HW HF Hrest Hs Hw.
  destruct (digit_text_facts W HW) as (_ & HW2 & _).
  unfold parseQuantityToken. rewrite Hs. unfold parse_mixed.
  replace (exec mixed_re ((W ++ str "." ++ F) ++ rest))
    with (@None rmatch_result)
    by (symmetry; rewrite <- !app_assoc;
        apply exec_mixed_re_none; [exact HW2| |]; reflexivity).
  unfold parse_frac.
  replace (exec frac_re ((W ++ str "." ++ F) ++ rest))
    with (@None rmatch_result)
    by (symmetry; rewrite <- !app_assoc;
        apply exec_frac_re_none; [exact HW2| | |]; reflexivity).
  unfold parse_dec.
  rewrite (exec_dec_re_leading_decimal W F rest) by assumption.
  unfold group_or_empty. cbn [m_groups capture Nat.eqb].
  now rewrite Hw.
Qed.

(** "W" before text that does not continue it is read as the integer. *)
Lemma parseQuantityToken_leading_integer token W rest :
  digit_text W = true ->
  quantity_ends rest = true ->
  trim (normalizeFractions token) = W ++ rest ->
  Number_isFinite (Number W) = true ->
  parseQuantityToken token = Some (Number W).
Proof.
  intros HW Hrest Hs Hw.
  destruct (digit_text_facts W HW) as (_ & HW2 & _).
  destruct (quantity_ends_split rest Hrest)
    as (sp & rest' & E & Hsp & Hr1 & Hr2 & Hr3 & Hr4 & Hr5).
  unfold parseQuantityToken. rewrite Hs. unfold parse_mixed.
  replace (exec mixed_re (W ++ rest)) with (@None rmatch_result)
    by (symmetry; rewrite E; now apply exec_mixed_re_none_blanks).
  unfold parse_frac.
  replace (exec frac_re (W ++ rest)) with (@None rmatch_result)
    by (symmetry; rewrite E; now apply exec_frac_re_none_blanks).
  unfold parse_dec.
  rewrite (exec_dec_re_leading_integer W rest) by assumption.
  unfold group_or_empty. cbn [m_groups capture Nat.eqb].
  now rewrite Hw.
Qed.

(** The decimal pattern alone reads the integer at the start of a text. *)
Lemma parse_dec_leading_integer W rest :
  digit_text W = true ->
  starts_with CDigit rest = false ->
  starts_with (CChar 46%N) rest = false ->
  Number_isFinite (Number W) = true ->
  parse_dec (W ++ rest) = Some (Number W).
Proof.
  intros HW Hd Hp Hw. unfold parse_dec.
  rewrite (exec_dec_re_leading_integer W rest) by assumption.
  unfold group_or_empty. cbn [m_groups capture Nat.eqb]. now rewrite Hw.
Qed.

(** C4.  [parseQuantityToken] rewrites the fraction glyphs to [n/d] between
    blanks and trims the text, then reads a leading mixed fraction, else a
    leading simple fraction, else a leading decimal or integer, whatever
    text follows the quantity.  For digit texts [W], [N], [D] and [F] (the
    parts being finite and the denominator not zero): a text that starts
    with "W N/D" (blanks after W, possibly blanks around the slash, no word
    character after D) is read as [W + N/D], although the decimal pattern
    alone would read the integer [W] there; a text that starts with "N/D"
    is read as [N/D], although the decimal pattern alone would read [N]; a
    text that starts with "W.F" (no digit after F) is read as that decimal;
    and a text that starts with "W" and does not go on with a point, a
    slash, a digit, or blanks and a digit or a slash, is read as the
    integer [W].  On "1/4", "1 1/2", "2.5" and "¾" it gives exactly 1/4,
    3/2, 5/2 and 3/4, and on "1 1/2 cups flour", "3/4 cup", "2.5 kg",
    "1½ cups" and "2 cups" exactly 3/2, 3/4, 5/2, 3/2 and 2.  It gives
    [null] on every text that, once normalized and trimmed, does not start
    with a digit. *)
Theorem parseQuantityToken_spec :
  (exists v, parseQuantityToken (str "1/4") = Some v /\ exactly v 1 4 = true) /\
  (exists v, parseQuantityToken (str "1 1/2") = Some v /\ exactly v 3 2 = true) /\
  (exists v, parseQuantityToken (str "2.5") = Some v /\ exactly v 5 2 = true) /\
  (exists v, parseQuantityToken (str "¾") = Some v /\ exactly v 3 4 = true) /\
  normalizeFractions (str "¾") = str " 3/4 " /\
  (exists v, parseQuantityToken (str "1 1/2 cups flour") = Some v /\
             exactly v 3 2 = true) /\
  (exists v, parseQuantityToken (str "3/4 cup") = Some v /\
             exactly v 3 4 = true) /\
  (exists v, parseQuantityToken (str "2.5 kg") = Some v /\
             exactly v 5 2 = true) /\
  (exists v, parseQuantityToken (str "1½ cups") = Some v /\
             exactly v 3 2 = true) /\
  (exists v, parseQuantityToken (str "2 cups") = Some v /\
             exactly v 2 1 = true) /\
  (forall token W sp1 N sp2 sp3 D rest,
     digit_text W = true -> digit_text N = true -> digit_text D = true ->
     sp1 <> [] -> forallb is_space sp1 = true ->
     forallb is_space sp2 = true -> forallb is_space sp3 = true ->
     starts_word rest = false ->
     trim (normalizeFractions token)
     = (W ++ sp1 ++ N ++ sp2 ++ str "/" ++ sp3 ++ D) ++ rest ->
     Number_isFinite (Number W) = true ->
     Number_isFinite (Number N) = true ->
     Number_isFinite (Number D) = true ->
     num_neq (Number D) zero = true ->
     parseQuantityToken token
     = Some (num_add (Number W) (num_div (Number N) (Number D))) /\
     parse_dec (trim (normalizeFractions token)) = Some (Number W)) /\
  (forall token N sp2 sp3 D rest,
     digit_text N = true -> digit_text D = true ->
     forallb is_space sp2 = true -> forallb is_space sp3 = true ->
     starts_word rest = false ->
     trim (normalizeFractions token)
     = (N ++ sp2 ++ str "/" ++ sp3 ++ D) ++ rest ->
     Number_isFinite (Number N) = true ->
     Number_isFinite (Number D) = true ->
     num_neq (Number D) zero = true ->
     parseQuantityToken token = Some (num_div (Number N) (Number D)) /\
     parse_dec (trim (normalizeFractions token)) = Some (Number N)) /\
  (forall token W F rest,
     digit_text W = true -> digit_text F = true ->
     starts_with_digit rest = false ->
     trim (normalizeFractions token) = (W ++ str "." ++ F) ++ rest ->
     Number_isFinite (Number (W ++ str "." ++ F)) = true ->
     parseQuantityToken token = Some (Number (W ++ str "." ++ F))) /\
  (forall token W rest,
     digit_text W = true ->
     quantity_ends rest = true ->
     trim (normalizeFractions token) = W ++ rest ->
     Number_isFinite (Number W) = true ->
     parseQuantityToken token = Some (Number W)) /\
  (forall W N D,
     digit_text W = true -> digit_text N = true -> digit_text D = true ->
     Number_isFinite (Number W) = true ->
     Number_isFinite (Number N) = true ->
     Number_isFinite (Number D) = true ->
     num_neq (Number D) zero = true ->
     parseQuantityToken (W ++ str " " ++ N ++ str "/" ++ D)
     = Some (num_add (Number W) (num_div (Number N) (Number D)))) /\
  (forall N D,
     digit_text N = true -> digit_text D = true ->
     Number_isFinite (Number N) = true ->
     Number_isFinite (Number D) = true ->
     num_neq (Number D) zero = true ->
     parseQuantityToken (N ++ str "/" ++ D)
     = Some (num_div (Number N) (Number D))) /\
  (forall W,
     digit_text W = true ->
     Number_isFinite (Number W) = true ->
     parseQuantityToken W = Some (Number W)) /\
  (forall W F,
     digit_text W = true -> digit_text F = true ->
     Number_isFinite (Number (W ++ str "." ++ F)) = true ->
     parseQuantityToken (W ++ str "." ++ F)
     = Some (Number (W ++ str "." ++ F))) /\
  (forall token,
     starts_with_digit (trim (normalizeFractions token)) = false ->
     parseQuantityToken token = None).
Proof.
  do 4 (split; [eexists; split; vm_compute; reflexivity|]).
  split; [vm_compute; reflexivity|].
  do 5 (split; [eexists; split; vm_compute; reflexivity|]).
  split.
  { intros token W sp1 N sp2 sp3 D rest HW HN HD Hne H1 H2 H3 Hrest Hs
      Hw Hn Hd Hz.
    split; [now apply (parseQuantityToken_leading_mixed token W sp1 N sp2
                         sp3 D rest)|].
    rewrite Hs, <- !app_assoc.
    apply parse_dec_leading_integer; try assumption;
      apply starts_with_blanks; try assumption;
      [exact space_not_digit|].
    intros c Hc. cbn [cclass_matches]. unfold char_eqb.
    destruct (N.eqb_spec 46 c) as [<-|]; [discriminate|reflexivity]. }
  split.
  { intros token N sp2 sp3 D rest HN HD H2 H3 Hrest Hs Hn Hd Hz.
    split; [now apply (parseQuantityToken_leading_fraction token N sp2 sp3
                         D rest)|].
    rewrite Hs, <- !app_assoc.
    apply parse_dec_leading_integer; try assumption.
    - apply starts_with_blanks_then;
        [exact H2|exact space_not_digit|reflexivity].
    - apply starts_with_blanks_then; [exact H2| |reflexivity].
      intros c Hc. cbn [cclass_matches]. unfold char_eqb.
      destruct (N.eqb_spec 46 c) as [<-|]; [discriminate|reflexivity]. }
  split; [exact parseQuantityToken_leading_decimal|].
  split; [exact parseQuantityToken_leading_integer|].
  split; [exact parseQuantityToken_mixed|].
  split; [exact parseQuantityToken_fraction|].
  split; [exact parseQuantityToken_integer|].
  split; [exact parseQuantityToken_decimal|].
  intros token H. unfold parseQuantityToken.
  now rewrite parse_mixed_needs_digit, parse_frac_needs_digit,
    parse_dec_needs_digit.
Qed.

Lemma parseQuantityToken_spec_witness :
  starts_with_digit (trim (normalizeFractions (str "a pinch"))) = false /\
  parseQuantityToken (str "a pinch") = None /\
  trim (normalizeFractions (str "12⅜ cups of flour"))
  = (str "12" ++ str " " ++ str "3" ++ str "" ++ str "/" ++ str "" ++ str "8")
    ++ str " cups of flour" /\
  parseQuantityToken (str "12⅜ cups of flour")
  = Some (num_add (Number (str "12"))
            (num_div (Number (str "3")) (Number (str "8")))) /\
  parse_dec (trim (normalizeFractions (str "12⅜ cups of flour")))
  = Some (Number (str "12")).
Proof.
  destruct parseQuantityToken_spec
    as (_ & _ & _ & _ & _ & _ & _ & _ & _ & _ & Hmixed & _ & _ & _ & _ & _
        & _ & _ & Hnone).
  assert (Hs : trim (normalizeFractions (str "12⅜ cups of flour"))
               = (str "12" ++ str " " ++ str "3" ++ str "" ++ str "/"
                  ++ str "" ++ str "8") ++ str " cups of flour")
    by (vm_compute; reflexivity).
  split; [vm_compute; reflexivity|].
  split; [apply Hnone; vm_compute; reflexivity|].
  split; [exact Hs|].
  apply (Hmixed (str "12⅜ cups of flour") (str "12") (str " ") (str "3")
           (str "") (str "") (str "8") (str " cups of flour"));
    first [vm_compute; reflexivity | vm_compute; discriminate].
Defined.

(** ** Overflow of a mixed fraction *)

(** The digit 1 followed by [n] zeros: the decimal numeral of 10^n. *)
Definition power_of_ten_text (n : nat) : jsstring := str "1" ++ repeat 48%N n.

(** C9.  On the mixed fraction whose whole part and numerator are both
    10^308 (over the denominator 1) every part is finite and the denominator
    is not zero, so the guards pass, and the sum [whole + num / den]
    overflows: both [parseQuantityToken] and the extractor's
    [parseFirstNumber] return [Infinity]. *)
Theorem parse_mixed_fraction_overflows :
  let token :=
    power_of_ten_text 308 ++ str " " ++ power_of_ten_text 308 ++ str "/1" in
  Number_isFinite (Number (power_of_ten_text 308)) = true /\
  parseQuantityToken token = Some Infinity /\
  Api.parseFirstNumber token = Some Infinity /\
  Number_isFinite Infinity = false.
Proof.
  vm_compute. repeat split.
Qed.

(** ** Signs of binary64 results *)

Lemma shr_1_nonneg mrs : 0 <= shr_m mrs -> 0 <= shr_m (shr_1 mrs).
Proof.
  destruct mrs as [m r s]. destruct m as [|[p|p|]|p]; simpl; lia.
Qed.

Lemma iter_shr_1_nonneg p mrs :
  0 <= shr_m mrs -> 0 <= shr_m (iter_pos shr_1 p mrs).
Proof.
  revert mrs. induction p as [p IH|p IH|]; intros mrs H; simpl.
  - apply IH, IH. now apply shr_1_nonneg.
  - now apply IH, IH.
  - now apply shr_1_nonneg.
Qed.

Lemma shr_fexp_nonneg m e l :
  0 <= m -> 0 <= shr_m (fst (shr_fexp prec emax m e l)).
Proof.
  intros H. unfold shr_fexp, shr.
  assert (H0 : 0 <= shr_m (shr_record_of_loc m l))
    by (destruct l as [|[| |]]; exact H).
  destruct (fexp prec emax (Zdigits2 m + e) - e); simpl; try exact H0.
  now apply iter_shr_1_nonneg.
Qed.

Lemma round_nearest_even_nonneg m l :
  0 <= m -> 0 <= round_nearest_even m l.
Proof.
  intros H. destruct l as [|[| |]]; simpl; try lia.
  destruct (Z.even m); lia.
Qed.

(** A number that is zero of the given sign, or finite or infinite with it. *)
Definition has_sign (s : bool) (x : number) : bool :=
  match x with
  | S754_zero s' | S754_infinity s' | S754_finite s' _ _ => Bool.eqb s s'
  | S754_nan => false
  end.

Lemma binary_round_aux_sign s m e l :
  0 <= m -> has_sign s (binary_round_aux prec emax s m e l) = true.
Proof.
  intros H. unfold binary_round_aux.
  pose proof (shr_fexp_nonneg m e l H) as H1.
  destruct (shr_fexp prec emax m e l) as [mrs' e']. simpl in H1.
  pose proof (shr_fexp_nonneg
                (round_nearest_even (shr_m mrs') (loc_of_shr_record mrs'))
                e' loc_Exact
                (round_nearest_even_nonneg _ _ H1)) as H2.
  destruct (shr_fexp prec emax _ e' loc_Exact) as [mrs'' e'']. simpl in H2.
  destruct (shr_m mrs'') as [|p|p]; simpl.
  - apply eqb_reflx.
  - destruct (e'' <=? emax - prec); simpl; apply eqb_reflx.
  - lia.
Qed.

(** Zero of either sign, or positive. *)
Definition not_negative (x : number) : bool :=
  match x with
  | S754_zero _ => true
  | _ => has_sign false x
  end.

Lemma has_sign_not_negative x : has_sign false x = true -> not_negative x = true.
Proof. destruct x as [[|]|[|]| |[|] ? ?]; simpl; auto. Qed.

Lemma num_of_Z_sign q : 0 <= q -> has_sign false (num_of_Z q) = true.
Proof.
  intros H. unfold num_of_Z, binary_normalize.
  destruct q as [|p|p]; [reflexivity| |lia].
  unfold binary_round.
  destruct (shl_align p 0 _) as [mz ez].
  now apply binary_round_aux_sign.
Qed.

Lemma num_mul_not_negative x my ey :
  not_negative x = true ->
  not_negative (num_mul x (S754_finite false my ey)) = true.
Proof.
  destruct x as [[|]|[|]| |[|] m e]; simpl; try discriminate; intros _;
    try reflexivity.
  apply has_sign_not_negative. now apply binary_round_aux_sign.
Qed.

Lemma num_div_not_negative x my ey :
  not_negative x = true ->
  not_negative (num_div x (S754_finite false my ey)) = true.
Proof.
  destruct x as [[|]|[|]| |[|] m e]; simpl; try discriminate; intros _;
    try reflexivity.
  apply has_sign_not_negative.
  unfold SFdiv_core_binary.
  set (m' := match _ - _ - _ with Z0 => _ | Zpos _ => _ | Zneg _ => _ end).
  assert (Hm : 0 <= m').
  { subst m'. destruct (_ - _ - _); try lia. apply Z.shiftl_nonneg. lia. }
  pose proof (Z_div_mod m' (Zpos my) eq_refl) as Hd.
  destruct (Z.div_eucl m' (Zpos my)) as [q r].
  apply binary_round_aux_sign. nia.
Qed.

Lemma Math_round_not_negative x :
  not_negative x = true -> not_negative (Math_round x) = true.
Proof.
  destruct x as [[|]|[|]| |[|] m e]; simpl; try discriminate; intros _;
    try reflexivity.
  destruct (0 <=? e); [reflexivity|].
  assert (H : 0 <= Z.shiftr (Zpos m~0 + 2 ^ (- e)) (1 - e)).
  { apply Z.shiftr_nonneg. pose proof (Z.pow_nonneg 2 (- e)). lia. }
  destruct (Z.shiftr _ _) as [|q|q] eqn:E; [reflexivity| |lia].
  apply has_sign_not_negative. exact (num_of_Z_sign (Zpos q) H).
Qed.

Lemma num_add_positive x my ey :
  not_negative x = true ->
  has_sign false (num_add x (S754_finite false my ey)) = true.
Proof.
  destruct x as [[|]|[|]| |[|] m e]; simpl; try discriminate; intros _;
    try reflexivity.
  unfold binary_normalize.
  destruct (shl_align m e _) as [m1 e1]. destruct (shl_align my ey _) as [m2 e2].
  simpl. unfold binary_round.
  destruct (shl_align _ _ _) as [mz ez].
  now apply binary_round_aux_sign.
Qed.

Lemma Math_floor_sign x :
  has_sign false x = true -> has_sign false (Math_floor x) = true.
Proof.
  destruct x as [[|]|[|]| |[|] m e]; simpl; try discriminate; intros _;
    try reflexivity.
  destruct (0 <=? e); [reflexivity|].
  assert (H : 0 <= Z.shiftr (Zpos m) (- e)) by (apply Z.shiftr_nonneg; lia).
  destruct (Z.shiftr _ _) as [|q|q] eqn:E; [reflexivity| |lia].
  exact (num_of_Z_sign (Zpos q) H).
Qed.

Lemma not_gt_zero x :
  has_sign false x = true -> num_gt x zero = false -> x = S754_zero false.
Proof.
  destruct x as [[|]|[|]| |[|] m e]; simpl; try discriminate; auto;
    unfold num_gt, SFltb; simpl; discriminate.
Qed.

(** ** [formatQuantity] *)

(** [|v - r| < eps] as the code computes it. *)
Definition within (eps v r : number) : bool :=
  num_lt (Math_abs (num_sub v r)) eps.

(** [Math.round(value * 8) / 8] *)
Definition nearest_eighth (v : number) : number :=
  num_div (Math_round (num_mul v eight)) eight.

(** The decimal fallback: two places, trailing zeros removed. *)
Definition trimmed_decimal (v : number) : jsstring :=
  replace_first trailing_zeros_re (group_or_empty 1)
    (replace_first trailing_point_zeros_re (fun _ => str "")
       (String_of_number (num_div (Math_round (num_mul v hundred)) hundred))).

(** Whether Euclid's loop ends by itself (on a zero or NaN remainder)
    within the given number of iterations. *)
Fixpoint gcd_ends (fuel : nat) (x y : number) : bool :=
  match fuel with
  | O => false
  | S fuel' => if num_truthy y then gcd_ends fuel' y (num_rem x y) else true
  end.

(** When the loop ends by itself, more iterations change nothing. *)
Lemma gcd_loop_ended fuel :
  forall x y more,
    gcd_ends fuel x y = true ->
    gcd_loop (fuel + more) x y = gcd_loop fuel x y.
Proof.
  induction fuel as [|fuel IH]; intros x y more H; [discriminate|].
  simpl in H |- *. destruct (num_truthy y); [now apply IH|reflexivity].
Qed.

(** The numerators 1..7 of the eighths are reduced by [gcd] as the integer
    gcd reduces them, and the loop of [gcd] ends by itself on them. *)
Lemma eighths_reduced (k : Z) :
  1 <= k <= 7 ->
  let g := gcd (num_of_Z k) eight in
  String_of_number (num_div (num_of_Z k) g) = string_of_Z (k / Z.gcd k 8) /\
  String_of_number (num_div eight g) = string_of_Z (8 / Z.gcd k 8) /\
  gcd_ends 6 (Math_abs (num_of_Z k)) (Math_abs eight) = true.
Proof.
  intros H.
  assert (k = 1 \/ k = 2 \/ k = 3 \/ k = 4 \/ k = 5 \/ k = 6 \/ k = 7) as Hk
    by lia.
  destruct Hk as [-> | [-> | [-> | [-> | [-> | [-> | ->]]]]]];
    vm_compute; repeat split; reflexivity.
Qed.

(** C5, as the code has it.  For a finite value [v] that is not negative:
    within 1e-9 of its rounding [r], the rendering is that integer;
    otherwise, within 0.02 of the nearest eighth [e], with
    [whole = floor(e + 1e-9)] and [num0 = round((e - whole) * 8)]: the
    integer [whole] alone when [num0] is zero, else "whole num/den" when
    [whole] is positive and "num/den" when it is zero, where [num/den] is
    [num0/8] divided through by their gcd (for the numerators 1 to 7, the
    fraction in lowest terms); otherwise the decimal rounded to two places
    with the trailing zeros removed.  So 1.5 gives "1 1/2", 3 gives "3" and
    1/3 gives "0.33". *)
Theorem formatQuantity_spec (v : number) :
  Number_isFinite v = true ->
  not_negative v = true ->
  let r := Math_round v in
  let e := nearest_eighth v in
  let whole := Math_floor (num_add e lit_1e_9) in
  let num0 := Math_round (num_mul (num_sub e whole) eight) in
  let g := gcd num0 eight in
  let fraction :=
    String_of_number (num_div num0 g) ++ str "/"
    ++ String_of_number (num_div eight g) in
  (within lit_1e_9 v r = true -> formatQuantity v = String_of_number r) /\
  (within lit_1e_9 v r = false -> within lit_0_02 v e = true ->
     (num_eq num0 zero = true -> formatQuantity v = String_of_number whole) /\
     (num_eq num0 zero = false -> num_gt whole zero = true ->
        formatQuantity v = String_of_number whole ++ str " " ++ fraction) /\
     (num_eq num0 zero = false -> num_gt whole zero = false ->
        whole = zero /\ formatQuantity v = fraction) /\
     (forall k, 1 <= k <= 7 -> num0 = num_of_Z k ->
        fraction = string_of_Z (k / Z.gcd k 8) ++ str "/"
                   ++ string_of_Z (8 / Z.gcd k 8))) /\
  (within lit_1e_9 v r = false -> within lit_0_02 v e = false ->
     formatQuantity v = trimmed_decimal v) /\
  formatQuantity (Number (str "1.5")) = str "1 1/2" /\
  formatQuantity (Number (str "3.0")) = str "3" /\
  formatQuantity (num_div one three) = str "0.33".
Proof.
  intros Hfin Hnn. cbv zeta.
  assert (Hwhole : has_sign false
                     (Math_floor (num_add (nearest_eighth v) lit_1e_9)) = true).
  { apply Math_floor_sign.
    change lit_1e_9 with (S754_finite false 4835703278458517 (-82)).
    apply num_add_positive. unfold nearest_eighth.
    change eight with (S754_finite false 4503599627370496 (-49)).
    now apply num_div_not_negative, Math_round_not_negative,
      num_mul_not_negative. }
  unfold formatQuantity, within, trimmed_decimal.
  fold (nearest_eighth v).
  rewrite Hfin. cbn [negb].
  split; [intros ->; reflexivity|].
  split.
  { intros -> ->. split; [intros ->; reflexivity|].
    split; [intros -> ->; reflexivity|].
    split.
    - intros -> Hw. rewrite Hw.
      split; [|reflexivity]. now apply not_gt_zero.
    - intros k Hk ->.
      destruct (eighths_reduced k Hk) as (-> & -> & _). reflexivity. }
  split; [intros -> ->; reflexivity|].
  vm_compute. repeat split.
Qed.

Lemma formatQuantity_spec_witness :
  Number_isFinite (Number (str "2.75")) = true /\
  not_negative (Number (str "2.75")) = true /\
  formatQuantity (Number (str "2.75")) = str "2 3/4".
Proof.
  split; [reflexivity|]. split; [reflexivity|].
  pose proof (formatQuantity_spec (Number (str "2.75")) eq_refl eq_refl) as H.
  cbv zeta in H.
  destruct H as (_ & H & _).
  destruct (H eq_refl eq_refl) as (_ & H2 & _).
  rewrite (H2 eq_refl eq_refl). vm_compute. reflexivity.
Defined.

(** C5, as the spec words it, fails at 2.01: the value is not within 1e-9 of
    an integer and is within 0.02 of the eighth 16/8, yet the rendering is
    "2", which is neither "whole num/den" nor "num/den" (it has no slash). *)
Lemma formatQuantity_near_whole_eighth :
  let v := Number (str "2.01") in
  Number_isFinite v = true /\
  within lit_1e_9 v (Math_round v) = false /\
  within lit_0_02 v (nearest_eighth v) = true /\
  formatQuantity v = str "2" /\
  existsb (char_eqb 47%N) (formatQuantity v) = false.
Proof.
  vm_compute. repeat split.
Qed.

(** ** [scaleLeadingQuantity] *)

(** C6.  [scaleLeadingQuantity] returns its line unchanged when the
    multiplier is 1 and when it is not finite (NaN or an infinity). *)
Theorem scaleLeadingQuantity_identity (line : jsstring) (multiplier : number) :
  num_eq multiplier one = true \/ Number_isFinite multiplier = false ->
  scaleLeadingQuantity line multiplier = line.
Proof.
  intros H. unfold scaleLeadingQuantity.
  destruct line as [|c line]; [reflexivity|].
  destruct H as [-> | ->]; [|reflexivity].
  now rewrite orb_true_r.
Qed.

Lemma scaleLeadingQuantity_identity_witness :
  (num_eq one one = true \/ Number_isFinite one = false) /\
  (num_eq NaN one = true \/ Number_isFinite NaN = false) /\
  (num_eq Infinity one = true \/ Number_isFinite Infinity = false) /\
  scaleLeadingQuantity (str "2 cups flour") one = str "2 cups flour" /\
  scaleLeadingQuantity (str "2 cups flour") NaN = str "2 cups flour" /\
  scaleLeadingQuantity (str "2 cups flour") Infinity = str "2 cups flour".
Proof.
  assert (H1 : num_eq one one = true \/ Number_isFinite one = false)
    by (left; reflexivity).
  assert (H2 : num_eq NaN one = true \/ Number_isFinite NaN = false)
    by (right; reflexivity).
  assert (H3 : num_eq Infinity one = true \/ Number_isFinite Infinity = false)
    by (right; reflexivity).
  exact (conj H1 (conj H2 (conj H3
           (conj (scaleLeadingQuantity_identity (str "2 cups flour") one H1)
              (conj (scaleLeadingQuantity_identity (str "2 cups flour") NaN H2)
                 (scaleLeadingQuantity_identity (str "2 cups flour") Infinity
                    H3)))))).
Defined.

(** The cases of [scaleLeadingQuantity] for a finite multiplier other
    than 1, read off the match of the pattern on the normalized line. *)
Lemma scaleLeadingQuantity_cases (line : jsstring) (multiplier : number) :
  Number_isFinite multiplier = true ->
  num_eq multiplier one = false ->
  let normalized := normalizeFractions line in
  (exec scale_re normalized = None ->
   scaleLeadingQuantity line multiplier = line) /\
  (forall m, exec scale_re normalized = Some m ->
     let prefix := group_or_empty 1 m in
     let a := group_or_empty 2 m in
     let b := group_or_empty 4 m in
     let rest := group_or_empty 5 m in
     forallb is_space prefix = true /\
     starts_with_digit a = true /\
     forall aNum, parseQuantityToken a = Some aNum ->
       let aScaled := formatQuantity (num_mul aNum multiplier) in
       (b = [] ->
        normalized = prefix ++ a ++ rest /\
        scaleLeadingQuantity line multiplier =
        trim (collapse_spaces (prefix ++ aScaled ++ collapse_spaces rest))) /\
       (forall bNum, b <> [] -> parseQuantityToken b = Some bNum ->
        let bScaled := formatQuantity (num_mul bNum multiplier) in
        exists w1 sep w2,
          In sep range_separators /\
          forallb is_space w1 = true /\ forallb is_space w2 = true /\
          starts_with_digit b = true /\
          normalized = prefix ++ a ++ (w1 ++ sep ++ w2 ++ b) ++ rest /\
          scaleLeadingQuantity line multiplier =
          trim (collapse_spaces
                  (prefix ++ aScaled ++ str " " ++ sep ++ str " " ++ bScaled
                   ++ collapse_spaces rest)))).
Proof.
  intros Hfin Hne normalized.
  assert (Hunfold :
    scaleLeadingQuantity line multiplier =
    match exec scale_re normalized with
    | None => line
    | Some m =>
      match parseQuantityToken (group_or_empty 2 m) with
      | None => line
      | Some aNum =>
        let aScaled := formatQuantity (num_mul aNum multiplier) in
        match group_or_empty 4 m with
        | _ :: _ =>
          match parseQuantityToken (group_or_empty 4 m) with
          | None => group_or_empty 1 m ++ aScaled
                    ++ collapse_spaces (group_or_empty 5 m)
          | Some bNum =>
            trim (collapse_spaces
                    (group_or_empty 1 m ++ aScaled ++ str " "
                     ++ or_else (trim (replace_string (group_or_empty 4 m)
                                         (str "") (group_or_empty 3 m)))
                                (str "-")
                     ++ str " " ++ formatQuantity (num_mul bNum multiplier)
                     ++ collapse_spaces (group_or_empty 5 m)))
          end
        | [] => trim (collapse_spaces
                        (group_or_empty 1 m ++ aScaled
                         ++ collapse_spaces (group_or_empty 5 m)))
        end
      end
    end).
  { unfold scaleLeadingQuantity. rewrite Hfin, Hne. cbn [negb orb].
    destruct line as [|c line]; [|reflexivity].
    subst normalized. vm_compute. reflexivity. }
  split.
  - intros Hnone. now rewrite Hunfold, Hnone.
  - intros m Hm prefix a b rest.
    destruct (scale_re_shape _ _ Hm)
      as (prefix' & a' & suffix' & Hp & Ha & Hs & Hblank & Hdig & Hshape).
    fold prefix in Hp. fold a in Ha. fold rest in Hs. subst prefix' a' suffix'.
    split; [exact Hblank|]. split; [exact Hdig|].
    intros aNum HaNum aScaled.
    rewrite Hunfold, Hm. fold a. rewrite HaNum. cbv zeta.
    fold b. fold prefix. fold rest. fold aScaled.
    split.
    + intros Hb. rewrite Hb.
      split; [|reflexivity].
      destruct Hshape as [[_ Hn] | (w1 & tok & w2 & b' & Hb' & _ & _ & _ & _ & Hd & _)];
        [exact Hn|].
      fold b in Hb'. subst b'. rewrite Hb in Hd. discriminate.
    + intros bNum Hb HbNum.
      destruct Hshape as [[Hb' _] | (w1 & tok & w2 & b' & Hb' & H3 & Hw1 & Hw2 & Htok & Hd & Hn)].
      * fold b in Hb'. contradiction.
      * fold b in Hb'. subst b'.
        exists w1, tok, w2.
        repeat split; try assumption.
        destruct b as [|cb tb] eqn:Eb; [contradiction|].
        rewrite HbNum. rewrite H3.
        now rewrite range_separator_kept.
Qed.


(** ** The scaling pattern on a line that starts with a quantity *)













(** ** The range part *)












(** ** The lines [scaleLeadingQuantity] rewrites *)










(** On the two return paths with parsed quantities the result has
    normalized blanks: every run of blanks is one space and there is none at
    either end. *)
Lemma scaleLeadingQuantity_normalized_when_parsed
    (line : jsstring) (multiplier : number) m aNum :
  Number_isFinite multiplier = true ->
  num_eq multiplier one = false ->
  exec scale_re (normalizeFractions line) = Some m ->
  parseQuantityToken (group_or_empty 2 m) = Some aNum ->
  (group_or_empty 4 m = [] \/
   exists bNum, parseQuantityToken (group_or_empty 4 m) = Some bNum) ->
  blanks_normalized (scaleLeadingQuantity line multiplier) = true.
Proof.
  intros Hfin Hne Hm Ha Hb.
  destruct (scaleLeadingQuantity_cases line multiplier Hfin Hne)
    as (_ & Hspec).
  destruct (Hspec m Hm) as (_ & _ & Hparsed).
  destruct (Hparsed aNum Ha) as [Hsingle Hrange].
  destruct (group_or_empty 4 m) as [|cb tb] eqn:Eb.
  - destruct (Hsingle eq_refl) as [_ ->]. apply trim_collapse_normalized.
  - destruct Hb as [Hb | [bNum Hb]]; [discriminate|].
    destruct (Hrange bNum ltac:(discriminate) Hb)
      as (w1 & sep & w2 & _ & _ & _ & _ & _ & ->).
    apply trim_collapse_normalized.
Qed.


(** C10.  The ingredient line "½-10^309 cups" (the glyph of one half, a
    hyphen, the digit 1 followed by 309 zeros, and " cups") with the
    multiplier 2.  The line is one that [normalizeLines] hands to
    [scaleLeadingQuantity]: it has no blank at either end.  Rewriting the
    glyph puts a blank before "1/2"; the pattern matches the range, the
    first quantity parses, the second one does not (its value is not
    finite), and the code returns the leading blank, the scaled first
    quantity and the rest as they are: the label starts with a blank.  With
    a second quantity that parses, the same line shape is collapsed and
    trimmed, as on every path with parsed quantities
    ([scaleLeadingQuantity_normalized_when_parsed]). *)
Theorem scaleLeadingQuantity_unparsed_second_quantity :
  let line := str "½-" ++ power_of_ten_text 309 ++ str " cups" in
  trim line = line /\
  WebView.normalizeLines (VArr [VStr line]) = Some [line] /\
  Number_isFinite two = true /\
  num_eq two one = false /\
  parseQuantityToken (power_of_ten_text 309) = None /\
  scaleLeadingQuantity line two = str " 1 cups" /\
  WebView.ingredient_labels (VArr [VStr line]) two = Some [str " 1 cups"] /\
  blanks_normalized (scaleLeadingQuantity line two) = false /\
  scaleLeadingQuantity (str "½-3 cups") two = str "1 - 6 cups" /\
  blanks_normalized (scaleLeadingQuantity (str "½-3 cups") two) = true.
Proof.
  cbv zeta.
  assert (E : scaleLeadingQuantity
                (str "½-" ++ power_of_ten_text 309 ++ str " cups") two
              = str " 1 cups") by (vm_compute; reflexivity).
  rewrite E.
  repeat split; vm_compute; reflexivity.
Qed.

(** ** [scaleServingsLabel] *)

(** A recipe of which only the serving fields matter. *)
Definition recipe_with (n : option number) (text : option jsstring) : Recipe :=
  {| id := 1; title := str "Recipe"; sourceUrl := str "https://example.com/";
     sourceHost := None; imageUrl := None; description := None;
     servings := n; servingsText := text;
     ingredients := None; instructions := None;
     scrapeStatus := ok; scrapeError := None; lastScrapedAt := None;
     updatedAt := str "2024-01-01T00:00:00.000Z"; notes := None;
     tags := None |}.

(** The numeric servings, when they are a finite number. *)
Definition finite_servings (recipe : Recipe) : option number :=
  match servings recipe with
  | Some n => if Number_isFinite n then Some n else None
  | None => None
  end.

(** The servings text, trimmed; empty when the field is absent. *)
Definition trimmed_servings_text (recipe : Recipe) : jsstring :=
  trim (match servingsText recipe with Some t => t | None => str "" end).

(** C8, as the code has it.  [scaleServingsLabel] returns [null] exactly
    when the recipe has no finite numeric servings and its servings text is
    empty once trimmed; with finite numeric servings [n] and no text (or a
    blank one) it returns "Serves " followed by [formatQuantity(n *
    multiplier)]; so servings 4 with the multiplier 2 give "Serves 8". *)
Theorem scaleServingsLabel_spec (recipe : Recipe) (multiplier : number) :
  (scaleServingsLabel recipe multiplier = None <->
   finite_servings recipe = None /\ trimmed_servings_text recipe = []) /\
  (forall n,
     finite_servings recipe = Some n ->
     trimmed_servings_text recipe = [] ->
     scaleServingsLabel recipe multiplier =
     Some (str "Serves " ++ formatQuantity (num_mul n multiplier))) /\
  scaleServingsLabel (recipe_with (Some (num_of_Z 4)) None) two
  = Some (str "Serves 8").
Proof.
  unfold scaleServingsLabel, finite_servings, trimmed_servings_text.
  split; [|split].
  - destruct (trim _) as [|c t] eqn:Ht.
    + destruct (servings recipe) as [n|]; [destruct (Number_isFinite n)|];
        split; intros H; try discriminate; try (destruct H; discriminate);
        auto.
    + split; [|intros [_ H]; discriminate].
      destruct (replace_all_st _ _ _ _) as [replaced st].
      destruct (test leading_digit_re _); [discriminate|].
      destruct (test servings_re _ && negb (test serves_re _));
        discriminate.
  - intros n Hn Ht. rewrite Ht.
    destruct (servings recipe) as [n'|]; [|discriminate].
    destruct (Number_isFinite n'); [|discriminate].
    now injection Hn as ->.
  - vm_compute. reflexivity.
Qed.

Lemma scaleServingsLabel_spec_witness :
  let recipe := recipe_with (Some (num_of_Z 6)) (Some (str "  ")) in
  finite_servings recipe = Some (num_of_Z 6) /\
  trimmed_servings_text recipe = [] /\
  scaleServingsLabel recipe two = Some (str "Serves 12").
Proof.
  cbv zeta. split; [reflexivity|]. split; [reflexivity|].
  rewrite (proj1 (proj2 (scaleServingsLabel_spec
                           (recipe_with (Some (num_of_Z 6)) (Some (str "  ")))
                           two))
             (num_of_Z 6) eq_refl eq_refl).
  vm_compute. reflexivity.
Defined.

(** C8, as the spec words it, fails on a servings text made of blanks only:
    the text is not empty, there is no numeric servings value, and the
    result is [null]. *)
Lemma scaleServingsLabel_blank_text :
  let recipe := recipe_with None (Some (str "   ")) in
  servingsText recipe = Some (str "   ") /\
  str "   " <> [] /\
  servings recipe = None /\
  scaleServingsLabel recipe two = None.
Proof.
  cbv zeta. repeat split. vm_compute. discriminate.
Qed.

End WebFacts.

(* ===================================================================== *)
(** * The extractor *)
(* ===================================================================== *)

Section ApiFacts.
Import Api.

(** A sample environment: entities are left alone, the only text that parses
    as JSON is the one-letter text "R" (a recipe node), relative URLs resolve
    against a fixed origin, every text but "not a url" is a well-formed URL,
    and the network answers 404 for the URL "https://example.com/missing",
    200 with a body whose read fails for "https://example.com/cut", and
    otherwise 200 with the page whose HTML is the URL itself. *)
Definition sample_recipe_node : value :=
  VObj [(str "@type", VArr [VStr (str "Thing"); VStr (str "ReCiPe")]);
        (str "name", VStr (str " Apple   pie "));
        (str "recipeYield", VStr (str "4 servings"))].

Definition sample_page (scripts : list jsstring) (og title : jsstring) : Page :=
  {| ld_json_scripts := scripts;
     meta_og_title := match og with [] => None | _ => Some og end;
     title_text := title;
     meta_og_image_secure_url := None;
     meta_og_image := None;
     meta_name_og_image := None;
     meta_name_twitter_image := Some (str "/cover.png");
     meta_twitter_image := None;
     link_image_src := None |}.

Definition sample_env : Env :=
  {| he_decode := fun s => s;
     JSON_parse := fun s => if jsstring_eqb s (str "R")
                            then Some sample_recipe_node else None;
     cheerio_load := fun html =>
       if jsstring_eqb html (str "https://example.com/untitled")
       then sample_page [str "{broken"] (str "") (str "")
       else if jsstring_eqb html (str "https://example.com/pie")
       then sample_page [str "{broken"; str " R "] (str "") (str "Pies")
       else sample_page [] (str "") (str "Plain page");
     URL_new := fun s =>
       if jsstring_eqb s (str "not a url") then None
       else Some {| href := s; hostname := str "example.com" |};
     URL_resolve := fun s _ => Some (str "https://example.com" ++ s);
     fetch := fun s =>
       if jsstring_eqb s (str "https://example.com/missing")
       then fetch_response 404 (Ok (str ""))
       else if jsstring_eqb s (str "https://example.com/cut")
       then fetch_response 200 (Throw (ErrorObject (str "terminated")))
       else fetch_response 200 (Ok s) |}.

Variable env : Env.

(** A script text that [JSON.parse] rejects is skipped, and the texts after
    it are still read. *)
Lemma collect_nodes_skips_malformed before raw after :
  JSON_parse env raw = None ->
  collect_nodes env (before ++ raw :: after)
  = collect_nodes env (before ++ after).
Proof.
  intros H. induction before as [|x before IH]; simpl.
  - now rewrite H.
  - rewrite IH. reflexivity.
Qed.

(** The values that [JSON.parse] returns for the script texts, in order;
    a text that it rejects gives none. *)
Definition parsed_scripts (scripts : list jsstring) : list value :=
  flatMap (fun raw => match JSON_parse env raw with
                      | Some parsed => [parsed]
                      | None => []
                      end) scripts.

Lemma collect_nodes_parsed scripts :
  collect_nodes env scripts = flatMap flattenJsonLd (parsed_scripts scripts).
Proof.
  unfold parsed_scripts.
  induction scripts as [|raw scripts IH]; [reflexivity|].
  cbn [collect_nodes]. rewrite IH.
  destruct (JSON_parse env raw) as [parsed|] eqn:E.
  - change (flatMap ?g (raw :: scripts))
      with (g raw ++ flatMap g scripts).
    cbv beta. rewrite E. reflexivity.
  - change (flatMap ?g (raw :: scripts))
      with (g raw ++ flatMap g scripts).
    cbv beta. rewrite E. reflexivity.
Qed.

(** C2, as the code has it.  [scrapeRecipe] throws in four cases and in no
    other: the source URL cannot be parsed ([new URL] throws "Invalid URL");
    the promise of [fetch] is rejected (its error is rethrown); the response
    has a status outside 200-299 (the error "Fetch failed (status)"); or the
    status is in 200-299 and reading the body fails (the error of
    [res.text()] is rethrown).  It returns a recipe exactly when the URL is
    parsed, the status is in 200-299 and the body is read, and the recipe is
    then the one extracted from the page, whatever the page holds: no case
    is left in which it throws for what the page holds.  Among the
    linked-data texts those that [JSON.parse] rejects are skipped and the
    others are read, in order. *)
Theorem scrapeRecipe_throws (sourceUrl : jsstring) :
  (forall e,
     scrapeRecipe env sourceUrl = Throw e <->
     (URL_new env sourceUrl = None /\ e = ErrorObject (str "Invalid URL")) \/
     (URL_new env sourceUrl <> None /\
      (fetch env sourceUrl = fetch_rejected e \/
       (exists status text,
          fetch env sourceUrl = fetch_response status text /\
          (status < 200 \/ 299 < status) /\
          e = ErrorObject (str "Fetch failed (" ++ string_of_Z status
                           ++ str ")")) \/
       (exists status,
          fetch env sourceUrl = fetch_response status (Throw e) /\
          200 <= status <= 299)))) /\
  (forall r,
     scrapeRecipe env sourceUrl = Ok r <->
     exists url status html,
       URL_new env sourceUrl = Some url /\
       fetch env sourceUrl = fetch_response status (Ok html) /\
       200 <= status <= 299 /\
       r = extract env url html) /\
  (forall scripts,
     collect_nodes env scripts
     = flatMap flattenJsonLd (parsed_scripts scripts)) /\
  (forall before raw after,
     JSON_parse env raw = None ->
     collect_nodes env (before ++ raw :: after)
     = collect_nodes env (before ++ after)).
Proof.
  assert (Hok : forall status,
             response_ok status = true <-> 200 <= status <= 299).
  { intros status. unfold response_ok.
    rewrite andb_true_iff, !Z.leb_le. reflexivity. }
  assert (Hnot : forall status,
             response_ok status = false <-> status < 200 \/ 299 < status).
  { intros status. unfold response_ok.
    rewrite andb_false_iff, !Z.leb_gt. reflexivity. }
  unfold scrapeRecipe.
  split; [|split; [|split]].
  - intros e. split.
    + destruct (URL_new env sourceUrl) as [url|];
        [|intros [= <-]; left; now split].
      intros H. right. split; [discriminate|].
      destruct (fetch env sourceUrl) as [e'|status text].
      * injection H as ->. now left.
      * destruct (response_ok status) eqn:E; cbn [negb] in H.
        -- destruct text as [html|e']; [discriminate|].
           injection H as ->. right. right. exists status.
           split; [reflexivity|]. now apply Hok.
        -- injection H as <-. right. left. exists status, text.
           split; [reflexivity|]. split; [now apply Hnot|reflexivity].
    + intros [[-> ->] | [Hurl H]]; [reflexivity|].
      destruct (URL_new env sourceUrl) as [url|]; [|contradiction].
      destruct H as [-> | [(status & text & -> & Hst & ->) | (status & -> & Hst)]].
      * reflexivity.
      * apply Hnot in Hst. now rewrite Hst.
      * apply Hok in Hst. now rewrite Hst.
  - intros r. split.
    + destruct (URL_new env sourceUrl) as [url|]; [|discriminate].
      destruct (fetch env sourceUrl) as [e'|status text]; [discriminate|].
      destruct (response_ok status) eqn:E; cbn [negb]; [|discriminate].
      destruct text as [html|e']; [|discriminate].
      intros [= <-]. exists url, status, html.
      repeat split; now apply Hok.
    + intros (url & status & html & -> & -> & Hst & ->).
      apply Hok in Hst. now rewrite Hst.
  - apply collect_nodes_parsed.
  - apply collect_nodes_skips_malformed.
Qed.

(** ** The minimal result *)

(** No node of the linked-data scripts declares the type "recipe". *)
Definition no_recipe_node (page : Page) : Prop :=
  forall node,
    In node (collect_nodes env (script_texts page)) ->
    is_recipe_node node = false.

Lemma no_recipe_node_find page :
  no_recipe_node page -> find_recipe_node env page = None.
Proof.
  unfold no_recipe_node, find_recipe_node. intros H.
  destruct (find is_recipe_node _) as [node|] eqn:Hf; [|reflexivity].
  apply find_some in Hf. destruct Hf as [Hin Hr].
  rewrite (H node Hin) in Hr. discriminate.
Qed.

(** The title read from the page: the Open Graph title when it is not empty,
    else the text of the title element when it is not empty, else the
    literal "Untitled recipe"; normalized. *)
Definition page_title_source (page : Page) : jsstring :=
  match meta_og_title page with
  | Some (c :: t) => c :: t
  | _ => match title_text page with
         | c :: t => c :: t
         | [] => str "Untitled recipe"
         end
  end.

Lemma titleFromHtml_source page :
  titleFromHtml env page = normalizeText env (page_title_source page).
Proof.
  unfold titleFromHtml, page_title_source, or_else_title.
  destruct (meta_og_title page) as [[|c t]|]; destruct (title_text page);
    reflexivity.
Qed.

(** C3, as the code has it.  When no linked-data node of the fetched page
    declares the type "recipe" (as a string or inside an array, in any
    letter case), [scrapeRecipe] returns a recipe whose title is the
    normalized Open Graph title, else the normalized page title, else
    "Untitled recipe", whose host is the host name of the URL, whose image
    is the one picked from the meta tags (none in the earlier variant of the
    extractor), and whose description, servings, servings text, ingredients
    and instructions are absent. *)
Theorem scrapeRecipe_minimal_result (sourceUrl : jsstring) (url : URL)
    (status : Z) (html : jsstring) :
  URL_new env sourceUrl = Some url ->
  fetch env sourceUrl = fetch_response status (Ok html) ->
  response_ok status = true ->
  no_recipe_node (cheerio_load env html) ->
  let page := cheerio_load env html in
  let title := normalizeText env (page_title_source page) in
  scrapeRecipe env sourceUrl =
  Ok {| title := title;
        description := None;
        imageUrl := pickMetaImageUrl env page url;
        servings := None;
        servingsText := None;
        ingredients := None;
        instructions := None;
        sourceHost := Some (hostname url) |} /\
  scrapeRecipe_v1 env sourceUrl =
  Ok {| title := title;
        description := None;
        imageUrl := None;
        servings := None;
        servingsText := None;
        ingredients := None;
        instructions := None;
        sourceHost := Some (hostname url) |} /\
  isRecipeType (VStr (str "RECIPE")) = true /\
  isRecipeType (VArr [VStr (str "Thing"); VStr (str "Recipe")]) = true /\
  isRecipeType (VStr (str "Recipes")) = false.
Proof.
  intros Hurl Hfetch Hok Hnone page title.
  unfold scrapeRecipe, scrapeRecipe_v1, extract, extract_v1.
  rewrite Hurl, Hfetch, Hok. cbn [negb].
  rewrite (no_recipe_node_find _ Hnone).
  rewrite titleFromHtml_source. fold page. fold title.
  repeat split.
Qed.

End ApiFacts.

(** On the sample environment: a 404 answer throws, and a page whose first
    linked-data text does not parse still gives the recipe of the second. *)
Lemma scrapeRecipe_throws_sample :
  let missing := str "https://example.com/missing" in
  let pie := str "https://example.com/pie" in
  Api.scrapeRecipe sample_env missing
  = Throw (ErrorObject (str "Fetch failed (404)")) /\
  (exists r, Api.scrapeRecipe sample_env pie = Ok r /\
             Api.title r = str "Apple pie" /\
             Api.servingsText r = Some (str "4 servings")).
Proof.
  cbv zeta.
  pose proof (scrapeRecipe_throws sample_env
                (str "https://example.com/missing"))
    as (Hthrow & _).
  pose proof (scrapeRecipe_throws sample_env (str "https://example.com/pie"))
    as (_ & Hok & _).
  split.
  - apply Hthrow. right. split; [vm_compute; discriminate|]. right. left.
    exists 404, (Ok (str "")).
    split; [vm_compute; reflexivity|]. split; [right; lia|].
    vm_compute. reflexivity.
  - eexists. split.
    + apply Hok.
      exists {| Api.href := str "https://example.com/pie";
                Api.hostname := str "example.com" |}, 200,
        (str "https://example.com/pie").
      split; [vm_compute; reflexivity|].
      split; [vm_compute; reflexivity|]. split; [lia|reflexivity].
    + split; vm_compute; reflexivity.
Defined.

(** C2, as the spec words it, fails on a response with the status 200 whose
    body cannot be read: the fetch resolved with a 2xx status and
    [scrapeRecipe] throws all the same, the error of [res.text()]; and on a
    source text that is no URL it throws before any request is made, so
    that no status is involved at all. *)
Lemma scrapeRecipe_throws_after_2xx :
  let cut := str "https://example.com/cut" in
  Api.fetch sample_env cut
  = Api.fetch_response 200 (Throw (ErrorObject (str "terminated"))) /\
  Api.response_ok 200 = true /\
  Api.scrapeRecipe sample_env cut = Throw (ErrorObject (str "terminated")) /\
  Api.URL_new sample_env (str "not a url") = None /\
  Api.scrapeRecipe sample_env (str "not a url")
  = Throw (ErrorObject (str "Invalid URL")).
Proof.
  cbv zeta. repeat split; vm_compute; reflexivity.
Qed.

Lemma scrapeRecipe_minimal_result_witness :
  let plain := str "https://example.com/plain" in
  no_recipe_node sample_env (Api.cheerio_load sample_env plain) /\
  Api.scrapeRecipe sample_env plain =
  Ok {| Api.title := str "Plain page";
        Api.description := None;
        Api.imageUrl := Some (str "https://example.com/cover.png");
        Api.servings := None;
        Api.servingsText := None;
        Api.ingredients := None;
        Api.instructions := None;
        Api.sourceHost := Some (str "example.com") |}.
Proof.
  cbv zeta.
  assert (Hnone : no_recipe_node sample_env
                    (Api.cheerio_load sample_env
                       (str "https://example.com/plain")))
    by (intros node Hin; vm_compute in Hin; contradiction).
  split; [exact Hnone|].
  assert (Hurl : Api.URL_new sample_env (str "https://example.com/plain")
                 = Some {| Api.href := str "https://example.com/plain";
                           Api.hostname := str "example.com" |})
    by (vm_compute; reflexivity).
  assert (Hfetch : Api.fetch sample_env (str "https://example.com/plain")
                   = Api.fetch_response 200
                       (Ok (str "https://example.com/plain")))
    by (vm_compute; reflexivity).
  rewrite (proj1 (scrapeRecipe_minimal_result sample_env
                    (str "https://example.com/plain")
                    {| Api.href := str "https://example.com/plain";
                       Api.hostname := str "example.com" |}
                    200 (str "https://example.com/plain")
                    Hurl Hfetch eq_refl Hnone)).
  vm_compute. reflexivity.
Defined.

(** C3, as the spec words it, fails on a page with neither an Open Graph
    title nor a title text (and no recipe node: its only linked-data text
    does not parse): the title of the result is "Untitled recipe", which
    comes from neither. *)
Lemma scrapeRecipe_untitled_page :
  let untitled := str "https://example.com/untitled" in
  let page := Api.cheerio_load sample_env untitled in
  no_recipe_node sample_env page /\
  Api.meta_og_title page = None /\
  Api.title_text page = str "" /\
  exists r,
    Api.scrapeRecipe sample_env untitled = Ok r /\
    Api.title r = str "Untitled recipe" /\
    Api.title r <> Api.normalizeText sample_env (Api.title_text page).
Proof.
  cbv zeta. split.
  - intros node Hin. vm_compute in Hin. contradiction.
  - split; [reflexivity|]. split; [reflexivity|].
    eexists. split; [vm_compute; reflexivity|].
    split; [reflexivity|]. vm_compute. discriminate.
Qed.

(* ===================================================================== *)
(** * The re-scrape route *)
(* ===================================================================== *)

Module RoutesFacts.
Import stdpp.base stdpp.gmap.
Import Routes.
Local Open Scope Z_scope.

(** The message the handler records for what the extractor threw. *)
Definition failure_message (e : thrown) : jsstring :=
  match e with
  | ErrorObject m => m
  | OtherThrown => str "Unknown scrape error"
  end.

(** C7, as the code has it.  When the extraction of a re-scrape fails, the
    row of the recipe ends with the status [error], the failure message as
    its scrape error, the time of the attempt as its last scrape time and,
    as after every update, the time of the write as its [updatedAt]; every
    other column is as it was: title, description, image, ingredients,
    instructions, source host, notes and tags (and id, source URL and
    [createdAt]); the other rows of the table are not touched, and the
    answer carries the updated row. *)
Theorem rescrape_failure_keeps_scraped_data (env : Api.Env)
    (written1 written2 now key : Z) (db : gmap Z Recipe) (r : Recipe)
    (e : thrown) :
  db !! key = Some r ->
  Api.scrapeRecipe env (sourceUrl r) = Throw e ->
  exists r',
    rescrape env written1 written2 now (Some key) db
    = (<[key := r']> db, json_recipe 200 r') /\
    scrapeStatus r' = error /\
    scrapeError r' = Some (failure_message e) /\
    lastScrapedAt r' = Some now /\
    updatedAt r' = written2 /\
    title r' = title r /\
    description r' = description r /\
    imageUrl r' = imageUrl r /\
    ingredients r' = ingredients r /\
    instructions r' = instructions r /\
    sourceHost r' = sourceHost r /\
    notes r' = notes r /\
    tags r' = tags r /\
    id r' = id r /\
    sourceUrl r' = sourceUrl r /\
    createdAt r' = createdAt r /\
    forall other, other <> key ->
      fst (rescrape env written1 written2 now (Some key) db) !! other
      = db !! other.
Proof.
  intros Hr Hthrow.
  unfold rescrape, findUnique, update. rewrite Hr.
  rewrite Hthrow. rewrite lookup_insert_eq. cbn [fst].
  eexists. split.
  - rewrite insert_insert_eq. reflexivity.
  - fold (failure_message e). cbn.
    repeat split.
    intros other Hother. rewrite insert_insert_eq.
    now rewrite lookup_insert_ne.
Qed.

(** A table with one recipe whose source answers 404. *)
Definition sample_row : Recipe :=
  {| id := 7; createdAt := 100; updatedAt := 200;
     title := str "Apple pie";
     sourceUrl := str "https://example.com/missing";
     sourceHost := Some (str "example.com");
     imageUrl := Some (str "https://example.com/cover.png");
     description := Some (str "A pie.");
     ingredients := Some [str "3 apples"; str "1 1/2 cups flour"];
     instructions := Some [str "Mix."; str "Bake."];
     scrapeStatus := ok; scrapeError := None; lastScrapedAt := Some 150%Z;
     notes := Some (str "family favourite");
     tags := Some [str "dessert"] |}.

Definition sample_table : gmap Z Recipe := {[ 7 := sample_row ]}.

Lemma rescrape_failure_keeps_scraped_data_witness :
  sample_table !! 7 = Some sample_row /\
  Api.scrapeRecipe sample_env (sourceUrl sample_row)
  = Throw (ErrorObject (str "Fetch failed (404)")) /\
  exists r',
    rescrape sample_env 299 301 300 (Some 7) sample_table
    = (<[7 := r']> sample_table, json_recipe 200 r') /\
    scrapeStatus r' = error /\
    scrapeError r' = Some (str "Fetch failed (404)") /\
    lastScrapedAt r' = Some 300%Z /\
    updatedAt r' = 301 /\
    title r' = str "Apple pie" /\
    ingredients r' = Some [str "3 apples"; str "1 1/2 cups flour"] /\
    notes r' = Some (str "family favourite").
Proof.
  assert (H1 : sample_table !! 7 = Some sample_row) by reflexivity.
  assert (H2 : Api.scrapeRecipe sample_env (sourceUrl sample_row)
               = Throw (ErrorObject (str "Fetch failed (404)")))
    by (vm_compute; reflexivity).
  split; [exact H1|]. split; [exact H2|].
  destruct (rescrape_failure_keeps_scraped_data sample_env 299 301 300 7
              sample_table sample_row _ H1 H2)
    as (r' & Hres & Hst & Herr & Hlast & Hup & Ht & _ & _ & Hi & _ & _ & Hn
        & _).
  exists r'. rewrite Hst, Herr, Hlast, Hup, Ht, Hi, Hn.
  split; [exact Hres|]. repeat split.
Defined.

(** C7, as the spec words it, fails on the column [updatedAt]: after the
    failed re-scrape of the sample row, written at the time 301, the row
    stored and answered has 301 as its [updatedAt], where it had 200; the
    update changed a column besides the status, the error and the last
    scrape time. *)
Lemma rescrape_failure_rewrites_updatedAt :
  sample_table !! 7 = Some sample_row /\
  Api.scrapeRecipe sample_env (sourceUrl sample_row)
  = Throw (ErrorObject (str "Fetch failed (404)")) /\
  exists r',
    rescrape sample_env 299 301 300 (Some 7) sample_table
    = (<[7 := r']> sample_table, json_recipe 200 r') /\
    updatedAt sample_row = 200 /\
    updatedAt r' = 301 /\
    updatedAt r' <> updatedAt sample_row.
Proof.
  split; [reflexivity|]. split; [vm_compute; reflexivity|].
  eexists. split.
  - unfold rescrape, findUnique, update.
    replace (sample_table !! 7) with (Some sample_row) by reflexivity.
    replace (Api.scrapeRecipe sample_env (sourceUrl sample_row))
      with (@Throw Api.ScrapedRecipe
              (ErrorObject (str "Fetch failed (404)")))
      by (vm_compute; reflexivity).
    rewrite lookup_insert_eq, insert_insert_eq. reflexivity.
  - cbn [updatedAt apply_data sample_row]. repeat split. discriminate.
Qed.

End RoutesFacts.

(* ===================================================================== *)
(** * The record store and the routes *)
(* ===================================================================== *)

Lemma char_eqb_eq (a b : char) : char_eqb a b = true <-> a = b.
Proof. unfold char_eqb. apply N.eqb_eq. Qed.

Lemma jsstring_eqb_eq (a b : jsstring) : jsstring_eqb a b = true <-> a = b.
Proof.
  revert b. induction a as [|x a IH]; intros [|y b]; simpl.
  - tauto.
  - split; discriminate.
  - split; discriminate.
  - rewrite andb_true_iff, char_eqb_eq, IH.
    split; [intros [-> ->]; reflexivity | intros [= -> ->]; now split].
Qed.

Lemma jsstring_eqb_refl (a : jsstring) : jsstring_eqb a a = true.
Proof. now apply jsstring_eqb_eq. Qed.

Module HandlersFacts.
Import stdpp.base stdpp.gmap.
Import Routes Handlers.
Local Open Scope Z_scope.

(** [x ?? undefined] written as data: the column keeps its value when the
    scrape found nothing for it. *)
Definition found_or_kept {A : Type} (found kept : option A) : option A :=
  match found with Some v => Some v | None => kept end.

(** Reading the columns of a row that an update has written. *)
Ltac read_columns :=
  cbn [id createdAt updatedAt title sourceUrl sourceHost imageUrl description
       ingredients instructions scrapeStatus scrapeError lastScrapedAt notes
       tags apply_data apply_edit write given found_or_kept
       d_title d_description d_imageUrl d_ingredients d_instructions
       d_sourceHost d_scrapeStatus d_scrapeError d_lastScrapedAt
       e_title e_notes e_tags u_title u_notes u_tags].

Section Router.
Variable env : Api.Env.
Variable zod_message : value -> jsstring.
Variable not_found_message : jsstring.
Variable next_id : gmap Z Recipe -> Z.
Variable written : Z.

(** ** The re-scrape route *)

(** The re-scrape route answers 400 for an id that is no integer and 404
    for an id that no row has, and then leaves the table as it was; for a
    row that exists it answers 200 with the row as it is now stored, whose
    status is no longer pending and whose last scrape time is the time of
    the attempt, whether the extraction succeeded or not.  It creates no
    row, deletes none, and touches no row but the one asked for. *)
Theorem rescrape_answer (written1 written2 now : Z) (id_param : option Z)
    (db : gmap Z Recipe) :
  exists db' answer,
    rescrape env written1 written2 now id_param db = (db', answer) /\
    (forall other, id_param <> Some other -> db' !! other = db !! other) /\
    (forall k, is_Some (db' !! k) <-> is_Some (db !! k)) /\
    match id_param with
    | None => db' = db /\ answer = http_error 400 (str "Invalid id")
    | Some key =>
      match db !! key with
      | None => db' = db /\ answer = http_error 404 (str "Recipe not found")
      | Some r =>
        exists r',
          answer = json_recipe 200 r' /\ db' !! key = Some r' /\
          scrapeStatus r' <> pending /\ lastScrapedAt r' = Some now /\
          id r' = id r /\ sourceUrl r' = sourceUrl r /\
          notes r' = notes r /\ tags r' = tags r
      end
    end.
Proof.
  unfold rescrape, findUnique, update.
  destruct id_param as [key|]; [|now eexists _, _].
  destruct (db !! key) as [r|] eqn:Hr; [|now eexists _, _].
  rewrite lookup_insert_eq.
  assert (Hframe : forall r1 r2 other,
             Some key <> Some other ->
             <[key := r2]> (<[key := r1]> db) !! other = db !! other).
  { intros r1 r2 other Hne.
    rewrite !lookup_insert_ne by congruence. reflexivity. }
  assert (Hdom : forall r1 r2 k,
             is_Some (<[key := r2]> (<[key := r1]> db) !! k)
             <-> is_Some (db !! k)).
  { intros r1 r2 k. destruct (decide (k = key)) as [->|Hne].
    - rewrite lookup_insert_eq, Hr. split; eauto.
    - rewrite !lookup_insert_ne by congruence. reflexivity. }
  destruct (Api.scrapeRecipe env (sourceUrl r)) as [scraped|e].
  - eexists _, _. split; [reflexivity|].
    split; [intros; now apply Hframe|]. split; [apply Hdom|].
    eexists. split; [reflexivity|]. split; [apply lookup_insert_eq|].
    read_columns. now repeat split.
  - eexists _, _. split; [reflexivity|].
    split; [intros; now apply Hframe|]. split; [apply Hdom|].
    eexists. split; [reflexivity|]. split; [apply lookup_insert_eq|].
    read_columns. now repeat split.
Qed.

(** A re-scrape that succeeds stores the scraped title, the status [ok],
    no scrape error and the time of the attempt; description, image,
    ingredients, instructions and source host take what the scrape found and
    keep their stored value when it found nothing; notes and tags are
    kept. *)
Theorem rescrape_success (written1 written2 now key : Z)
    (db : gmap Z Recipe) (r : Recipe) (scraped : Api.ScrapedRecipe) :
  db !! key = Some r ->
  Api.scrapeRecipe env (sourceUrl r) = Ok scraped ->
  exists r',
    rescrape env written1 written2 now (Some key) db
    = (<[key := r']> db, json_recipe 200 r') /\
    title r' = Api.title scraped /\
    scrapeStatus r' = ok /\
    scrapeError r' = None /\
    lastScrapedAt r' = Some now /\
    description r' = found_or_kept (Api.description scraped) (description r) /\
    imageUrl r' = found_or_kept (Api.imageUrl scraped) (imageUrl r) /\
    ingredients r' = found_or_kept (Api.ingredients scraped) (ingredients r) /\
    instructions r'
    = found_or_kept (Api.instructions scraped) (instructions r) /\
    sourceHost r' = found_or_kept (Api.sourceHost scraped) (sourceHost r) /\
    notes r' = notes r /\
    tags r' = tags r /\
    id r' = id r /\
    sourceUrl r' = sourceUrl r.
Proof.
  intros Hr Hok.
  unfold rescrape, findUnique, update. rewrite Hr, lookup_insert_eq.
  cbn [sourceUrl apply_data]. rewrite Hok.
  eexists. split; [now rewrite insert_insert_eq|].
  read_columns.
  destruct (Api.description scraped), (Api.imageUrl scraped),
    (Api.ingredients scraped), (Api.instructions scraped),
    (Api.sourceHost scraped); now repeat split.
Qed.

Definition not_found : reply :=
  {| status := 404; body := error_body (str "Recipe not found") |}.

Definition invalid_id : reply :=
  {| status := 400; body := error_body (str "Invalid id") |}.

(** Deleting a recipe answers [{ ok: true }]; afterwards reading,
    deleting or re-scraping that id answers 404, and every other id reads
    as before. *)
Theorem delete_by_id_removes_the_row (key : Z) (db : gmap Z Recipe)
    (r : Recipe) :
  db !! key = Some r ->
  exists db',
    asyncRoute (delete_by_id (Some key)) db
    = (db', {| status := 200; body := ok_body |}) /\
    asyncRoute (get_by_id (Some key)) db' = (db', not_found) /\
    asyncRoute (delete_by_id (Some key)) db' = (db', not_found) /\
    (forall written1 written2 now,
       rescrape env written1 written2 now (Some key) db'
       = (db', http_error 404 (str "Recipe not found"))) /\
    forall other, other <> key ->
      snd (asyncRoute (get_by_id (Some other)) db')
      = snd (asyncRoute (get_by_id (Some other)) db).
Proof.
  intros Hr. exists (delete key db).
  unfold asyncRoute, delete_by_id, get_by_id, rescrape, findUnique.
  rewrite Hr, lookup_delete_eq. repeat split.
  intros other Hne. rewrite lookup_delete_ne by congruence.
  now destruct (db !! other).
Qed.

(** ** The update route *)

Lemma z_trimmed_string_inv lo hi v t :
  z_trimmed_string lo hi v = Some t ->
  exists s, v = VStr s /\ t = trim s /\
            lo <= Z.of_nat (List.length t) <= hi.
Proof.
  destruct v; try discriminate. simpl.
  destruct ((lo <=? _) && (_ <=? hi)) eqn:Hb; [|discriminate].
  intros [= <-]. apply andb_true_iff in Hb. destruct Hb as [H1 H2].
  apply Z.leb_le in H1, H2. now exists s.
Qed.

(** What [z.array(item).max(n)] accepts. *)
Lemma z_array_inv {A : Type} (item : value -> option A) n v l :
  z_array item n v = Some l ->
  exists items, v = VArr items /\ Z.of_nat (List.length items) <= n /\
                Forall2 (fun x a => item x = Some a) items l.
Proof.
  destruct v; try discriminate. simpl.
  destruct (Z.of_nat (List.length items) <=? n) eqn:Hn; [|discriminate].
  intros H. exists items. split; [reflexivity|].
  split; [now apply Z.leb_le|].
  clear Hn. revert l H.
  induction items as [|x items IH]; simpl; intros l H.
  - injection H as <-. constructor.
  - destruct (item x) as [a|] eqn:Hx; [|discriminate].
    destruct (fold_right _ _ items) as [l'|]; [|discriminate].
    injection H as <-. constructor; [exact Hx | now apply IH].
Qed.

Lemma z_optional_inv {A : Type} (schema : value -> option A) v o :
  z_optional schema v = Some o ->
  (v = VUndefined /\ o = None) \/
  (v <> VUndefined /\ exists a, schema v = Some a /\ o = Some a).
Proof.
  destruct v; simpl;
    try (destruct (schema _) as [a|]; [|discriminate]; intros [= <-];
         right; split; [discriminate | now exists a]).
  intros [= <-]. now left.
Qed.

Lemma z_nullable_inv {A : Type} (schema : value -> option A) v o :
  z_nullable schema v = Some o ->
  (v = VNull /\ o = None) \/
  (v <> VNull /\ exists a, schema v = Some a /\ o = Some a).
Proof.
  destruct v; simpl;
    try (destruct (schema _) as [a|]; [|discriminate]; intros [= <-];
         right; split; [discriminate | now exists a]).
  intros [= <-]. now left.
Qed.

(** The three fields of an update, once read from the body. *)
Definition parsed_fields (pt pn pg : value) : option UpdateBody :=
  match z_optional (z_trimmed_string 1 180) pt,
        z_nullable (z_optional (z_trimmed_string 0 5000)) pn,
        z_nullable (z_optional (z_array (z_trimmed_string 1 32) 25)) pg with
  | Some t, Some n, Some g =>
    Some {| u_title := t;
            u_notes := match n with
                       | None => Some None
                       | Some None => None
                       | Some (Some x) => Some (Some x)
                       end;
            u_tags := match g with
                      | None => Some None
                      | Some None => None
                      | Some (Some x) => Some (Some x)
                      end |}
  | _, _, _ => None
  end.

Lemma updateSchema_parse_fields fields :
  updateSchema_parse (VObj fields)
  = parsed_fields (prop fields (str "title")) (prop fields (str "notes"))
      (prop fields (str "tags")).
Proof. reflexivity. Qed.

(** A tag as the update route stores it: the trimmed text of the tag sent,
    of 1 to 32 code units. *)
Definition stored_tag (sent : value) (t : jsstring) : Prop :=
  exists s, sent = VStr s /\ t = trim s /\
            1 <= Z.of_nat (List.length t) <= 32.

(** An update that passes the validation stores, for each of [title],
    [notes] and [tags] that the body carries, the trimmed text within the
    bounds of the schema ([null] clears notes and tags), keeps a column whose
    key is absent, and changes neither the id, the source URL nor a column
    that a scrape fills; the answer is the row as it is stored. *)
Theorem put_by_id_accepted (key : Z) (fields : list (jsstring * value))
    (db : gmap Z Recipe) (r : Recipe) (b : UpdateBody) :
  db !! key = Some r ->
  updateSchema_parse (VObj fields) = Some b ->
  exists r',
    asyncRoute (put_by_id zod_message not_found_message written (Some key)
                  (VObj fields)) db
    = (<[key := r']> db, {| status := 200; body := recipe_body r' |}) /\
    match prop fields (str "title") with
    | VUndefined => title r' = title r
    | v => exists s, v = VStr s /\ title r' = trim s /\
                     1 <= Z.of_nat (List.length (trim s)) <= 180
    end /\
    match prop fields (str "notes") with
    | VUndefined => notes r' = notes r
    | VNull => notes r' = None
    | v => exists s, v = VStr s /\ notes r' = Some (trim s) /\
                     Z.of_nat (List.length (trim s)) <= 5000
    end /\
    match prop fields (str "tags") with
    | VUndefined => tags r' = tags r
    | VNull => tags r' = None
    | v => exists items l, v = VArr items /\ tags r' = Some l /\
                           Z.of_nat (List.length items) <= 25 /\
                           Forall2 stored_tag items l
    end /\
    id r' = id r /\
    sourceUrl r' = sourceUrl r /\
    sourceHost r' = sourceHost r /\
    imageUrl r' = imageUrl r /\
    description r' = description r /\
    ingredients r' = ingredients r /\
    instructions r' = instructions r /\
    scrapeStatus r' = scrapeStatus r /\
    scrapeError r' = scrapeError r /\
    lastScrapedAt r' = lastScrapedAt r.
Proof.
  intros Hr Hb.
  unfold asyncRoute, put_by_id. rewrite Hb, Hr.
  eexists. split; [reflexivity|].
  rewrite updateSchema_parse_fields in Hb.
  generalize (prop fields (str "title")) (prop fields (str "notes"))
    (prop fields (str "tags")) Hb.
  clear Hb. intros pt pn pg Hb. unfold parsed_fields in Hb.
  destruct (z_optional _ pt) as [t|] eqn:Ht; [|discriminate].
  destruct (z_nullable _ pn) as [n|] eqn:Hn; [|discriminate].
  destruct (z_nullable _ pg) as [g|] eqn:Hg; [|discriminate].
  injection Hb as <-. read_columns.
  split; [|split; [|split; [|repeat split]]].
  - apply z_optional_inv in Ht.
    destruct Ht as [[-> ->] | (Hne & a & Ha & ->)]; [reflexivity|].
    apply z_trimmed_string_inv in Ha.
    destruct Ha as (s & -> & -> & H1).
    exists s. split; [reflexivity|]. split; [|exact H1].
    destruct (trim s); [simpl in H1; lia | reflexivity].
  - apply z_nullable_inv in Hn.
    destruct Hn as [[-> ->] | (Hne & a & Ha & ->)]; [reflexivity|].
    apply z_optional_inv in Ha.
    destruct Ha as [[-> ->] | (Hne' & a' & Ha & ->)]; [reflexivity|].
    apply z_trimmed_string_inv in Ha.
    destruct Ha as (s & -> & -> & H1).
    exists s. repeat split. apply H1.
  - apply z_nullable_inv in Hg.
    destruct Hg as [[-> ->] | (Hne & a & Ha & ->)]; [reflexivity|].
    apply z_optional_inv in Ha.
    destruct Ha as [[-> ->] | (Hne' & l & Ha & ->)]; [reflexivity|].
    apply z_array_inv in Ha.
    destruct Ha as (items & -> & Hlen & Hall).
    exists items, l. repeat split; [exact Hlen|].
    eapply Forall2_impl; [exact Hall|].
    intros x tag Hx. now apply z_trimmed_string_inv in Hx.
Qed.

(** An update of an id that no row has writes nothing and answers 500,
    whatever the body: with the message of the validation when the body is
    rejected, else with the message of the store. *)
Theorem put_by_id_unknown (key : Z) (req_body : value) (db : gmap Z Recipe) :
  db !! key = None ->
  asyncRoute (put_by_id zod_message not_found_message written (Some key) req_body) db
  = (db, {| status := 500;
            body := error_body
                      (match updateSchema_parse req_body with
                       | Some _ => not_found_message
                       | None => zod_message req_body
                       end) |}).
Proof.
  intros Hr. unfold asyncRoute, put_by_id.
  destruct (updateSchema_parse req_body); [now rewrite Hr | reflexivity].
Qed.

(** ** The creation route *)

Lemma findUnique_sourceUrl_Some (db : gmap Z Recipe) url r :
  findUnique_sourceUrl db url = Some r ->
  sourceUrl r = url /\ exists k, db !! k = Some r.
Proof.
  unfold findUnique_sourceUrl. intros H.
  apply find_some in H. destruct H as [Hin Hurl].
  split; [now apply jsstring_eqb_eq|].
  apply in_map_iff in Hin. destruct Hin as ([k r'] & Hr' & Hin).
  simpl in Hr'. subst r'. exists k.
  apply elem_of_map_to_list. now apply list_elem_of_In.
Qed.

Lemma findUnique_sourceUrl_None (db : gmap Z Recipe) url k r :
  findUnique_sourceUrl db url = None ->
  db !! k = Some r -> sourceUrl r <> url.
Proof.
  unfold findUnique_sourceUrl. intros H Hr Hurl.
  assert (Hin : In r (map snd (map_to_list db))).
  { apply in_map_iff. exists (k, r). split; [reflexivity|].
    apply list_elem_of_In. now apply elem_of_map_to_list. }
  apply (find_none _ _ H) in Hin.
  apply jsstring_eqb_eq in Hurl. congruence.
Qed.

(** The row with a source URL is found when no other row has that URL. *)
Lemma findUnique_sourceUrl_insert (db : gmap Z Recipe) key r :
  db !! key = None ->
  findUnique_sourceUrl db (sourceUrl r) = None ->
  findUnique_sourceUrl (<[key := r]> db) (sourceUrl r) = Some r.
Proof.
  intros Hfree Hnone.
  destruct (findUnique_sourceUrl (<[key := r]> db) (sourceUrl r))
    as [r'|] eqn:Hfind.
  - apply findUnique_sourceUrl_Some in Hfind.
    destruct Hfind as (Hurl & k & Hk).
    destruct (decide (k = key)) as [->|Hne].
    + rewrite lookup_insert_eq in Hk. congruence.
    + rewrite lookup_insert_ne in Hk by congruence.
      now apply (findUnique_sourceUrl_None _ _ _ _ Hnone) in Hk.
  - exfalso.
    apply (findUnique_sourceUrl_None _ _ key r Hfind); [|reflexivity].
    apply lookup_insert_eq.
Qed.

(** [body.title ?? fallback] *)
Definition title_or (body : CreateBody) (fallback : jsstring) : jsstring :=
  match c_title body with Some t => t | None => fallback end.

(** Creating a recipe for a source URL that no row has stores one new row,
    pending, under the next id and answers 201 with that id; the other rows
    are as they were; creating again for the same URL stores nothing and
    answers 200 with the same id and [alreadyExists]. *)
Theorem post_recipe_twice (now now' : Z) (body body' : CreateBody)
    (db : gmap Z Recipe) (url : Api.URL) :
  findUnique_sourceUrl db (c_sourceUrl body) = None ->
  Api.URL_new env (c_sourceUrl body) = Some url ->
  db !! next_id db = None ->
  c_sourceUrl body' = c_sourceUrl body ->
  exists db1 r,
    asyncRoute (post_recipe env next_id now body) db
    = (db1, {| status := 201; body := id_body (next_id db) false |}) /\
    asyncRoute (post_recipe env next_id now' body') db1
    = (db1, {| status := 200; body := id_body (next_id db) true |}) /\
    db1 !! next_id db = Some r /\
    id r = next_id db /\
    title r = title_or body (Api.hostname url) /\
    sourceUrl r = c_sourceUrl body /\
    sourceHost r = Some (Api.hostname url) /\
    scrapeStatus r = pending /\
    (forall other, other <> next_id db -> db1 !! other = db !! other).
Proof.
  intros Hnone Hurl Hfree Hsame.
  unfold asyncRoute, post_recipe. rewrite Hnone, Hurl.
  eexists. eexists. split; [reflexivity|].
  rewrite Hsame.
  match goal with
  | |- context [<[?k := ?r]> db] =>
    pose proof (findUnique_sourceUrl_insert db k r Hfree Hnone) as Hfound
  end.
  cbn [sourceUrl] in Hfound. rewrite Hfound.
  split; [reflexivity|].
  split; [apply lookup_insert_eq|].
  repeat split.
  intros other Hne. now rewrite lookup_insert_ne by congruence.
Qed.

(** The message recorded for what the extractor threw. *)
Definition scrape_message (e : thrown) : jsstring :=
  match e with
  | ErrorObject m => m
  | OtherThrown => str "Unknown scrape error"
  end.

(** The scrape started by a creation, on the row that is still there: with
    a scraped recipe the row becomes [ok] and takes the title given at the
    creation, else the scraped title; with a failure the row becomes [error]
    with the message and keeps its title; the other rows are as they were. *)
Theorem scrape_created_row (now : Z) (body : CreateBody) (key : Z)
    (db : gmap Z Recipe) (r : Recipe) :
  db !! key = Some r ->
  exists r',
    scrape_created env not_found_message written now body key db = <[key := r']> db /\
    lastScrapedAt r' = Some now /\
    notes r' = notes r /\ tags r' = tags r /\ sourceUrl r' = sourceUrl r /\
    match Api.scrapeRecipe env (c_sourceUrl body) with
    | Ok scraped =>
      scrapeStatus r' = ok /\ scrapeError r' = None /\
      title r' = title_or body (Api.title scraped)
    | Throw e =>
      scrapeStatus r' = error /\ scrapeError r' = Some (scrape_message e) /\
      title r' = title r /\ description r' = description r /\
      imageUrl r' = imageUrl r /\ ingredients r' = ingredients r /\
      instructions r' = instructions r /\ sourceHost r' = sourceHost r
    end.
Proof.
  intros Hr. unfold scrape_created, update. rewrite Hr.
  destruct (Api.scrapeRecipe env (c_sourceUrl body)) as [scraped|[m|]].
  - eexists. split; [reflexivity|]. read_columns. now repeat split.
  - eexists. split; [reflexivity|]. read_columns. now repeat split.
  - eexists. split; [reflexivity|]. read_columns. now repeat split.
Qed.

(** When the row was deleted before the scrape came back, the scrape
    started by a creation writes nothing, whatever it found. *)
Theorem scrape_created_after_delete (now : Z) (body : CreateBody) (key : Z)
    (db : gmap Z Recipe) :
  db !! key = None ->
  scrape_created env not_found_message written now body key db = db.
Proof.
  intros Hr. unfold scrape_created, update. rewrite Hr.
  now destruct (Api.scrapeRecipe env (c_sourceUrl body)) as [scraped|[m|]].
Qed.

End Router.
(** A table with two recipes, and requests on it. *)
Definition pie_row : Recipe :=
  {| id := 3; createdAt := 50; updatedAt := 60;
     title := str "example.com";
     sourceUrl := str "https://example.com/pie";
     sourceHost := Some (str "example.com");
     imageUrl := None;
     description := Some (str "An old description.");
     ingredients := None; instructions := None;
     scrapeStatus := pending; scrapeError := None; lastScrapedAt := None;
     notes := Some (str "try with pears");
     tags := None |}.

Definition two_rows : gmap Z Recipe :=
  <[3 := pie_row]> RoutesFacts.sample_table.

Definition sample_next_id (db : gmap Z Recipe) : Z :=
  1 + map_fold (fun k _ acc => Z.max k acc) 0 db.

Definition sample_edit : list (jsstring * value) :=
  [(str "title", VStr (str "  Tarte Tatin "));
   (str "notes", VNull);
   (str "tags", VArr [VStr (str " dessert"); VStr (str "autumn ")])].

Lemma delete_by_id_removes_the_row_witness :
  two_rows !! 3 = Some pie_row /\
  exists db',
    asyncRoute (delete_by_id (Some 3)) two_rows
    = (db', {| status := 200; body := ok_body |}) /\
    asyncRoute (get_by_id (Some 3)) db' = (db', not_found) /\
    snd (asyncRoute (get_by_id (Some 7)) db')
    = {| status := 200; body := recipe_body RoutesFacts.sample_row |}.
Proof.
  assert (H : two_rows !! 3 = Some pie_row) by reflexivity.
  split; [exact H|].
  destruct (delete_by_id_removes_the_row sample_env 3 two_rows pie_row H)
    as (db' & Hdel & Hget & _ & _ & Hother).
  exists db'. split; [exact Hdel|]. split; [exact Hget|].
  rewrite (Hother 7) by discriminate. reflexivity.
Defined.

Lemma put_by_id_accepted_witness :
  two_rows !! 3 = Some pie_row /\
  (exists b, updateSchema_parse (VObj sample_edit) = Some b) /\
  exists r',
    asyncRoute (put_by_id (fun _ => str "invalid") (str "no row") 900 (Some 3)
                  (VObj sample_edit)) two_rows
    = (<[3 := r']> two_rows, {| status := 200; body := recipe_body r' |}) /\
    title r' = str "Tarte Tatin" /\
    notes r' = None /\
    tags r' = Some [str "dessert"; str "autumn"] /\
    description r' = Some (str "An old description.") /\
    scrapeStatus r' = pending.
Proof.
  assert (H : two_rows !! 3 = Some pie_row) by reflexivity.
  split; [exact H|].
  destruct (updateSchema_parse (VObj sample_edit)) as [b|] eqn:Hb;
    [|vm_compute in Hb; discriminate].
  split; [now exists b|].
  destruct (put_by_id_accepted (fun _ => str "invalid") (str "no row") 900 3
              sample_edit two_rows pie_row b H Hb)
    as (r' & Hput & Ht & Hn & Hg & _ & _ & _ & _ & Hd & _ & _ & Hs & _).
  exists r'. split; [exact Hput|].
  replace (prop sample_edit (str "title"))
    with (VStr (str "  Tarte Tatin ")) in Ht by (vm_compute; reflexivity).
  replace (prop sample_edit (str "notes")) with VNull in Hn
    by (vm_compute; reflexivity).
  replace (prop sample_edit (str "tags"))
    with (VArr [VStr (str " dessert"); VStr (str "autumn ")]) in Hg
    by (vm_compute; reflexivity).
  cbv beta iota in Ht, Hn, Hg.
  destruct Ht as (s & Hs0 & Ht & _). injection Hs0 as <-.
  destruct Hg as (items & l & Hitems & Hg & _ & Hall). injection Hitems as <-.
  inversion Hall as [|x1 t1 xs1 ts1 H1 Hall1]; subst.
  inversion Hall1 as [|x2 t2 xs2 ts2 H2 Hall2]; subst.
  inversion Hall2; subst.
  destruct H1 as (s1 & Hs1 & -> & _). injection Hs1 as <-.
  destruct H2 as (s2 & Hs2 & -> & _). injection Hs2 as <-.
  rewrite Ht, Hn, Hg, Hd, Hs.
  repeat split; vm_compute; reflexivity.
Defined.

Lemma put_by_id_unknown_witness :
  two_rows !! 4 = None /\
  asyncRoute (put_by_id (fun _ => str "invalid") (str "no row") 900 (Some 4)
                (VObj sample_edit)) two_rows
  = (two_rows, {| status := 500; body := error_body (str "no row") |}).
Proof.
  assert (H : two_rows !! 4 = None) by reflexivity.
  split; [exact H|].
  exact (put_by_id_unknown (fun _ => str "invalid") (str "no row") 900 4
           (VObj sample_edit) two_rows H).
Defined.

Definition sample_create : CreateBody :=
  {| c_sourceUrl := str "https://example.com/tart"; c_title := None |}.

Lemma post_recipe_twice_witness :
  findUnique_sourceUrl two_rows (c_sourceUrl sample_create) = None /\
  two_rows !! sample_next_id two_rows = None /\
  sample_next_id two_rows = 8 /\
  exists db1 r,
    asyncRoute (post_recipe sample_env sample_next_id 500 sample_create)
      two_rows
    = (db1, {| status := 201; body := id_body 8 false |}) /\
    asyncRoute (post_recipe sample_env sample_next_id 600 sample_create) db1
    = (db1, {| status := 200; body := id_body 8 true |}) /\
    db1 !! 8 = Some r /\
    title r = str "example.com" /\
    scrapeStatus r = pending.
Proof.
  assert (H1 : findUnique_sourceUrl two_rows (c_sourceUrl sample_create)
               = None) by (vm_compute; reflexivity).
  assert (H2 : two_rows !! sample_next_id two_rows = None)
    by (vm_compute; reflexivity).
  assert (H3 : sample_next_id two_rows = 8) by (vm_compute; reflexivity).
  split; [exact H1|]. split; [exact H2|]. split; [exact H3|].
  assert (Hurl : Api.URL_new sample_env (c_sourceUrl sample_create)
                 = Some {| Api.href := c_sourceUrl sample_create;
                           Api.hostname := str "example.com" |})
    by (vm_compute; reflexivity).
  destruct (post_recipe_twice sample_env sample_next_id 500 600
              sample_create sample_create two_rows
              {| Api.href := c_sourceUrl sample_create;
                 Api.hostname := str "example.com" |}
              H1 Hurl H2 eq_refl)
    as (db1 & r & Hpost & Hagain & Hr & _ & Ht & _ & _ & Hs & _).
  exists db1, r. rewrite H3 in Hpost, Hagain, Hr.
  split; [exact Hpost|]. split; [exact Hagain|]. split; [exact Hr|].
  split; [exact Ht | exact Hs].
Defined.

Lemma scrape_created_row_witness :
  two_rows !! 3 = Some pie_row /\
  exists r',
    scrape_created sample_env (str "no row") 701 700
      {| c_sourceUrl := sourceUrl pie_row; c_title := None |} 3 two_rows
    = <[3 := r']> two_rows /\
    title r' = str "Apple pie" /\
    scrapeStatus r' = ok /\
    lastScrapedAt r' = Some 700 /\
    notes r' = Some (str "try with pears").
Proof.
  assert (H : two_rows !! 3 = Some pie_row) by reflexivity.
  split; [exact H|].
  destruct (scrape_created_row sample_env (str "no row") 701 700
              {| c_sourceUrl := sourceUrl pie_row; c_title := None |}
              3 two_rows pie_row H)
    as (r' & Hrun & Hlast & Hnotes & _ & _ & Hcase).
  exists r'. split; [exact Hrun|].
  match type of Hcase with
  | match ?x with _ => _ end =>
    destruct x as [scraped|e] eqn:Hscrape;
      [|vm_compute in Hscrape; discriminate]
  end.
  destruct Hcase as (Hs & _ & Ht).
  rewrite Ht, Hs, Hlast, Hnotes.
  vm_compute in Hscrape. injection Hscrape as <-. now repeat split.
Defined.

Lemma scrape_created_after_delete_witness :
  two_rows !! 4 = None /\
  scrape_created sample_env (str "no row") 701 700 sample_create 4 two_rows
  = two_rows.
Proof.
  assert (H : two_rows !! 4 = None) by reflexivity.
  split; [exact H|].
  exact (scrape_created_after_delete sample_env (str "no row") 701 700
           sample_create 4 two_rows H).
Defined.

Lemma rescrape_success_witness :
  two_rows !! 3 = Some pie_row /\
  exists scraped r',
    Api.scrapeRecipe sample_env (sourceUrl pie_row) = Ok scraped /\
    rescrape sample_env 799 801 800 (Some 3) two_rows
    = (<[3 := r']> two_rows, json_recipe 200 r') /\
    title r' = str "Apple pie" /\
    scrapeStatus r' = ok /\
    description r' = Some (str "An old description.") /\
    imageUrl r' = Some (str "https://example.com/cover.png") /\
    notes r' = Some (str "try with pears").
Proof.
  assert (H : two_rows !! 3 = Some pie_row) by reflexivity.
  split; [exact H|].
  destruct (Api.scrapeRecipe sample_env (sourceUrl pie_row))
    as [scraped|e] eqn:Hscrape; [|vm_compute in Hscrape; discriminate].
  destruct (rescrape_success sample_env 799 801 800 3 two_rows pie_row scraped H
              Hscrape)
    as (r' & Hrun & Ht & Hs & _ & _ & Hd & Hi & _ & _ & _ & Hn & _).
  exists scraped, r'. split; [reflexivity|]. split; [exact Hrun|].
  vm_compute in Hscrape. injection Hscrape as <-.
  rewrite Ht, Hs, Hd, Hi, Hn. now repeat split.
Defined.

End HandlersFacts.

(* ===================================================================== *)
(** * The numbers the parsers return *)
(* ===================================================================== *)

Lemma num_div_sign x my ey :
  has_sign false x = true ->
  has_sign false (num_div x (S754_finite false my ey)) = true.
Proof.
  destruct x as [[|]|[|]| |[|] m e]; simpl; try discriminate; intros _;
    try reflexivity.
  unfold SFdiv_core_binary.
  set (m' := match _ - _ - _ with Z0 => _ | Zpos _ => _ | Zneg _ => _ end).
  assert (Hm : 0 <= m').
  { subst m'. destruct (_ - _ - _); try lia. apply Z.shiftl_nonneg. lia. }
  pose proof (Z_div_mod m' (Zpos my) eq_refl) as Hd.
  destruct (Z.div_eucl m' (Zpos my)) as [q r].
  apply binary_round_aux_sign. nia.
Qed.

Lemma num_add_sign x y :
  has_sign false x = true -> has_sign false y = true ->
  has_sign false (num_add x y) = true.
Proof.
  intros Hx Hy.
  destruct y as [[|]|[|]| |[|] my ey]; try discriminate.
  - destruct x as [[|]|[|]| |[|] m e]; try discriminate; reflexivity.
  - destruct x as [[|]|[|]| |[|] m e]; try discriminate; reflexivity.
  - apply num_add_positive. now apply has_sign_not_negative.
Qed.

(** A number that is finite, not zero and of positive sign is a finite
    value. *)
Lemma positive_divisor x :
  has_sign false x = true -> Number_isFinite x = true ->
  num_neq x zero = true ->
  exists m e, x = S754_finite false m e.
Proof.
  destruct x as [[|]|[|]| |[|] m e]; intros Hs Hf Hz;
    try discriminate Hs; try discriminate Hf.
  - discriminate Hz.
  - now exists m, e.
Qed.

(** [Number] of a text is never negative: it is [NaN], zero or positive. *)
Lemma Number_sign s :
  Number_isFinite (Number s) = true -> has_sign false (Number s) = true.
Proof.
  assert (Hratio : forall n d,
             Number_isFinite (round_ratio n d) = true ->
             has_sign false (round_ratio n d) = true).
  { intros [|n|n] [|d|d]; try discriminate; try reflexivity.
    intros _. unfold round_ratio.
    exact (num_div_sign (S754_finite false n 0) d 0 eq_refl). }
  unfold Number.
  destruct (split_at_dot s) as [ip [fp|]].
  - destruct ip; [discriminate|]. destruct fp; [discriminate|].
    destruct (_ && _); [apply Hratio | discriminate].
  - destruct ip; [discriminate|].
    destruct (all_digits _); [apply Hratio | discriminate].
Qed.

(** What a quantity read from a whole part, a numerator and a denominator
    is. *)
Lemma mixed_value_sign W N D :
  Number_isFinite (Number W) && Number_isFinite (Number N)
  && Number_isFinite (Number D) && num_neq (Number D) zero = true ->
  has_sign false (num_add (Number W) (num_div (Number N) (Number D))) = true.
Proof.
  intros H. apply andb_true_iff in H. destruct H as [H Hz].
  apply andb_true_iff in H. destruct H as [H Hd].
  apply andb_true_iff in H. destruct H as [Hw Hn].
  destruct (positive_divisor _ (Number_sign D Hd) Hd Hz) as (m & e & ->).
  apply num_add_sign; [now apply Number_sign|].
  apply num_div_sign. now apply Number_sign.
Qed.

Lemma fraction_value_sign N D :
  Number_isFinite (Number N) && Number_isFinite (Number D)
  && num_neq (Number D) zero = true ->
  has_sign false (num_div (Number N) (Number D)) = true.
Proof.
  intros H. apply andb_true_iff in H. destruct H as [H Hz].
  apply andb_true_iff in H. destruct H as [Hn Hd].
  destruct (positive_divisor _ (Number_sign D Hd) Hd Hz) as (m & e & ->).
  apply num_div_sign. now apply Number_sign.
Qed.

Lemma parse_mixed_sign s v :
  Web.parse_mixed s = Some v -> has_sign false v = true.
Proof.
  unfold Web.parse_mixed. destruct (exec Web.mixed_re s) as [m|]; [|discriminate].
  destruct (_ && _) eqn:Hm; [|discriminate].
  intros [= <-]. now apply mixed_value_sign.
Qed.

Lemma parse_frac_sign s v :
  Web.parse_frac s = Some v -> has_sign false v = true.
Proof.
  unfold Web.parse_frac. destruct (exec Web.frac_re s) as [m|]; [|discriminate].
  destruct (_ && _) eqn:Hm; [|discriminate].
  intros [= <-]. now apply fraction_value_sign.
Qed.

Lemma parse_dec_sign s v :
  Web.parse_dec s = Some v -> has_sign false v = true.
Proof.
  unfold Web.parse_dec. destruct (exec Web.dec_re s) as [m|]; [|discriminate].
  destruct (Number_isFinite _) eqn:Hm; [|discriminate].
  intros [= <-]. now apply Number_sign.
Qed.

Lemma parseQuantityToken_has_sign (token : jsstring) (v : number) :
  Web.parseQuantityToken token = Some v -> has_sign false v = true.
Proof.
  unfold Web.parseQuantityToken.
  destruct (Web.parse_mixed _) eqn:Hm.
  - intros [= <-]. now apply parse_mixed_sign in Hm.
  - destruct (Web.parse_frac _) eqn:Hf.
    + intros [= <-]. now apply parse_frac_sign in Hf.
    + apply parse_dec_sign.
Qed.

(** Whatever [parseQuantityToken] returns is zero, a positive number or
    [Infinity]: never [NaN], never below zero, never the negative zero. *)
Theorem parseQuantityToken_sign (token : jsstring) (v : number) :
  Web.parseQuantityToken token = Some v ->
  v <> NaN /\ num_lt v zero = false /\ v <> S754_zero true /\
  has_sign false v = true.
Proof.
  intros H. apply parseQuantityToken_has_sign in H.
  destruct v as [[|]|[|]| |[|] m e]; try discriminate;
    repeat split; discriminate.
Qed.

(** The number the extractor reads as the servings is of the same kind. *)
Lemma parseFirstNumber_sign (text : jsstring) (v : number) :
  Api.parseFirstNumber text = Some v -> has_sign false v = true.
Proof.
  unfold Api.parseFirstNumber.
  set (s := Api.normalizeFractions text). clearbody s. cbv zeta.
  assert (Hdec : match exec Api.first_dec_re s with
                 | Some dec =>
                   if Number_isFinite (Number (group_or_empty 1 dec))
                   then Some (Number (group_or_empty 1 dec)) else None
                 | None => None
                 end = Some v -> has_sign false v = true).
  { destruct (exec Api.first_dec_re s) as [d|]; [|discriminate].
    destruct (Number_isFinite _) eqn:Hd; [|discriminate].
    intros [= <-]. now apply Number_sign. }
  assert (Hfrac : match
                    match exec Api.first_frac_re s with
                    | Some frac =>
                      if Number_isFinite (Number (group_or_empty 1 frac))
                         && Number_isFinite (Number (group_or_empty 2 frac))
                         && num_neq (Number (group_or_empty 2 frac)) zero
                      then Some (num_div (Number (group_or_empty 1 frac))
                                   (Number (group_or_empty 2 frac)))
                      else None
                    | None => None
                    end
                  with
                  | Some v => Some v
                  | None =>
                    match exec Api.first_dec_re s with
                    | Some dec =>
                      if Number_isFinite (Number (group_or_empty 1 dec))
                      then Some (Number (group_or_empty 1 dec)) else None
                    | None => None
                    end
                  end = Some v -> has_sign false v = true).
  { destruct (exec Api.first_frac_re s) as [f|]; [|exact Hdec].
    destruct (_ && _) eqn:Hf; [|exact Hdec].
    intros [= <-]. now apply fraction_value_sign. }
  destruct (exec Api.first_mixed_re s) as [m|]; [|exact Hfrac].
  destruct (_ && _) eqn:Hm; [|exact Hfrac].
  intros [= <-]. now apply mixed_value_sign.
Qed.

(* ===================================================================== *)
(** * The extractor: what its helpers return *)
(* ===================================================================== *)

(** Induction on values, through the items of arrays and the fields of
    objects. *)
Section ValueInduction.
Variable P : value -> Prop.
Hypothesis P_undefined : P VUndefined.
Hypothesis P_null : P VNull.
Hypothesis P_bool : forall b, P (VBool b).
Hypothesis P_num : forall n, P (VNum n).
Hypothesis P_str : forall s, P (VStr s).
Hypothesis P_arr : forall items, Forall P items -> P (VArr items).
Hypothesis P_obj :
  forall fields, Forall (fun kv => P (snd kv)) fields -> P (VObj fields).

Fixpoint value_induction (v : value) : P v :=
  match v with
  | VUndefined => P_undefined
  | VNull => P_null
  | VBool b => P_bool b
  | VNum n => P_num n
  | VStr s => P_str s
  | VArr items =>
    P_arr items
      ((fix all (l : list value) : Forall P l :=
          match l with
          | [] => @Forall_nil _ P
          | x :: l' => @Forall_cons _ P x l' (value_induction x) (all l')
          end) items)
  | VObj fields =>
    P_obj fields
      ((fix all (l : list (jsstring * value))
          : Forall (fun kv => P (snd kv)) l :=
          match l with
          | [] => @Forall_nil _ _
          | kv :: l' =>
            @Forall_cons _ (fun kv => P (snd kv)) kv l'
              (value_induction (snd kv)) (all l')
          end) fields)
  end.
End ValueInduction.

(** [f(obj[key])] read along the fields is [f] of the property. *)
Lemma prop_with_prop {A : Type} (f : value -> A) (d : A) key fields :
  prop_with f d key fields
  = match prop fields key with VUndefined => d | v => f v end.
Proof.
  induction fields as [|[k v] fields IH]; [reflexivity|].
  simpl. destruct (prop fields key) eqn:Hp; try exact IH.
  destruct (jsstring_eqb k key); [|reflexivity].
  now destruct v.
Qed.

(** A property that is defined is the value of one of the fields. *)
Lemma prop_of_field (P : value -> Prop) fields key :
  Forall (fun kv => P (snd kv)) fields ->
  prop fields key = VUndefined \/ P (prop fields key).
Proof.
  induction 1 as [|[k v] fields Hv _ IH]; [now left|].
  simpl in *. destruct (prop fields key) eqn:Hp;
    try (right; destruct IH as [IH|IH]; [discriminate | exact IH]).
  destruct (jsstring_eqb k key); [now right | now left].
Qed.

Lemma replace_all_unfold r f s :
  replace_all r f s
  = fst (replace_all_loop (S (List.length s)) r
           (fun m (_ : unit) => (f m, tt)) None s tt).
Proof. reflexivity. Qed.

(** Collapsing the blanks leaves no no-break space: it is a blank. *)
Lemma collapse_runs_no_nbsp s :
  forall b,
    forallb (fun c => negb (cclass_matches (CChar 160%N) c))
      (collapse_runs b s) = true.
Proof.
  induction s as [|c s IH]; intros b; [reflexivity|].
  cbn [collapse_runs]. destruct (is_space c) eqn:Hc.
  - destruct b; [apply IH|]. cbn [forallb]. now rewrite IH.
  - cbn [forallb]. rewrite IH, andb_true_r. apply negb_true_iff.
    change (N.eqb 160 c = false). apply N.eqb_neq. intros <-. discriminate.
Qed.

Section ExtractorFacts.
Import Api.
Variable env : Env.

(** [normalizeText] as one pass: the blanks of the decoded text are
    collapsed and the ends are trimmed. *)
Lemma normalizeText_runs v :
  normalizeText env v = trim (collapse_runs false (he_decode env v)).
Proof.
  unfold normalizeText.
  change (replace_all spaces1 (fun _ => str " ") (he_decode env v))
    with (Web.collapse_spaces (he_decode env v)).
  rewrite collapse_spaces_runs, replace_all_unfold.
  unfold nbsp_re. rewrite replace_all_loop_class_none.
  - reflexivity.
  - apply collapse_runs_no_nbsp.
  - apply Nat.lt_succ_diag_r.
Qed.

Lemma normalizeText_blanks v : blanks_normalized (normalizeText env v) = true.
Proof.
  rewrite normalizeText_runs, <- collapse_spaces_runs.
  apply trim_collapse_normalized.
Qed.

(** The text [normalizeText] returns has no blank at either end, and its
    only blanks are single spaces (U+0020) between other code units; the
    second replacement of the function, of the no-break space, never finds
    one, since the first has already replaced every blank. *)
Theorem normalizeText_normalized (v : jsstring) :
  blanks_normalized (normalizeText env v) = true /\
  normalizeText env v
  = trim (replace_all spaces1 (fun _ => str " ") (he_decode env v)).
Proof.
  rewrite normalizeText_runs, <- collapse_spaces_runs.
  split; [apply trim_collapse_normalized | reflexivity].
Qed.

(** A text as the extractor keeps it: not empty, and normalized. *)
Definition clean_text (s : jsstring) : Prop :=
  s <> [] /\ blanks_normalized s = true.

Lemma filter_nonempty_clean (xs : list jsstring) :
  Forall clean_text (filter_nonempty (map (normalizeText env) xs)).
Proof.
  induction xs as [|x xs IH]; [constructor|].
  simpl. destruct (normalizeText env x) eqn:Hx; [exact IH|].
  constructor; [|exact IH].
  split; [discriminate|]. rewrite <- Hx. apply normalizeText_blanks.
Qed.

Lemma filter_nonempty_all (P : jsstring -> Prop) (xs : list jsstring) :
  (forall x, In x xs -> x <> [] -> P x) -> Forall P (filter_nonempty xs).
Proof.
  intros H. apply Forall_forall. intros x Hx.
  apply filter_In in Hx. destruct Hx as [Hin Hne].
  apply H; [exact Hin|]. now destruct x.
Qed.

(** The list [toStringArray] returns is never empty, and each entry is a
    text that is not empty and is normalized: entries that are no strings
    and strings that are blank are dropped, and when nothing is left the
    result is [undefined]. *)
Lemma toStringArray_entries (v : value) (l : list jsstring) :
  toStringArray env v = Some l ->
  l <> [] /\ Forall clean_text l.
Proof.
  destruct v as [| |b|n|s|items|fields]; try discriminate; simpl.
  - destruct (normalizeText env s) as [|c t] eqn:Hs; [discriminate|].
    intros [= <-]. split; [discriminate|].
    constructor; [|constructor].
    split; [discriminate|]. rewrite <- Hs. apply normalizeText_blanks.
  - match goal with
    | |- context [filter_nonempty ?xs] =>
      assert (Hall : Forall clean_text (filter_nonempty xs));
        [|destruct (filter_nonempty xs) as [|x out]; [discriminate|]]
    end.
    + apply filter_nonempty_all. intros x Hin Hne.
      apply in_map_iff in Hin. destruct Hin as (item & <- & _).
      destruct item; try (now elim Hne).
      split; [exact Hne | apply normalizeText_blanks].
    + intros [= <-]. split; [discriminate | exact Hall].
Qed.

(** ** [parseInstructions] *)

(** The text of a step: the step itself when it is a string, its [text]
    when it is an object that has one. *)
Definition step_text (item : value) : option jsstring :=
  match item with
  | VStr s => Some s
  | VObj fields =>
    match prop fields (str "text") with
    | VStr t => Some t
    | _ => None
    end
  | _ => None
  end.

(** The steps an item of an array contributes. *)
Definition item_steps (item : value) : list jsstring :=
  match item with
  | VStr s =>
    let t := normalizeText env s in
    match t with [] => [] | _ :: _ => [t] end
  | VObj fields =>
    match prop fields (str "text") with
    | VStr text =>
      let t := normalizeText env text in
      match t with [] => [] | _ :: _ => [t] end
    | _ =>
      match prop_with (parseInstructions env) None
              (str "itemListElement") fields with
      | Some nested => nested
      | None => []
      end
    end
  | _ => []
  end.

Lemma parseInstructions_array items :
  parseInstructions env (VArr items)
  = let out := flatMap item_steps items in
    match out with [] => None | _ :: _ => Some out end.
Proof. reflexivity. Qed.

(** Steps given as strings or as objects with a [text] are read as the list
    of these texts is: each normalized, the blank ones dropped, and
    [undefined] when none is left. *)
Theorem parseInstructions_steps (items : list value) (texts : list jsstring) :
  Forall2 (fun item t => step_text item = Some t) items texts ->
  parseInstructions env (VArr items) = toStringArray env (VArr (map VStr texts)).
Proof.
  intros Hsteps. rewrite parseInstructions_array.
  unfold toStringArray. rewrite map_map. cbv zeta.
  assert (Heq : flatMap item_steps items
                = filter_nonempty (map (normalizeText env) texts));
    [|now rewrite Heq].
  induction Hsteps as [|item t items texts Ht _ IH]; [reflexivity|].
  cbn [flatMap map filter_nonempty filter]. rewrite IH.
  destruct item as [| |b|n|s|xs|fields]; try discriminate.
  - injection Ht as <-. simpl. now destruct (normalizeText env s).
  - simpl in Ht. unfold item_steps.
    destruct (prop fields (str "text")); try discriminate.
    injection Ht as <-. cbv zeta. now destruct (normalizeText env _).
Qed.

(** The list [parseInstructions] returns is never empty: with no step to
    return the result is [undefined]. *)
Lemma parseInstructions_not_empty (v : value) (l : list jsstring) :
  parseInstructions env v = Some l -> l <> [].
Proof.
  destruct v as [| |b|n|s|items|fields]; try discriminate.
  - destruct b; discriminate.
  - simpl. destruct (num_truthy n); discriminate.
  - simpl. destruct s; [discriminate|]. simpl.
    match goal with
    | |- context [filter_nonempty ?xs] => destruct (filter_nonempty xs)
    end; intros [= <-]; discriminate.
  - rewrite parseInstructions_array. cbv zeta.
    destruct (flatMap item_steps items); [discriminate|].
    intros [= <-]. discriminate.
Qed.

(** A text that is not empty but is blank once normalized is read as one
    step, the empty text: nothing is left of the split, and the normalized
    text itself is returned as the only step. *)
Theorem parseInstructions_blank_text (s : jsstring) :
  s <> [] ->
  normalizeText env s = [] ->
  he_decode env [] = [] ->
  parseInstructions env (VStr s) = Some [[]].
Proof.
  intros Hs Hblank Hdecode.
  destruct s as [|c t]; [now elim Hs|].
  change (parseInstructions env (VStr (c :: t)))
    with (let text := normalizeText env (c :: t) in
          let pieces :=
            filter_nonempty
              (map (normalizeText env) (regex_split steps_re text)) in
          match pieces with [] => Some [text] | _ :: _ => Some pieces end).
  cbv zeta. rewrite Hblank.
  replace (regex_split steps_re []) with [@nil char]
    by (vm_compute; reflexivity).
  cbn [map]. rewrite normalizeText_runs, Hdecode. reflexivity.
Qed.

(** ** [flattenJsonLd] *)

Lemma Forall_flatMap {A B : Type} (P : B -> Prop) (f : A -> list B) xs :
  Forall (fun x => Forall P (f x)) xs -> Forall P (flatMap f xs).
Proof.
  induction 1 as [|x xs Hx _ IH]; [constructor|].
  simpl. apply Forall_app. now split.
Qed.

(** A node as [flattenJsonLd] returns it: an object whose [@graph], if it
    has one, is no array. *)
Definition plain_node (node : value) : Prop :=
  exists fields,
    node = VObj fields /\
    forall items, prop fields (str "@graph") <> VArr items.

(** Every node [flattenJsonLd] returns is an object, and none is an object
    with an array as its [@graph]: arrays and graphs are replaced by the
    nodes they hold, at any depth, and values that are no objects are
    dropped. *)
Theorem flattenJsonLd_nodes (json : value) :
  Forall plain_node (flattenJsonLd json).
Proof.
  induction json as [| |b|n|s|items IH|fields IH] using value_induction.
  - constructor.
  - constructor.
  - simpl. destruct b; constructor.
  - simpl. destruct (num_truthy n); constructor.
  - simpl. destruct s; constructor.
  - change (flattenJsonLd (VArr items)) with (flatMap flattenJsonLd items).
    now apply Forall_flatMap.
  - change (flattenJsonLd (VObj fields))
      with (match prop fields (str "@graph") with
            | VArr _ =>
              prop_with
                (fun g => match g with
                          | VArr items => flatMap flattenJsonLd items
                          | _ => []
                          end)
                [] (str "@graph") fields
            | _ => [VObj fields]
            end).
    rewrite prop_with_prop.
    destruct (prop_of_field (fun v => Forall plain_node (flattenJsonLd v))
                fields (str "@graph") IH) as [Hg|Hg].
    + rewrite Hg. constructor; [|constructor].
      exists fields. split; [reflexivity|]. rewrite Hg. discriminate.
    + destruct (prop fields (str "@graph")) eqn:Hp;
        try (constructor; [|constructor]; exists fields;
             split; [reflexivity | rewrite Hp; discriminate]).
      exact Hg.
Qed.

(** ** [scrapeRecipe]: what a scraped recipe holds *)

(** In every recipe [scrapeRecipe] returns, the title, the description and
    the servings text are normalized texts; the ingredients, when present,
    are a list that is not empty of texts that are not empty and are
    normalized; the instructions, when present, are a list that is not
    empty; the servings, when present, are zero, a positive number or
    [Infinity] and come with a servings text that is not empty; and the
    source host is the host name of the source URL. *)
Theorem scrapeRecipe_result (sourceUrl : jsstring) (r : ScrapedRecipe) :
  scrapeRecipe env sourceUrl = Ok r ->
  blanks_normalized (title r) = true /\
  (forall d, description r = Some d -> blanks_normalized d = true) /\
  (forall t, servingsText r = Some t -> blanks_normalized t = true) /\
  (forall l, ingredients r = Some l -> l <> [] /\ Forall clean_text l) /\
  (forall l, instructions r = Some l -> l <> []) /\
  (forall n, servings r = Some n ->
     has_sign false n = true /\
     exists t, servingsText r = Some t /\ t <> []) /\
  exists url, URL_new env sourceUrl = Some url /\
              sourceHost r = Some (hostname url).
Proof.
  unfold scrapeRecipe.
  destruct (URL_new env sourceUrl) as [url|]; [|discriminate].
  destruct (fetch env sourceUrl) as [e|status [html|e]]; [discriminate| |];
    [|now destruct (negb (response_ok status))].
  destruct (negb (response_ok status)); [discriminate|].
  intros [= <-]. unfold extract.
  set (page := cheerio_load env html). cbv zeta.
  assert (Htitle : blanks_normalized (titleFromHtml env page) = true)
    by apply normalizeText_blanks.
  destruct (find_recipe_node env page) as [[| |b|n|s|items|node]|];
    cbn [title description servingsText ingredients instructions servings
         sourceHost];
    try (split; [exact Htitle|]; repeat (split; [discriminate|]);
         now exists url).
  split.
  { destruct (string_prop node (str "name"));
      [apply normalizeText_blanks | exact Htitle]. }
  split.
  { intros d. destruct (string_prop node (str "description")); simpl;
      [|discriminate]. intros [= <-]. apply normalizeText_blanks. }
  set (servingsRaw :=
         match toFirstString (prop node (str "recipeYield")) with
         | Some s => Some s
         | None => _
         end).
  clearbody servingsRaw.
  split.
  { intros t. destruct servingsRaw as [[|c raw]|]; try discriminate.
    intros [= <-]. apply normalizeText_blanks. }
  split; [apply toStringArray_entries|].
  split; [apply parseInstructions_not_empty|].
  split; [|now exists url].
  intros n. destruct servingsRaw as [[|c raw]|]; try discriminate.
  destruct (normalizeText env (c :: raw)) as [|c' t'] eqn:Ht;
    [discriminate|].
  intros Hn. split; [exact (parseFirstNumber_sign _ _ Hn)|].
  exists (c' :: t'). split; [reflexivity | discriminate].
Qed.

End ExtractorFacts.

Lemma parseQuantityToken_sign_witness :
  exists v,
    Web.parseQuantityToken (str "1 1/2") = Some v /\
    v <> NaN /\ num_lt v zero = false.
Proof.
  destruct (Web.parseQuantityToken (str "1 1/2")) as [v|] eqn:H;
    [|vm_compute in H; discriminate].
  exists v. split; [reflexivity|].
  destruct (parseQuantityToken_sign (str "1 1/2") v H) as (H1 & H2 & _).
  now split.
Defined.

Lemma parseInstructions_steps_witness :
  let items :=
    [VStr (str " Mix the  flour. ");
     VObj [(str "@type", VStr (str "HowToStep"));
           (str "text", VStr (str "Bake."))];
     VStr (str "  ")] in
  let texts := [str " Mix the  flour. "; str "Bake."; str "  "] in
  Forall2 (fun item t => step_text item = Some t) items texts /\
  Api.parseInstructions sample_env (VArr items)
  = Some [str "Mix the flour."; str "Bake."].
Proof.
  cbv zeta.
  match goal with
  | |- ?A /\ _ => assert (H : A) by (repeat constructor)
  end.
  split; [exact H|].
  rewrite (parseInstructions_steps sample_env _ _ H).
  vm_compute. reflexivity.
Defined.

Lemma parseInstructions_blank_text_witness :
  str " " <> [] /\
  Api.normalizeText sample_env (str " ") = [] /\
  Api.he_decode sample_env [] = [] /\
  Api.parseInstructions sample_env (VStr (str " ")) = Some [[]].
Proof.
  assert (H1 : str " " <> []) by (vm_compute; discriminate).
  assert (H2 : Api.normalizeText sample_env (str " ") = [])
    by (vm_compute; reflexivity).
  assert (H3 : Api.he_decode sample_env [] = []) by reflexivity.
  split; [exact H1|]. split; [exact H2|]. split; [exact H3|].
  exact (parseInstructions_blank_text sample_env (str " ") H1 H2 H3).
Defined.

Lemma scrapeRecipe_result_witness :
  exists r,
    Api.scrapeRecipe sample_env (str "https://example.com/pie") = Ok r /\
    Api.title r = str "Apple pie" /\
    blanks_normalized (Api.title r) = true /\
    Api.servingsText r = Some (str "4 servings") /\
    (forall n, Api.servings r = Some n -> has_sign false n = true) /\
    Api.sourceHost r = Some (str "example.com").
Proof.
  destruct (Api.scrapeRecipe sample_env (str "https://example.com/pie"))
    as [r|e] eqn:H; [|vm_compute in H; discriminate].
  exists r. split; [reflexivity|].
  destruct (scrapeRecipe_result sample_env _ r H)
    as (Ht & _ & _ & _ & _ & Hn & _).
  vm_compute in H. injection H as <-.
  split; [reflexivity|]. split; [exact Ht|]. split; [reflexivity|].
  split; [|reflexivity].
  intros n Hs. now apply Hn.
Defined.

(* ===================================================================== *)
(** * The lines of a recipe *)
(* ===================================================================== *)

Section WebViewFacts.
Import WebView.

(** What [trim] returns has no blank at either end. *)
Lemma trim_trimmed s :
  starts_blank (trim s) = false /\ ends_blank (trim s) = false.
Proof.
  unfold trim. split.
  - pose proof (drop_while_starts s) as Hd. fold (trimStart s) in Hd.
    destruct (trimEnd_prefix (trimStart s)) as [x Hx].
    rewrite Hx in Hd.
    destruct (trimEnd (trimStart s)); [reflexivity | exact Hd].
  - unfold ends_blank, trimEnd. rewrite rev_involutive.
    apply drop_while_starts.
Qed.

Lemma trim_idempotent s : trim (trim s) = trim s.
Proof. destruct (trim_trimmed s). now apply trim_clean. Qed.

Lemma drop_while_incl p (s : jsstring) c : In c (drop_while p s) -> In c s.
Proof.
  induction s as [|d s IH]; [easy|].
  simpl. destruct (p d); [right; now apply IH | easy].
Qed.

Lemma trim_incl s c : In c (trim s) -> In c s.
Proof.
  unfold trim, trimEnd, trimStart. intros H.
  apply in_rev, drop_while_incl, in_rev, drop_while_incl in H. exact H.
Qed.

(** A line as the client lists it: not empty, with no blank at either
    end. *)
Definition trimmed_line (l : jsstring) : Prop := l <> [] /\ trim l = l.

Lemma filter_Boolean_trimmed (xs : list jsstring) :
  Forall trimmed_line (filter_Boolean (map trim xs)).
Proof.
  apply Forall_forall. intros l Hl.
  apply filter_In in Hl. destruct Hl as [Hin Hne].
  apply in_map_iff in Hin. destruct Hin as (x & <- & _).
  split; [now destruct (trim x) | apply trim_idempotent].
Qed.

(** The pieces of a split hold no separator. *)
Lemma split_char_pieces sep s :
  Forall (fun piece => ~ In sep piece) (split_char sep s).
Proof.
  induction s as [|c s IH]; simpl.
  - constructor; [easy | constructor].
  - destruct (char_eqb c sep) eqn:Hc.
    + constructor; [easy | exact IH].
    + destruct (split_char sep s) as [|piece rest].
      * constructor; [|constructor].
        intros [->|[]]. unfold char_eqb in Hc. now rewrite N.eqb_refl in Hc.
      * inversion IH as [|? ? Hp Hr]; subst.
        constructor; [|exact Hr].
        intros [->|Hin]; [|now apply Hp].
        unfold char_eqb in Hc. now rewrite N.eqb_refl in Hc.
Qed.

(** Every line [normalizeLines] returns is not empty and has no blank at
    either end; when the value is no array, so that its text is split at
    the line feeds, no line holds a line feed; the steps the client lists,
    once their numbers are stripped, are again not empty and without a
    blank at either end; and [normalizeLines] returns, without throwing,
    for the lists of texts the extractor stores. *)
Theorem normalizeLines_lines (v : value) :
  (forall lines,
     normalizeLines v = Some lines ->
     Forall trimmed_line lines /\
     match v with
     | VArr _ => True
     | _ => Forall (fun l => ~ In 10%N l) lines
     end) /\
  (forall steps,
     instruction_steps v = Some steps -> Forall trimmed_line steps) /\
  (forall texts,
     v = VArr (map VStr texts) ->
     normalizeLines v = Some (filter_Boolean (map trim texts))).
Proof.
  assert (Htext : forall s lines,
             match s with
             | [] => Some []
             | _ :: _ =>
               Some (filter_Boolean (map trim (split_char 10%N s)))
             end = Some lines ->
             Forall trimmed_line lines /\
             Forall (fun l => ~ In 10%N l) lines).
  { intros s lines. destruct s as [|c s]; intros [= <-];
      [split; constructor|].
    split; [apply filter_Boolean_trimmed|].
    apply Forall_forall. intros l Hl.
    apply filter_In in Hl. destruct Hl as [Hin _].
    apply in_map_iff in Hin. destruct Hin as (piece & <- & Hpiece).
    intros H10. apply trim_incl in H10.
    pose proof (split_char_pieces 10%N (c :: s)) as Hall.
    rewrite Forall_forall in Hall. now apply (Hall piece). }
  assert (Hlines : forall lines,
             normalizeLines v = Some lines ->
             Forall trimmed_line lines /\
             match v with
             | VArr _ => True
             | _ => Forall (fun l => ~ In 10%N l) lines
             end).
  { intros lines. unfold normalizeLines.
    destruct (negb (truthy v)).
    - intros [= <-]. destruct v; split; constructor.
    - destruct v as [| |b|n|s|items|fields]; cbv zeta.
      1-5: (destruct (String_of_value _) as [text|]; [|discriminate];
            intros H; now apply Htext in H).
      + destruct (map_String items) as [texts|]; [|discriminate].
        intros [= <-]. split; [apply filter_Boolean_trimmed | exact I].
      + destruct (String_of_value _) as [text|]; [|discriminate].
        intros H. now apply Htext in H. }
  split; [exact Hlines|]. split.
  - intros steps. unfold instruction_steps.
    destruct (normalizeLines v) as [lines|]; [|discriminate].
    intros [= <-]. unfold stripLeadingStepNumber.
    rewrite <- map_map. apply filter_Boolean_trimmed.
  - intros texts ->. clear Hlines. unfold normalizeLines. cbn [truthy negb].
    replace (map_String (map VStr texts)) with (Some texts); [reflexivity|].
    induction texts as [|t texts IH]; [reflexivity|].
    cbn [map map_String String_of_value]. now rewrite <- IH.
Qed.

(** ** [stripLeadingStepNumber] *)

Lemma rmatch_star_class_greedy {R : Type} cl (w rest : jsstring) p cs
    (k : @cont R) v :
  forallb (cclass_matches cl) w = true ->
  starts_with cl rest = false ->
  k (prev_after p w) rest cs = Some v ->
  rmatch (RStar (RChar cl)) p (w ++ rest) cs k = Some v.
Proof.
  intros Hw Hrest Hk. rewrite rmatch_star.
  apply star_class_greedy; auto.
Qed.

Lemma rmatch_empty {R : Type} p s cs (k : @cont R) :
  rmatch REmpty p s cs k = k p s cs.
Proof. reflexivity. Qed.

Lemma exec_step_number_re_digit s m :
  exec step_number_re s = Some m -> exists c, In c s /\ is_digit c = true.
Proof.
  unfold step_number_re. cbn [RSeqs]. rewrite exec_anchored.
  intros H. apply match_here_sound in H.
  destruct H as (_ & _ & p' & H).
  inversion H as [| |? ? ? ? ? pa sa ca ? ? ? Hbol H1| | | | | | | |];
    subst; clear H.
  inversion Hbol; subst; clear Hbol.
  inversion H1 as [| |? ? ? ? ? pb sb cb ? ? ? Hsp H2| | | | | | | |];
    subst; clear H1.
  apply Matches_prefix in Hsp. destruct Hsp as [t1 ->].
  inversion H2 as [| |? ? ? ? ? pc sc cc ? ? ? Hopt H3| | | | | | | |];
    subst; clear H2.
  apply Matches_prefix in Hopt. destruct Hopt as [t2 ->].
  apply Matches_starts_digit in H3. destruct H3 as (c & t & -> & Hc).
  exists c. split; [|exact Hc].
  apply in_or_app. right. apply in_or_app. right. now left.
Qed.

(** A line that holds no digit is only trimmed. *)
Theorem stripLeadingStepNumber_no_digit (s : jsstring) :
  forallb (fun c => negb (is_digit c)) s = true ->
  stripLeadingStepNumber s = trim s.
Proof.
  intros Hs. unfold stripLeadingStepNumber, replace_first.
  destruct (exec step_number_re s) as [m|] eqn:Hm; [|reflexivity].
  apply exec_step_number_re_digit in Hm. destruct Hm as (c & Hin & Hc).
  rewrite forallb_forall in Hs. apply Hs in Hin.
  now rewrite Hc in Hin.
Qed.

(** The word "step" in any letter case. *)
Definition step_word (word : jsstring) : Prop :=
  map ascii_upper word = map ascii_upper (str "step").

(** What may stand before the number of a step: nothing, or the word
    "step" and blanks. *)
Definition step_prefix (x : jsstring) : Prop :=
  x = [] \/
  exists word w, x = word ++ w /\ step_word word /\ forallb is_space w = true.

Lemma step_literal :
  RLitI (str "step")
  = RSeq (RChar (CCharI 115%N))
      (RSeq (RChar (CCharI 116%N))
         (RSeq (RChar (CCharI 101%N)) (RChar (CCharI 112%N)))).
Proof. vm_compute. reflexivity. Qed.

Lemma digit_not_letter x c :
  (97 <= x <= 122)%N -> is_digit c = true ->
  cclass_matches (CCharI x) c = false.
Proof.
  intros Hx Hc. unfold is_digit in Hc.
  apply andb_true_iff in Hc. destruct Hc as [H1 H2].
  apply N.leb_le in H1, H2.
  cbn [cclass_matches]. unfold char_eqb, ascii_upper.
  destruct ((97 <=? x) && (x <=? 122))%N eqn:Hux.
  - destruct ((97 <=? c) && (c <=? 122))%N eqn:Huc.
    + apply andb_true_iff in Huc. destruct Huc as [H3 _].
      apply N.leb_le in H3. lia.
    + apply N.eqb_neq. lia.
  - apply andb_false_iff in Hux.
    destruct Hux as [H|H]; apply N.leb_gt in H; lia.
Qed.

Lemma rmatch_step_word {R : Type} word rest p cs (k : @cont R) v :
  step_word word ->
  k (prev_after p word) rest cs = Some v ->
  rmatch (RLitI (str "step")) p (word ++ rest) cs k = Some v.
Proof.
  unfold step_word. intros Hword Hk.
  replace (map ascii_upper (str "step")) with [83%N; 84%N; 69%N; 80%N]
    in Hword by (vm_compute; reflexivity).
  destruct word as [|a [|b [|c [|d [|e word]]]]]; try discriminate.
  injection Hword as Ha Hb Hc Hd.
  rewrite step_literal. cbn [app].
  rewrite rmatch_seq, rmatch_char. cbn [cclass_matches]. rewrite Ha.
  change (char_eqb (ascii_upper 115%N) 83%N) with true. cbv beta iota.
  rewrite rmatch_seq, rmatch_char. cbn [cclass_matches]. rewrite Hb.
  change (char_eqb (ascii_upper 116%N) 84%N) with true. cbv beta iota.
  rewrite rmatch_seq, rmatch_char. cbn [cclass_matches]. rewrite Hc.
  change (char_eqb (ascii_upper 101%N) 69%N) with true. cbv beta iota.
  rewrite rmatch_char. cbn [cclass_matches]. rewrite Hd.
  change (char_eqb (ascii_upper 112%N) 80%N) with true. cbv beta iota.
  exact Hk.
Qed.

Lemma step_word_starts word rest :
  step_word word -> starts_with CSpace (word ++ rest) = false.
Proof.
  unfold step_word. intros Hword.
  replace (map ascii_upper (str "step")) with [83%N; 84%N; 69%N; 80%N]
    in Hword by (vm_compute; reflexivity).
  destruct word as [|a word]; [discriminate|].
  injection Hword as Ha _. cbn [app starts_with cclass_matches].
  destruct (is_space a) eqn:Hs; [|reflexivity].
  exfalso. revert Ha. unfold ascii_upper.
  assert (Hsmall : a <> 115%N /\ a <> 83%N).
  { split; intros ->; discriminate. }
  destruct ((97 <=? a) && (a <=? 122))%N eqn:Hu; [|tauto].
  apply andb_true_iff in Hu. destruct Hu as [H1 H2].
  apply N.leb_le in H1, H2. lia.
Qed.

Lemma punctuation_not_space p :
  In p (str ").:-") -> is_space p = false /\ is_digit p = false.
Proof.
  replace (str ").:-") with [41%N; 46%N; 58%N; 45%N]
    by (vm_compute; reflexivity).
  intros [<-|[<-|[<-|[<-|[]]]]]; split; reflexivity.
Qed.

(** A line that starts with a number, after blanks and maybe the word
    "step", and then one of the marks [)], [.], [:] and [-], loses all of
    this and the blanks around it: what is left is the rest of the line,
    trimmed. *)
Theorem stripLeadingStepNumber_numbered
    (w0 x d w2 : jsstring) (p : char) (rest : jsstring) :
  forallb is_space w0 = true ->
  step_prefix x ->
  digit_text d = true ->
  forallb is_space w2 = true ->
  In p (str ").:-") ->
  stripLeadingStepNumber (w0 ++ x ++ d ++ w2 ++ p :: rest) = trim rest.
Proof.
  intros Hw0 Hx Hd Hw2 Hp.
  destruct (punctuation_not_space p Hp) as [Hps Hpd].
  destruct (split_run CSpace rest) as (w3 & rest' & -> & Hw3 & Hrest').
  assert (Htrim : trim (w3 ++ rest') = trim rest').
  { unfold trim, trimStart. now rewrite drop_while_app_all. }
  rewrite Htrim.
  assert (Hdigit : starts_with CSpace (d ++ w2 ++ p :: w3 ++ rest') = false).
  { apply starts_with_digit_text; [exact Hd | exact digit_not_space]. }
  assert (Hmark : starts_with CSpace (p :: w3 ++ rest') = false)
    by exact Hps.
  assert (Hafter : starts_with CDigit (w2 ++ p :: w3 ++ rest') = false).
  { destruct w2 as [|c w2]; [exact Hpd|].
    simpl in Hw2. apply andb_true_iff in Hw2. destruct Hw2 as [Hc _].
    cbn [app starts_with cclass_matches]. now apply space_not_digit. }
  assert (Hclass : cclass_matches (COneOf (str ").:-")) p = true).
  { cbn [cclass_matches]. apply existsb_exists. exists p.
    split; [exact Hp | apply N.eqb_refl]. }
  (* the match from the number on, for any continuation that succeeds at
     the end *)
  assert (Htail : forall prev cs (k : @cont rmatch_result) v,
             (forall q, k q rest' cs = Some v) ->
             rmatch (RSeq digits1
                       (RSeq spaces0
                          (RSeq (RChar (COneOf (str ").:-"))) spaces0)))
               prev (d ++ w2 ++ p :: w3 ++ rest') cs k = Some v).
  { intros prev cs k v Hk. rewrite rmatch_seq.
    apply rmatch_digits; [exact Hd | exact Hafter |].
    rewrite rmatch_seq. unfold spaces0 at 1.
    apply rmatch_star_class_greedy; [exact Hw2 | exact Hmark |].
    rewrite rmatch_seq, rmatch_char, Hclass. unfold spaces0.
    apply rmatch_star_class_greedy; [exact Hw3 | exact Hrest' | apply Hk]. }
  assert (Hdone : forall line,
             (exists m0 cs0,
                rmatch (RSeq RBol
                          (RSeq spaces0
                             (RSeq (ROpt (RSeq (RLitI (str "step")) spaces0))
                                (RSeq digits1
                                   (RSeq spaces0
                                      (RSeq (RChar (COneOf (str ").:-")))
                                         spaces0))))))
                  None line []
                  (fun _ s' cs =>
                     Some {| m_before := [];
                             m_0 := firstn (List.length line - List.length s')
                                      line;
                             m_groups := cs;
                             m_after := s' |})
                = Some {| m_before := []; m_0 := m0; m_groups := cs0;
                          m_after := rest' |}) ->
             stripLeadingStepNumber line = trim rest').
  { intros line (m0 & cs0 & Hm).
    unfold stripLeadingStepNumber, replace_first, step_number_re.
    cbn [RSeqs]. rewrite exec_anchored. unfold match_here.
    now rewrite Hm. }
  apply Hdone. clear Hdone.
  rewrite rmatch_seq, rmatch_bol, rmatch_seq. unfold spaces0 at 1.
  destruct Hx as [->|(word & w1 & -> & Hword & Hw1)].
  - destruct d as [|c d']; [discriminate|].
    assert (Hc : is_digit c = true).
    { simpl in Hd. now apply andb_true_iff in Hd. }
    eexists _, _. cbn [app].
    apply rmatch_star_class_greedy; [exact Hw0 | exact Hdigit |].
    rewrite rmatch_seq. unfold ROpt. rewrite rmatch_alt.
    rewrite rmatch_seq, step_literal, rmatch_seq. cbn [app].
    rewrite rmatch_char, (digit_not_letter 115%N c) by (try lia; exact Hc).
    cbv iota. rewrite rmatch_empty. apply Htail. reflexivity.
  - eexists _, _.
    rewrite <- app_assoc.
    apply rmatch_star_class_greedy;
      [exact Hw0 | now apply step_word_starts |].
    rewrite rmatch_seq. unfold ROpt. rewrite rmatch_alt.
    match goal with
    | |- match ?e with Some _ => _ | None => _ end = Some ?m =>
      assert (Hopt : e = Some m); [|now rewrite Hopt]
    end.
    rewrite rmatch_seq.
    apply rmatch_step_word; [exact Hword|]. unfold spaces0 at 1.
    apply rmatch_star_class_greedy; [exact Hw1 | exact Hdigit |].
    apply Htail. reflexivity.
Qed.

End WebViewFacts.

Lemma normalizeLines_lines_witness :
  let text := VStr (str " 1. Mix the flour. " ++ [13%N; 10%N; 13%N; 10%N]
                    ++ str "2) Bake. ") in
  WebView.normalizeLines text
  = Some [str "1. Mix the flour."; str "2) Bake."] /\
  Forall trimmed_line [str "1. Mix the flour."; str "2) Bake."] /\
  WebView.instruction_steps text = Some [str "Mix the flour."; str "Bake."] /\
  Forall trimmed_line [str "Mix the flour."; str "Bake."].
Proof.
  intros text.
  assert (Hl : WebView.normalizeLines text
               = Some [str "1. Mix the flour."; str "2) Bake."])
    by (vm_compute; reflexivity).
  assert (Hs : WebView.instruction_steps text
               = Some [str "Mix the flour."; str "Bake."])
    by (vm_compute; reflexivity).
  destruct (normalizeLines_lines text) as (Hlines & Hsteps & _).
  split; [exact Hl|]. split; [exact (proj1 (Hlines _ Hl))|].
  split; [exact Hs|]. exact (Hsteps _ Hs).
Defined.

Lemma stripLeadingStepNumber_no_digit_witness :
  forallb (fun c => negb (is_digit c)) (str "  Whisk the eggs. ") = true /\
  WebView.stripLeadingStepNumber (str "  Whisk the eggs. ")
  = str "Whisk the eggs.".
Proof.
  assert (H : forallb (fun c => negb (is_digit c)) (str "  Whisk the eggs. ")
              = true) by (vm_compute; reflexivity).
  split; [exact H|].
  rewrite (stripLeadingStepNumber_no_digit _ H). vm_compute. reflexivity.
Defined.

Lemma stripLeadingStepNumber_numbered_witness :
  forallb is_space (str " ") = true /\
  step_prefix (str "Step ") /\
  digit_text (str "12") = true /\
  forallb is_space (str "") = true /\
  In 58%N (str ").:-") /\
  WebView.stripLeadingStepNumber (str " Step 12:  3 eggs, beaten ")
  = str "3 eggs, beaten".
Proof.
  assert (H1 : forallb is_space (str " ") = true) by reflexivity.
  assert (H2 : step_prefix (str "Step ")).
  { right. exists (str "Step"), (str " "). repeat split. }
  assert (H3 : digit_text (str "12") = true) by reflexivity.
  assert (H4 : forallb is_space (str "") = true) by reflexivity.
  assert (H5 : In 58%N (str ").:-")) by (vm_compute; tauto).
  split; [exact H1|]. split; [exact H2|]. split; [exact H3|].
  split; [exact H4|]. split; [exact H5|].
  refine (eq_trans _
            (eq_trans
               (stripLeadingStepNumber_numbered (str " ") (str "Step ")
                  (str "12") (str "") 58%N (str "  3 eggs, beaten ")
                  H1 H2 H3 H4 H5) _)).
  - apply f_equal. vm_compute. reflexivity.
  - vm_compute. reflexivity.
Defined.

(* ===================================================================== *)
(** * More on the quantities *)
(* ===================================================================== *)

Section QuantityFacts.
Import Web.

(** A line whose normalized text does not start, after its leading blanks,
    with a digit is returned as it is, for every multiplier: it is not even
    normalized. *)
Theorem scaleLeadingQuantity_without_digit (line : jsstring)
    (multiplier : number) :
  starts_with_digit (trimStart (normalizeFractions line)) = false ->
  scaleLeadingQuantity line multiplier = line.
Proof.
  intros Hstart. unfold scaleLeadingQuantity.
  destruct line as [|c line]; [reflexivity|].
  destruct (negb (Number_isFinite multiplier) || num_eq multiplier one);
    [reflexivity|].
  cbv zeta.
  destruct (exec scale_re (normalizeFractions (c :: line))) as [m|] eqn:Hm;
    [|reflexivity].
  exfalso.
  destruct (scale_re_shape _ _ Hm)
    as (prefix & a & suffix & _ & _ & _ & Hprefix & Ha & Hshape).
  assert (Hs : exists rest,
             normalizeFractions (c :: line) = prefix ++ a ++ rest).
  { destruct Hshape as [[_ ->]|(w1 & tok & w2 & b & _ & _ & _ & _ & _ & _ & ->)];
      eexists; reflexivity. }
  destruct Hs as [rest Hs]. rewrite Hs in Hstart.
  unfold trimStart in Hstart. rewrite drop_while_app_all in Hstart
    by exact Hprefix.
  destruct a as [|d a]; [discriminate|].
  cbn [starts_with_digit] in Ha. cbn [app drop_while] in Hstart.
  rewrite (digit_not_space d Ha) in Hstart.
  cbn [starts_with_digit] in Hstart. congruence.
Qed.

Lemma scaleLeadingQuantity_without_digit_witness :
  starts_with_digit (trimStart (normalizeFractions (str "  a pinch of ½ salt")))
  = false /\
  scaleLeadingQuantity (str "  a pinch of ½ salt") two
  = str "  a pinch of ½ salt".
Proof.
  assert (H : starts_with_digit
                (trimStart (normalizeFractions (str "  a pinch of ½ salt")))
              = false) by (vm_compute; reflexivity).
  split; [exact H|].
  exact (scaleLeadingQuantity_without_digit _ two H).
Defined.

(** ** The glyphs *)

(** A code unit that is no key of [UNICODE_FRACTIONS]. *)
Definition not_a_glyph (c : char) : bool :=
  match table_lookup UNICODE_FRACTIONS c with
  | Some _ => false
  | None => true
  end.

Lemma glyph_class_keys (t : list (char * jsstring)) c :
  existsb (char_eqb c) (map fst t)
  = match table_lookup t c with Some _ => true | None => false end.
Proof.
  induction t as [|[k v] t IH]; [reflexivity|].
  simpl. unfold char_eqb in *. rewrite (N.eqb_sym c k).
  destruct (N.eqb k c); [reflexivity | exact IH].
Qed.

Lemma fraction_glyph_class c :
  cclass_matches (COneOf (str "¼½¾⅐⅑⅒⅓⅔⅕⅖⅗⅘⅙⅚⅛⅜⅝⅞")) c = negb (not_a_glyph c).
Proof.
  replace (str "¼½¾⅐⅑⅒⅓⅔⅕⅖⅗⅘⅙⅚⅛⅜⅝⅞") with (map fst UNICODE_FRACTIONS)
    by (vm_compute; reflexivity).
  cbn [cclass_matches]. rewrite glyph_class_keys. unfold not_a_glyph.
  now destruct (table_lookup UNICODE_FRACTIONS c).
Qed.

(** What replaces a code unit: the fraction between two spaces for a glyph,
    the code unit itself otherwise. *)
Definition expand_glyph (c : char) : jsstring :=
  match table_lookup UNICODE_FRACTIONS c with
  | Some v => str " " ++ v ++ str " "
  | None => [c]
  end.

Lemma expand_glyph_plain c : forallb not_a_glyph (expand_glyph c) = true.
Proof.
  unfold expand_glyph.
  destruct (table_lookup UNICODE_FRACTIONS c) as [v|] eqn:Hc.
  - assert (Hall : forallb (fun kv => forallb not_a_glyph
                                         (str " " ++ snd kv ++ str " "))
                     UNICODE_FRACTIONS = true) by (vm_compute; reflexivity).
    rewrite forallb_forall in Hall.
    assert (Hin : exists k, In (k, v) UNICODE_FRACTIONS).
    { clear Hall. revert Hc. generalize UNICODE_FRACTIONS.
      induction l as [|[k w] l IH]; [discriminate|].
      simpl. destruct (char_eqb k c).
      - intros [= ->]. exists k. now left.
      - intros H. destruct (IH H) as [k' Hk']. exists k'. now right. }
    destruct Hin as [k Hin]. exact (Hall _ Hin).
  - cbn [forallb]. unfold not_a_glyph. now rewrite Hc.
Qed.

(** The global replacement of the glyphs, code unit by code unit. *)
Lemma replace_glyphs_loop fuel :
  forall prev s,
    (List.length s < fuel)%nat ->
    replace_all_loop fuel fraction_glyph_re
      (fun m (_ : unit) =>
         (str " "
          ++ match m_0 m with
             | [c] => match table_lookup UNICODE_FRACTIONS c with
                      | Some v => v
                      | None => m_0 m
                      end
             | _ => m_0 m
             end
          ++ str " ", tt))
      prev s tt
    = (flat_map expand_glyph s, tt).
Proof.
  induction fuel as [|fuel IH]; intros prev s Hlen; [lia|].
  destruct s as [|c s]; [reflexivity|].
  cbn [replace_all_loop]. unfold match_here, fraction_glyph_re.
  rewrite rmatch_char, fraction_glyph_class.
  cbn [flat_map]. unfold expand_glyph at 1, not_a_glyph.
  destruct (table_lookup UNICODE_FRACTIONS c) as [v|] eqn:Hc; cbn [negb].
  - replace (List.length (c :: s) - List.length s)%nat with 1%nat
      by (cbn [List.length]; lia).
    cbn [firstn m_0 m_after last]. rewrite Hc.
    fold fraction_glyph_re.
    rewrite IH by (simpl in Hlen; lia).
    now rewrite <- !app_assoc.
  - fold fraction_glyph_re. rewrite IH by (simpl in Hlen; lia).
    reflexivity.
Qed.

Lemma collapse_runs_forallb (P : char -> bool) s :
  P 32%N = true ->
  forallb P s = true ->
  forall b, forallb P (collapse_runs b s) = true.
Proof.
  intros Hsp. induction s as [|c s IH]; intros Hs b; [reflexivity|].
  simpl in Hs. apply andb_true_iff in Hs. destruct Hs as [Hc Hs].
  cbn [collapse_runs].
  destruct (is_space c); [destruct b|]; cbn [forallb];
    rewrite ?Hsp, ?Hc, ?IH; auto.
Qed.

Lemma forallb_flat_map {A B : Type} (P : B -> bool) (f : A -> list B) xs :
  (forall x, forallb P (f x) = true) ->
  forallb P (flat_map f xs) = true.
Proof.
  intros H. induction xs as [|x xs IH]; [reflexivity|].
  simpl. now rewrite forallb_app, H, IH.
Qed.

(** After [normalizeFractions] no fraction glyph is left, in the client as
    in the extractor: each is replaced by its fraction in ASCII, set
    between spaces, and every other code unit is kept; in the client the
    blanks are then collapsed, so that the only blanks of the text are
    single spaces. *)
Theorem normalizeFractions_no_glyph (text : jsstring) :
  forallb not_a_glyph (normalizeFractions text) = true /\
  single_spaced (normalizeFractions text) = true /\
  Api.normalizeFractions text = flat_map expand_glyph text /\
  forallb not_a_glyph (Api.normalizeFractions text) = true.
Proof.
  assert (Hflat : Api.normalizeFractions text = flat_map expand_glyph text).
  { unfold Api.normalizeFractions. rewrite replace_all_unfold.
    now rewrite replace_glyphs_loop by apply Nat.lt_succ_diag_r. }
  assert (Hplain : forallb not_a_glyph (flat_map expand_glyph text) = true)
    by (apply forallb_flat_map, expand_glyph_plain).
  assert (Hweb : normalizeFractions text
                 = collapse_runs false (flat_map expand_glyph text)).
  { unfold normalizeFractions. rewrite collapse_spaces_runs.
    change (replace_all fraction_glyph_re _ text)
      with (Api.normalizeFractions text).
    now rewrite Hflat. }
  split; [|split; [|split]].
  - rewrite Hweb. now apply collapse_runs_forallb.
  - rewrite Hweb. apply collapse_runs_single_spaced.
  - exact Hflat.
  - now rewrite Hflat.
Qed.

End QuantityFacts.

(* ===================================================================== *)
(** * The multiplier *)
(* ===================================================================== *)

Module MultipliersFacts.
Import stdpp.base stdpp.gmap.
Import WebView Multipliers.
Local Open Scope Z_scope.

(** [x <= y] *)
Definition num_le (x y : number) : bool := SFleb x y.

(** The range of the multiplier input: from 0.1 to 10. *)
Definition in_range (x : number) : bool := num_le lit_0_1 x && num_le x ten.

Lemma num_lt_le x y : num_lt x y = true -> num_le x y = true.
Proof.
  unfold num_lt, num_le, SFltb, SFleb.
  now destruct (SFcompare x y) as [[| |]|].
Qed.

Lemma in_range_finite x :
  in_range x = true -> exists m e, x = S754_finite false m e.
Proof.
  unfold in_range. intros H. apply andb_true_iff in H. destruct H as [H1 H2].
  destruct x as [[|]|[|]| |[|] m e]; try discriminate.
  now exists m, e.
Qed.

(** The clamp [Math.min(10, Math.max(0.1, next))] of a finite number lies
    in the range, and is the number itself when that lies in the range. *)
Lemma clamp_in_range next :
  Number_isFinite next = true ->
  in_range (Math_min ten (Math_max lit_0_1 next)) = true.
Proof.
  intros Hfin.
  assert (Hmax : Math_max lit_0_1 next
                 = if num_gt next lit_0_1 then next else lit_0_1).
  { destruct next as [[|]|[|]| |[|] m e]; try discriminate; try reflexivity.
    unfold Math_max. cbn [is_zero_of].
    change (lit_0_1) with (S754_finite false 7205759403792794 (-56)).
    cbv iota. now rewrite orb_false_r. }
  rewrite Hmax.
  destruct (num_gt next lit_0_1) eqn:Hgt.
  - assert (Hmin : Math_min ten next = if num_lt next ten then next else ten).
    { destruct next as [[|]|[|]| |[|] m e]; try discriminate; try reflexivity.
      all: unfold Math_min; cbn [is_zero_of];
        change ten with (S754_finite false 5629499534213120 (-49));
        cbv iota; now rewrite orb_false_r. }
    rewrite Hmin. destruct (num_lt next ten) eqn:Hlt; [|reflexivity].
    unfold in_range. apply andb_true_iff. split; now apply num_lt_le.
  - reflexivity.
Qed.

Lemma SFcompare_Eq_finite s m e y :
  SFcompare (S754_finite s m e) y = Some Eq -> y = S754_finite s m e.
Proof.
  destruct y as [sy|sy| |sy my ey]; simpl.
  - destruct s; discriminate.
  - destruct sy; discriminate.
  - discriminate.
  - destruct s, sy; try discriminate.
    + destruct (Z.compare_spec e ey) as [->|H|H]; try discriminate.
      intros [= H]. apply CompOpp_iff in H. simpl in H.
      apply Pos.compare_eq in H. now subst.
    + destruct (Z.compare_spec e ey) as [->|H|H]; try discriminate.
      intros [= H]. apply Pos.compare_eq in H. now subst.
Qed.

Lemma num_le_finite_cases s m e y :
  num_le (S754_finite s m e) y = true ->
  num_lt (S754_finite s m e) y = true \/ y = S754_finite s m e.
Proof.
  unfold num_le, num_lt, SFleb, SFltb.
  destruct (SFcompare (S754_finite s m e) y) as [[| |]|] eqn:H;
    try discriminate; intros _.
  - right. now apply SFcompare_Eq_finite in H.
  - now left.
Qed.

(** A number in the range is left as it is by the clamp. *)
Lemma clamp_in_range_id next :
  in_range next = true -> Math_min ten (Math_max lit_0_1 next) = next.
Proof.
  intros Hin. destruct (in_range_finite next Hin) as (m & e & ->).
  unfold in_range in Hin. apply andb_true_iff in Hin.
  destruct Hin as [Hlo Hhi].
  change lit_0_1 with (S754_finite false 7205759403792794 (-56)) in *.
  change ten with (S754_finite false 5629499534213120 (-49)) in *.
  assert (Hmax : Math_max (S754_finite false 7205759403792794 (-56))
                   (S754_finite false m e) = S754_finite false m e).
  { apply num_le_finite_cases in Hlo. destruct Hlo as [Hlt|Heq].
    - unfold Math_max. cbn [is_zero_of]. unfold num_gt.
      unfold num_lt in Hlt. now rewrite Hlt.
    - injection Heq as -> ->. reflexivity. }
  rewrite Hmax.
  unfold Math_min. cbn [is_zero_of]. rewrite orb_false_r.
  destruct (num_lt (S754_finite false m e)
              (S754_finite false 5629499534213120 (-49))) eqn:Hlt;
    [reflexivity|].
  unfold num_le, SFleb in Hhi. unfold num_lt, SFltb in Hlt.
  destruct (SFcompare (S754_finite false m e)
              (S754_finite false 5629499534213120 (-49)))
    as [[| |]|] eqn:Hc; try discriminate.
  now apply SFcompare_Eq_finite in Hc.
Qed.

(** Whatever is typed into the multiplier input, every multiplier the
    client keeps, and the multiplier it uses for any recipe, lies between
    0.1 and 10 (so it is finite and positive); a number typed within that
    range is kept as it is, and a text that gives no finite number changes
    nothing. *)
Theorem onChange_multiplier_range (recipe_id : Z) (next : number)
    (prev : gmap Z number) :
  map_Forall (fun _ x => in_range x = true) prev ->
  map_Forall (fun _ x => in_range x = true)
    (onChange_multiplier recipe_id next prev) /\
  (forall id',
     in_range (multiplier_of id' (onChange_multiplier recipe_id next prev))
     = true) /\
  (in_range next = true ->
   multiplier_of recipe_id (onChange_multiplier recipe_id next prev) = next) /\
  (Number_isFinite next = false ->
   onChange_multiplier recipe_id next prev = prev).
Proof.
  intros Hprev.
  assert (Hall : map_Forall (fun _ x => in_range x = true)
                   (onChange_multiplier recipe_id next prev)).
  { unfold onChange_multiplier.
    destruct (Number_isFinite next) eqn:Hfin; [|exact Hprev].
    cbn [negb]. cbv zeta. apply map_Forall_insert_2; [|exact Hprev].
    now apply clamp_in_range. }
  split; [exact Hall|]. split; [|split].
  - intros id'. unfold multiplier_of.
    destruct (onChange_multiplier recipe_id next prev !! id') as [x|] eqn:Hx;
      [|reflexivity].
    exact (Hall id' x Hx).
  - intros Hin. destruct (in_range_finite next Hin) as (m & e & ->).
    unfold multiplier_of, onChange_multiplier. cbn [Number_isFinite negb].
    cbv zeta. rewrite lookup_insert_eq. now apply clamp_in_range_id.
  - intros Hfin. unfold onChange_multiplier. now rewrite Hfin.
Qed.

(** The multipliers kept when the page opens: none. *)
Lemma onChange_multiplier_range_witness :
  map_Forall (fun _ x => in_range x = true) (∅ : gmap Z number) /\
  multiplier_of 7 (onChange_multiplier 7 (num_of_Z 50) ∅) = ten /\
  in_range (multiplier_of 7 (onChange_multiplier 7 (num_of_Z 50) ∅)) = true /\
  in_range (multiplier_of 8 (onChange_multiplier 7 (num_of_Z 50) ∅)) = true.
Proof.
  assert (H : map_Forall (fun _ x => in_range x = true) (∅ : gmap Z number))
    by apply map_Forall_empty.
  destruct (onChange_multiplier_range 7 (num_of_Z 50) ∅ H)
    as (_ & Hrange & _).
  split; [exact H|]. split; [vm_compute; reflexivity|].
  split; apply Hrange.
Defined.

(** With a multiplier of the input range, the product that
    [scaleLeadingQuantity] and [scaleServingsLabel] pass to
    [formatQuantity] for a quantity read by [parseQuantityToken] is never
    negative and never [NaN]. *)
Theorem scaled_quantity_not_negative (multiplier : number)
    (token : jsstring) (v : number) :
  in_range multiplier = true ->
  Web.parseQuantityToken token = Some v ->
  not_negative (num_mul v multiplier) = true.
Proof.
  intros Hrange Hv.
  destruct (in_range_finite multiplier Hrange) as (m & e & ->).
  apply num_mul_not_negative, has_sign_not_negative.
  now apply (parseQuantityToken_has_sign token).
Qed.

Lemma scaled_quantity_not_negative_witness :
  in_range lit_0_1 = true /\
  exists v,
    Web.parseQuantityToken (str "3/4") = Some v /\
    not_negative (num_mul v lit_0_1) = true.
Proof.
  assert (H : in_range lit_0_1 = true) by reflexivity.
  split; [exact H|].
  destruct (Web.parseQuantityToken (str "3/4")) as [v|] eqn:Hv;
    [|vm_compute in Hv; discriminate].
  exists v. split; [reflexivity|].
  exact (scaled_quantity_not_negative lit_0_1 (str "3/4") v H Hv).
Defined.

End MultipliersFacts.

(* ===================================================================== *)
(** * The texts of numbers and quantities *)
(* ===================================================================== *)

(** A text that is not empty and does not start with a point. *)
Definition headed (s : jsstring) : Prop :=
  exists c t, s = c :: t /\ c <> 46%N.

Lemma headed_app s t : headed s -> headed (s ++ t).
Proof. intros (c & u & -> & Hc). now exists c, (u ++ t). Qed.

Lemma digits_of_pos_fuel_headed fuel :
  forall n acc,
    (acc = [] -> fuel <> O) ->
    (acc <> [] -> headed acc) ->
    headed (digits_of_pos_fuel fuel n acc).
Proof.
  induction fuel as [|fuel IH]; intros n acc Hfuel Hacc; simpl.
  - apply Hacc. intros ->. now apply Hfuel.
  - assert (Hd : headed ((48 + n mod 10)%N :: acc)).
    { eexists _, _. split; [reflexivity|].
      assert (Hne : forall x : N, (48 + x)%N <> 46%N) by lia. apply Hne. }
    destruct (n <? 10)%N; [exact Hd|].
    apply IH; [discriminate | intros _; exact Hd].
Qed.

Lemma string_of_Z_headed z : headed (string_of_Z z).
Proof.
  destruct z as [|p|p]; simpl.
  - eexists _, _. split; [reflexivity | discriminate].
  - apply digits_of_pos_fuel_headed; [discriminate | congruence].
  - eexists _, _. split; [reflexivity | discriminate].
Qed.

Lemma firstn_headed n s : (0 < n)%nat -> headed s -> headed (firstn n s).
Proof.
  intros Hn (c & t & -> & Hc). destruct n as [|n]; [lia|].
  simpl. now exists c, (firstn n t).
Qed.

Lemma toString_pos_headed m e : headed (toString_pos m e).
Proof.
  unfold toString_pos.
  destruct (shortest_digits 400 m e _) as [a p].
  pose proof (string_of_Z_headed a) as Hds.
  destruct ((_ <=? _) && (_ <=? 21)); [now apply headed_app|].
  destruct ((0 <? _) && (_ <=? 21)) eqn:Hn.
  - apply headed_app, firstn_headed; [|exact Hds].
    apply andb_true_iff in Hn. destruct Hn as [Hn _].
    apply Z.ltb_lt in Hn. lia.
  - destruct ((-6 <? _) && (_ <=? 0)).
    + eexists _, _. split; [reflexivity | discriminate].
    + destruct Hds as (c & t & -> & Hc).
      destruct t; eexists _, _; (split; [reflexivity | exact Hc]).
Qed.

(** [String(x)] is never empty and never starts with a point. *)
Lemma String_of_number_headed x : headed (String_of_number x).
Proof.
  destruct x as [s|[|]| |[|] m e]; simpl;
    try (eexists _, _; split; [reflexivity | discriminate]).
  apply toString_pos_headed.
Qed.

Lemma Matches_seq_inv r1 r2 p s cs p2 s2 cs2 :
  Matches (RSeq r1 r2) p s cs p2 s2 cs2 ->
  exists p1 s1 cs1,
    Matches r1 p s cs p1 s1 cs1 /\ Matches r2 p1 s1 cs1 p2 s2 cs2.
Proof. inversion 1; subst. eauto. Qed.

Lemma Matches_char_inv cl p s cs p' s' cs' :
  Matches (RChar cl) p s cs p' s' cs' ->
  exists c, s = c :: s' /\ cclass_matches cl c = true.
Proof. inversion 1; subst. eauto. Qed.

Section FormatFacts.
Import Web.

(** Replacing the first match of a pattern whose matches start with a
    point, in a text that does not start with one, leaves a text that is
    not empty. *)
Lemma replace_first_headed r f s :
  (forall p s0 cs p' s' cs',
     Matches r p s0 cs p' s' cs' -> exists t, s0 = 46%N :: t) ->
  headed s -> headed (replace_first r f s).
Proof.
  intros Hr Hs. unfold replace_first.
  destruct (exec r s) as [m|] eqn:Hm; [|exact Hs].
  apply exec_from_sound in Hm.
  destruct Hm as (s0 & p & Hsplit & Hs0 & p' & HM).
  simpl in Hsplit. rewrite Hsplit in Hs. clear Hsplit.
  apply Hr in HM. destruct HM as [t ->].
  destruct (m_before m) as [|b before].
  - exfalso. destruct Hs as (c & u & [= <- <-] & Hc). now elim Hc.
  - destruct Hs as (c & u & [= <- _] & Hc).
    now exists b, (before ++ f m ++ m_after m).
Qed.

Lemma trailing_point_zeros_starts p s0 cs p' s' cs' :
  Matches trailing_point_zeros_re p s0 cs p' s' cs' ->
  exists t, s0 = 46%N :: t.
Proof.
  unfold trailing_point_zeros_re. cbn [RSeqs]. intros HM.
  apply Matches_seq_inv in HM. destruct HM as (p1 & s1 & cs1 & Hdot & Hrest).
  apply Matches_char_inv in Hdot. destruct Hdot as (c & -> & Hc).
  cbn [cclass_matches] in Hc. apply N.eqb_eq in Hc. subst c.
  now exists s1.
Qed.

Lemma trailing_zeros_starts p s0 cs p' s' cs' :
  Matches trailing_zeros_re p s0 cs p' s' cs' ->
  exists t, s0 = 46%N :: t.
Proof.
  unfold trailing_zeros_re. cbn [RSeqs]. intros HM.
  apply Matches_seq_inv in HM. destruct HM as (p1 & s1 & cs1 & Hg & Hrest).
  apply Matches_group_inv in Hg. destruct Hg as (g & cs2 & -> & _ & Hg).
  apply Matches_seq_inv in Hg. destruct Hg as (p2 & s2 & cs3 & Hdot & Hg).
  apply Matches_char_inv in Hdot. destruct Hdot as (c & Hs2 & Hc).
  cbn [cclass_matches] in Hc. apply N.eqb_eq in Hc. subst c.
  destruct g as [|c g]; simpl in Hs2.
  - apply Matches_prefix in Hg. destruct Hg as [u Hu].
    exfalso. rewrite Hu in Hs2.
    apply (f_equal (@List.length char)) in Hs2.
    simpl in Hs2. rewrite length_app in Hs2. lia.
  - injection Hs2 as -> _. now exists (g ++ s1).
Qed.

(** [formatQuantity] returns the empty text for the values that are not
    finite, and only for them: every finite value has a text. *)
Theorem formatQuantity_empty_iff (value : number) :
  formatQuantity value = [] <-> Number_isFinite value = false.
Proof.
  unfold formatQuantity.
  destruct (Number_isFinite value); cbn [negb]; [|now split].
  split; [|discriminate]. intros Hempty. exfalso.
  assert (Hne : forall s, headed s -> s <> []).
  { intros s (c & t & -> & _). discriminate. }
  revert Hempty. apply Hne. cbv zeta.
  destruct (num_lt _ lit_1e_9); [apply String_of_number_headed|].
  destruct (num_lt _ lit_0_02).
  - destruct (num_eq _ zero); [apply String_of_number_headed|].
    destruct (num_gt _ zero); apply headed_app, String_of_number_headed.
  - apply replace_first_headed; [exact trailing_zeros_starts|].
    apply replace_first_headed; [exact trailing_point_zeros_starts|].
    apply String_of_number_headed.
Qed.

End FormatFacts.

(** The text [toFirstString] returns is never empty: an entry of an array
    that gives no text, or the empty text, is passed over, and a number is
    written as [String] writes it. *)
Theorem toFirstString_not_empty (v : value) (s : jsstring) :
  Api.toFirstString v = Some s -> s <> [].
Proof.
  assert (Hne : forall o : option jsstring,
             Api.nonempty o = Some s -> s <> []).
  { intros [[|c t]|]; try discriminate. intros [= <-]. discriminate. }
  destruct v as [| |b|n|t|items|fields]; try discriminate.
  - destruct b; discriminate.
  - simpl. destruct (num_truthy n); [|discriminate]. simpl.
    destruct (Number_isFinite n); [|discriminate].
    intros [= <-]. destruct (String_of_number_headed n) as (c & t & -> & _).
    discriminate.
  - destruct t; [discriminate|]. intros [= <-]. discriminate.
  - change (Api.toFirstString (VArr items))
      with (first_some (fun x => Api.nonempty (Api.toFirstString x)) items).
    induction items as [|x items IH]; [discriminate|].
    simpl. destruct (Api.nonempty (Api.toFirstString x)) eqn:Hx.
    + intros [= <-]. now apply (Hne _ Hx).
    + exact IH.
Qed.

Lemma toFirstString_not_empty_witness :
  Api.toFirstString (VArr [VNull; VStr (str ""); VNum (num_of_Z 4);
                           VStr (str "4 servings")])
  = Some (str "4") /\
  str "4" <> [].
Proof.
  assert (H : Api.toFirstString
                (VArr [VNull; VStr (str ""); VNum (num_of_Z 4);
                       VStr (str "4 servings")])
              = Some (str "4")) by (vm_compute; reflexivity).
  split; [exact H|].
  exact (toFirstString_not_empty _ _ H).
Defined.

(* ===================================================================== *)
(** * Saving the edits of a recipe *)
(* ===================================================================== *)

Module SaveFacts.
Import stdpp.base stdpp.gmap.
Import Routes Handlers HandlersFacts WebView.
Local Open Scope Z_scope.

Lemma prop_title_notes (v1 v2 : value) :
  prop [(str "title", v1); (str "notes", v2)] (str "title") = v1 /\
  prop [(str "title", v1); (str "notes", v2)] (str "notes") = v2 /\
  prop [(str "title", v1); (str "notes", v2)] (str "tags") = VUndefined.
Proof.
  cbn [prop].
  replace (jsstring_eqb (str "notes") (str "title")) with false
    by (vm_compute; reflexivity).
  replace (jsstring_eqb (str "title") (str "title")) with true
    by (vm_compute; reflexivity).
  replace (jsstring_eqb (str "notes") (str "notes")) with true
    by (vm_compute; reflexivity).
  replace (jsstring_eqb (str "title") (str "notes")) with false
    by (vm_compute; reflexivity).
  replace (jsstring_eqb (str "notes") (str "tags")) with false
    by (vm_compute; reflexivity).
  replace (jsstring_eqb (str "title") (str "tags")) with false
    by (vm_compute; reflexivity).
  repeat split; cbv beta iota;
    first [reflexivity | now destruct v1 | now destruct v2].
Qed.

Lemma prop_notes (v2 : value) :
  prop [(str "notes", v2)] (str "title") = VUndefined /\
  prop [(str "notes", v2)] (str "notes") = v2 /\
  prop [(str "notes", v2)] (str "tags") = VUndefined.
Proof.
  cbn [prop].
  replace (jsstring_eqb (str "notes") (str "title")) with false
    by (vm_compute; reflexivity).
  replace (jsstring_eqb (str "notes") (str "notes")) with true
    by (vm_compute; reflexivity).
  replace (jsstring_eqb (str "notes") (str "tags")) with false
    by (vm_compute; reflexivity).
  repeat split; cbv beta iota; first [reflexivity | now destruct v2].
Qed.

(** What the update schema makes of the body of a save. *)
Lemma updateSchema_parse_save (editTitle editNotes : jsstring) :
  updateSchema_parse (onSaveEdits_body editTitle editNotes)
  = if (Z.of_nat (List.length (trim editTitle)) <=? 180)
       && (Z.of_nat (List.length (trim editNotes)) <=? 5000)
    then Some {| u_title := match trim editTitle with
                            | [] => None
                            | c :: t => Some (c :: t)
                            end;
                 u_notes := match trim editNotes with
                            | [] => Some None
                            | c :: t => Some (Some (c :: t))
                            end;
                 u_tags := None |}
    else None.
Proof.
  unfold onSaveEdits_body.
  rewrite updateSchema_parse_fields.
  assert (Hnotes : forall pt,
             parsed_fields pt
               (match trim editNotes with
                | [] => VNull
                | _ :: _ => VStr editNotes
                end) VUndefined
             = match z_optional (z_trimmed_string 1 180) pt with
               | Some t =>
                 if Z.of_nat (List.length (trim editNotes)) <=? 5000
                 then Some {| u_title := t;
                              u_notes := match trim editNotes with
                                         | [] => Some None
                                         | c :: t => Some (Some (c :: t))
                                         end;
                              u_tags := None |}
                 else None
               | None => None
               end).
  { intros pt. unfold parsed_fields.
    destruct (z_optional (z_trimmed_string 1 180) pt) as [t|]; [|reflexivity].
    destruct (trim editNotes) as [|c n] eqn:Hn.
    - reflexivity.
    - cbn [z_nullable z_optional z_trimmed_string option_map]. cbv zeta.
      rewrite Hn.
      assert (H0 : (0 <=? Z.of_nat (List.length (c :: n))) = true)
        by (apply Z.leb_le; lia).
      rewrite H0. cbn [andb].
      now destruct (Z.of_nat (List.length (c :: n)) <=? 5000). }
  destruct (trim editTitle) as [|c t] eqn:Ht.
  - cbn [app].
    destruct (prop_notes (match trim editNotes with
                          | [] => VNull
                          | _ :: _ => VStr editNotes
                          end)) as (-> & -> & ->).
    rewrite Hnotes. reflexivity.
  - cbn [app].
    destruct (prop_title_notes (VStr (c :: t))
                (match trim editNotes with
                 | [] => VNull
                 | _ :: _ => VStr editNotes
                 end)) as (-> & -> & ->).
    rewrite Hnotes.
    cbn [z_optional z_trimmed_string option_map]. cbv zeta.
    rewrite <- Ht, trim_idempotent, Ht.
    assert (H1 : (1 <=? Z.of_nat (List.length (c :: t))) = true)
      by (apply Z.leb_le; cbn [List.length]; lia).
    rewrite H1. cbn [andb].
    now destruct (Z.of_nat (List.length (c :: t)) <=? 180).
Qed.

Section Save.
Variable zod_message : value -> jsstring.
Variable not_found_message : jsstring.
Variable written : Z.

(** Saving the edits of a recipe that exists: when the trimmed title has
    at most 180 code units and the trimmed notes at most 5000, the row takes
    the trimmed title, or keeps its title when that is empty, and takes the
    trimmed notes, or no notes when they are blank; its tags and every
    scraped column stay as they were.  Otherwise nothing is stored and the
    answer is the 500 of the validation. *)
Theorem onSaveEdits_stored (key : Z) (db : gmap Z Recipe) (r : Recipe)
    (editTitle editNotes : jsstring) :
  db !! key = Some r ->
  let body := onSaveEdits_body editTitle editNotes in
  if (Z.of_nat (List.length (trim editTitle)) <=? 180)
     && (Z.of_nat (List.length (trim editNotes)) <=? 5000)
  then
    exists r',
      asyncRoute (put_by_id zod_message not_found_message written (Some key) body) db
      = (<[key := r']> db, {| status := 200; body := recipe_body r' |}) /\
      title r' = match trim editTitle with [] => title r | t => t end /\
      notes r' = match trim editNotes with [] => None | n => Some n end /\
      tags r' = tags r /\
      description r' = description r /\
      imageUrl r' = imageUrl r /\
      ingredients r' = ingredients r /\
      instructions r' = instructions r /\
      sourceHost r' = sourceHost r /\
      sourceUrl r' = sourceUrl r /\
      scrapeStatus r' = scrapeStatus r /\
      scrapeError r' = scrapeError r /\
      lastScrapedAt r' = lastScrapedAt r
  else
    asyncRoute (put_by_id zod_message not_found_message written (Some key) body) db
    = (db, {| status := 500; body := error_body (zod_message body) |}).
Proof.
  intros Hr body. unfold asyncRoute, put_by_id. subst body.
  rewrite updateSchema_parse_save.
  destruct (_ && _); [|reflexivity].
  rewrite Hr. eexists. split; [reflexivity|].
  read_columns.
  destruct (trim editTitle), (trim editNotes); now repeat split.
Qed.
End Save.

Lemma onSaveEdits_stored_witness :
  two_rows !! 3 = Some pie_row /\
  exists r',
    asyncRoute (put_by_id (fun _ => str "invalid") (str "no row") 900 (Some 3)
                  (onSaveEdits_body (str "   ") (str " with cream  ")))
      two_rows
    = (<[3 := r']> two_rows, {| status := 200; body := recipe_body r' |}) /\
    title r' = str "example.com" /\
    notes r' = Some (str "with cream").
Proof.
  assert (H : two_rows !! 3 = Some pie_row) by reflexivity.
  split; [exact H|].
  pose proof (onSaveEdits_stored (fun _ => str "invalid") (str "no row") 900 3
                two_rows pie_row (str "   ") (str " with cream  ") H) as Hs.
  cbv zeta in Hs.
  replace ((Z.of_nat (List.length (trim (str "   "))) <=? 180)
           && (Z.of_nat (List.length (trim (str " with cream  "))) <=? 5000))
    with true in Hs by (vm_compute; reflexivity).
  destruct Hs as (r' & Hput & Ht & Hn & _).
  exists r'. split; [exact Hput|].
  rewrite Ht, Hn. split; vm_compute; reflexivity.
Defined.

End SaveFacts.

(* ===================================================================== *)
(** * Printing a quantity and reading it back *)
(* ===================================================================== *)

Section RoundTrip.
Import Web.

(** The same value, field by field. *)
Definition same_number (a b : number) : bool :=
  match a, b with
  | S754_zero s, S754_zero s' => Bool.eqb s s'
  | S754_infinity s, S754_infinity s' => Bool.eqb s s'
  | S754_nan, S754_nan => true
  | S754_finite s m e, S754_finite s' m' e' =>
    Bool.eqb s s' && Pos.eqb m m' && Z.eqb e e'
  | _, _ => false
  end.

Lemma same_number_eq a b : same_number a b = true -> a = b.
Proof.
  destruct a as [s|s| |s m e], b as [s'|s'| |s' m' e']; simpl;
    try discriminate; try reflexivity.
  - intros H. apply eqb_prop in H. now subst.
  - intros H. apply eqb_prop in H. now subst.
  - intros H. apply andb_true_iff in H. destruct H as [H He].
    apply andb_true_iff in H. destruct H as [Hs Hm].
    apply eqb_prop in Hs. apply Pos.eqb_eq in Hm. apply Z.eqb_eq in He.
    now subst.
Qed.

(** [n] eighths. *)
Definition eighths (n : Z) : number := num_div (num_of_Z n) eight.

Definition reads_back (n : Z) : bool :=
  match parseQuantityToken (formatQuantity (eighths n)) with
  | Some v => same_number v (eighths n)
  | None => false
  end.

Lemma reads_back_upto_100 :
  forallb reads_back (map Z.of_nat (seq 0 801)) = true.
Proof. vm_compute. reflexivity. Qed.

(** Every quantity that is a whole number of eighths, from 0 to 100, is
    printed by [formatQuantity] as a text that [parseQuantityToken] reads
    back as the same number. *)
Theorem eighths_round_trip (n : Z) :
  0 <= n <= 800 ->
  parseQuantityToken (formatQuantity (eighths n)) = Some (eighths n).
Proof.
  intros Hn.
  pose proof reads_back_upto_100 as Hall.
  rewrite forallb_forall in Hall.
  assert (Hin : In n (map Z.of_nat (seq 0 801))).
  { apply in_map_iff. exists (Z.to_nat n). split; [lia|].
    apply in_seq. lia. }
  apply Hall in Hin. unfold reads_back in Hin.
  destruct (parseQuantityToken (formatQuantity (eighths n))) as [v|];
    [|discriminate].
  now apply same_number_eq in Hin; subst.
Qed.

Lemma eighths_round_trip_witness :
  0 <= 13 <= 800 /\
  formatQuantity (eighths 13) = str "1 5/8" /\
  parseQuantityToken (str "1 5/8") = Some (eighths 13).
Proof.
  assert (H : 0 <= 13 <= 800) by lia.
  assert (Hf : formatQuantity (eighths 13) = str "1 5/8")
    by (vm_compute; reflexivity).
  split; [exact H|]. split; [exact Hf|].
  rewrite <- Hf. exact (eighths_round_trip 13 H).
Defined.

End RoundTrip.
